(** * FBXLoader: the scene reconstructor of [src/loaders/FBXLoader.ts]

    A shallow embedding of [FBXTreeParser] and [FBXLoader.parse].

    Conventions of the embedding.
    - Object IDs are integers ([Z]).  A JavaScript object that the loader uses
      as a dictionary keyed by node ID ([fbxTree.Objects.Model], the
      [skeletons] registry, ...) is an association list in the order in which
      [for (let nodeID in ...)] enumerates it; a [Map] whose iteration order
      matters is an association list as well, and a [Map] that is only looked
      up is a [gmap].
    - An optional field of a node is an [option]; [undefined] is [None].
    - JavaScript numbers that carry measurements are binary64 floats
      ([PrimFloat.float]); enumerations and IDs are integers.
    - A statement that can raise runs in the monad [M]: a state transformer
      that ends in [Normal v] or in [Throw e].  Reading a property of
      [undefined], and assigning to a [const] binding, raise [TypeError]. *)

From Stdlib Require Import ZArith List Lia Ascii String PrimFloat.
From stdpp Require Import base option list gmap strings pretty.

Open Scope Z_scope.

(** ** Completions and the state-and-exception monad *)

Inductive JsError : Type :=
| TypeError (msg : string)
| Error (msg : string).

Inductive Completion (A : Type) : Type :=
| Normal (a : A)
| Throw (e : JsError).
Arguments Normal {A} a.
Arguments Throw {A} e.

Definition M (S A : Type) : Type := S → Completion A * S.

Definition ret {S A} (a : A) : M S A := λ s, (Normal a, s).

Definition bind {S A B} (c : M S A) (k : A → M S B) : M S B :=
  λ s, match c s with
       | (Normal a, s') => k a s'
       | (Throw e, s') => (Throw e, s')
       end.

Definition throw {S A} (e : JsError) : M S A := λ s, (Throw e, s).
Definition modify {S} (f : S → S) : M S unit := λ s, (Normal tt, f s).

Global Instance M_ret {S} : MRet (M S) := λ A, @ret S A.
Global Instance M_bind {S} : MBind (M S) := λ A B k c, @bind S A B c k.

(** [o.field] where [o] may be [undefined]. *)
Definition prop {S A} (what : string) (o : option A) : M S A :=
  match o with
  | Some a => ret a
  | None => throw (TypeError ("Cannot read property of undefined: " +:+ what))
  end.

(** [for (x of xs) body(x)], the body run for its effect. *)
Fixpoint forEach {S A} (body : A → M S unit) (xs : list A) : M S unit :=
  match xs with
  | [] => ret tt
  | x :: rest => body x;; forEach body rest
  end.

(** ** The connection graph ([parseConnections]) *)

(** The relationship label of a connection; [None] is [undefined]. *)
Definition Label : Type := option string.

Record Edge : Type := mkEdge { ID : Z; relationship : Label }.

Record Relationships : Type := mkRel { parents : list Edge; children : list Edge }.

(** A raw connection [[fromID, toID, relationship]]. *)
Record RawConnection : Type :=
  mkConn { fromID : Z; toID : Z; conn_relationship : Label }.

Global Instance Edge_eq_dec : EqDecision Edge.
Proof. solve_decision. Defined.

Definition emptyRel : Relationships := {| parents := []; children := [] |}.

(** [if (!connectionMap.has(id)) connectionMap.set(id, {parents: [], children: []})] *)
Definition ensureEntry (id : Z) (m : gmap Z Relationships) : gmap Z Relationships :=
  match m !! id with
  | Some _ => m
  | None => <[id := emptyRel]> m
  end.

(** [connectionMap.get(id).parents.push(e)] *)
Definition pushParent (id : Z) (e : Edge) (m : gmap Z Relationships) : gmap Z Relationships :=
  alter (λ r, {| parents := parents r ++ [e]; children := children r |}) id m.

(** [connectionMap.get(id).children.push(e)] *)
Definition pushChild (id : Z) (e : Edge) (m : gmap Z Relationships) : gmap Z Relationships :=
  alter (λ r, {| parents := parents r; children := children r ++ [e] |}) id m.

(** The body of [rawConnections.forEach]. *)
Definition addConnection (m : gmap Z Relationships) (c : RawConnection) : gmap Z Relationships :=
  let m1 := ensureEntry (fromID c) m in
  let m2 := pushParent (fromID c) (mkEdge (toID c) (conn_relationship c)) m1 in
  let m3 := ensureEntry (toID c) m2 in
  pushChild (toID c) (mkEdge (fromID c) (conn_relationship c)) m3.

(** [fbxTree.Connections] is [None] when the tree has no such section. *)
Definition parseConnections (Connections : option (list RawConnection)) : gmap Z Relationships :=
  match Connections with
  | Some rawConnections => foldl addConnection ∅ rawConnections
  | None => ∅
  end.

(** The parent edges and child edges that a list of raw connections gives an ID,
    in input order. *)
Definition parentEdges (id : Z) (raw : list RawConnection) : list Edge :=
  (λ c, mkEdge (toID c) (conn_relationship c)) <$> filter (λ c, fromID c = id) raw.

Definition childEdges (id : Z) (raw : list RawConnection) : list Edge :=
  (λ c, mkEdge (fromID c) (conn_relationship c)) <$> filter (λ c, toID c = id) raw.

Definition mentioned (id : Z) (raw : list RawConnection) : Prop :=
  ∃ c, c ∈ raw ∧ (fromID c = id ∨ toID c = id).

(** The graph built from a prefix of the input. *)
Definition graphOf (raw : list RawConnection) (m : gmap Z Relationships) : Prop :=
  ∀ id, match m !! id with
        | Some r => mentioned id raw ∧ parents r = parentEdges id raw
                    ∧ children r = childEdges id raw
        | None => ¬ mentioned id raw
        end.

(** ** Strings *)

Definition lowerAscii (a : ascii) : ascii :=
  let n := nat_of_ascii a in
  if (65 <=? n)%nat && (n <=? 90)%nat then ascii_of_nat (n + 32) else a.

(** [s.toLowerCase()] on ASCII text. *)
Definition toLowerCase (s : string) : string :=
  string_of_list_ascii (lowerAscii <$> list_ascii_of_string s).

(** [s.slice(-n)]: the last [n] characters. *)
Definition sliceLast (n : nat) (s : string) : string :=
  let l := list_ascii_of_string s in
  string_of_list_ascii (drop (length l - n) l).

(** [s.indexOf(p) === 0] *)
Definition startsWith (p s : string) : bool := String.prefix p s.

(** ** Dictionaries keyed by node ID *)

(** [nodes[id]] on an object used as a dictionary. *)
Fixpoint lookupNode {A} (id : Z) (nodes : list (Z * A)) : option A :=
  match nodes with
  | [] => None
  | (k, a) :: rest => if decide (k = id) then Some a else lookupNode id rest
  end.

(** [nodes[id] = a]: an existing key keeps its place, a new key goes last. *)
Fixpoint setNode {A} (id : Z) (a : A) (nodes : list (Z * A)) : list (Z * A) :=
  match nodes with
  | [] => [(id, a)]
  | (k, b) :: rest => if decide (k = id) then (k, a) :: rest else (k, b) :: setNode id a rest
  end.

(** [array[i] = v] on a JavaScript array: writing past the end leaves holes. *)
Definition arraySet {A} (i : nat) (v : A) (array : list (option A)) : list (option A) :=
  if decide (i < length array)%nat then <[i := Some v]> array
  else array ++ replicate (i - length array) None ++ [Some v].

(** The diagnostic channel: [console.warn] and [console.error] append a line. *)
Definition Log : Type := list string.

(** What a pass can change: the console and the mutable objects [H] it works on. *)
Record World (H : Type) : Type := mkWorld { console : Log; heap : H }.
Arguments mkWorld {H} console heap.
Arguments console {H} w.
Arguments heap {H} w.

Definition warn {H} (msg : string) : M (World H) unit :=
  modify (λ w, mkWorld (console w ++ [msg]) (heap w)).

Definition getHeap {H} : M (World H) H := λ w, (Normal (heap w), w).

Definition setHeap {H} (h : H) : M (World H) unit :=
  modify (λ w, mkWorld (console w) h).

(** [for (x of xs) acc = body(acc, x)] *)
Fixpoint foldM {S A B} (body : B → A → M S B) (acc : B) (xs : list A) : M S B :=
  match xs with
  | [] => mret acc
  | x :: rest => acc' ← body acc x; foldM body acc' rest
  end.

(** * The tree parser

    [fbxTree] and [connections] are module-level variables of the source; the
    collaborators that live outside the loader are parameters as well. *)

(** ** Tree nodes *)

Record TextureNode : Type := mkTextureNode {
  tn_id : Z;
  tn_attrName : option string;
  WrapModeU : option Z;
  WrapModeV : option Z;
  Scaling : option (list float);
  FileName : option string;
  RelativeFilename : option string
}.

Inductive ShadingModel : Type :=
| ShadingName (s : string)
| ShadingProperty (value : string).

Record MaterialNode : Type := mkMaterialNode {
  mn_id : Z;
  mn_attrName : option string;
  mn_ShadingModel : option ShadingModel
}.

Record DeformerNode : Type := mkDeformerNode {
  dn_id : Z;
  dn_attrType : option string;
  dn_attrName : option string;
  TransformLink : option (list float);
  Indexes : option (list float);
  Weights : option (list float);
  DeformPercent : option float;
  FullWeights : option (list float)
}.

(** The fields of a camera's [NodeAttribute]; a present field holds its [value]. *)
Record NodeAttribute : Type := mkNodeAttribute {
  CameraProjectionType : option Z;
  NearPlane : option float;
  FarPlane : option float;
  AspectWidth : option float;
  AspectHeight : option float;
  FieldOfView : option float;
  FocalLength : option float
}.

Record ModelNode : Type := mkModelNode {
  mo_attrType : option string;
  mo_attrName : option string;
  LookAtProperty : bool;
  Lcl_Translation : option (list float)
}.

Record FbxObjects : Type := mkObjects {
  Texture_nodes : option (list (Z * TextureNode));
  Material_nodes : option (list (Z * MaterialNode));
  Deformer_nodes : option (list (Z * DeformerNode));
  NodeAttribute_nodes : option (list (Z * NodeAttribute));
  Model_nodes : option (list (Z * ModelNode))
}.

(** ** three.js values *)

Inductive Wrapping : Type := RepeatWrapping | ClampToEdgeWrapping.

Inductive TextureSource : Type :=
| Placeholder
| TextureLoader_load (path : option string) (url : option string)
| TgaHandler_load (url : option string).

Record Texture : Type := mkTexture {
  tex_source : TextureSource;
  tex_ID : option Z;
  tex_name : option string;
  wrapS : Wrapping;
  wrapT : Wrapping;
  tex_repeat : option float * option float
}.

(** [new Texture()]: three.js clamps by default and repeats once. *)
Definition newTexture (src : TextureSource) : Texture :=
  {| tex_source := src; tex_ID := None; tex_name := None;
     wrapS := ClampToEdgeWrapping; wrapT := ClampToEdgeWrapping;
     tex_repeat := (Some 1%float, Some 1%float) |}.

Inductive Matrix4 : Type := Matrix4_fromArray (a : list float).

(** A joint ([Bone]) lives in a heap of joints and is named by its index there. *)
Record Bone : Type := mkBone {
  bone_name : string;
  bone_ID : Z;
  matrixWorld : Matrix4;
  bone_parent : option nat;
  bone_children : list nat
}.

(** [l.splice(l.indexOf(x), 1)] when [x] occurs in [l]. *)
Fixpoint removeFirst {A} `{EqDecision A} (x : A) (l : list A) : list A :=
  match l with
  | [] => []
  | y :: rest => if decide (y = x) then rest else y :: removeFirst x rest
  end.

(** [Object3D.remove] and [Object3D.add] of three.js, on the heap of joints. *)
Definition Bone_remove (this object : nat) (h : list Bone) : list Bone :=
  match h !! this with
  | Some p =>
      if decide (object ∈ bone_children p) then
        alter (λ b, mkBone (bone_name b) (bone_ID b) (matrixWorld b) (bone_parent b)
                      (removeFirst object (bone_children b))) this
          (alter (λ b, mkBone (bone_name b) (bone_ID b) (matrixWorld b) None
                         (bone_children b)) object h)
      else h
  | None => h
  end.

Definition Bone_add (this object : nat) (h : list Bone) : list Bone :=
  if decide (object = this) then h
  else
    let h1 := match h !! object ≫= bone_parent with
              | Some p => Bone_remove p object h
              | None => h
              end in
    alter (λ b, mkBone (bone_name b) (bone_ID b) (matrixWorld b) (bone_parent b)
                  (bone_children b ++ [object])) this
      (alter (λ b, mkBone (bone_name b) (bone_ID b) (matrixWorld b) (Some this)
                     (bone_children b)) object h1).

(** The nodes that [createCamera] builds. *)
Inductive Camera : Type :=
| Object3D_new
| PerspectiveCamera (fov aspect near far : float) (focalLength : option float)
| OrthographicCamera (left right top bottom near far : float).

(** [geo_color] is ['color' in geometry.attributes]. *)
Record Geometry : Type := mkGeometry { geo_color : bool; FBX_Deformer : bool }.

Inductive MaterialSlot : Type :=
| SingleMaterial (m : nat)
| MaterialList (ms : list nat).

(** A [Mesh] or [SkinnedMesh]; the geometry is named by its ID. *)
Record Mesh : Type := mkMesh {
  isSkinnedMesh : bool;
  mesh_geometry : Z;
  mesh_material : MaterialSlot
}.

(** The objects of the scene during hierarchy assembly: the root group
    [sceneGraph], the model built for an ID, and the [target] of a light. *)
Inductive Obj : Type :=
| SceneGraph
| ModelObj (id : Z)
| TargetObj (id : Z).

Global Instance Obj_eq_dec : EqDecision Obj.
Proof. solve_decision. Defined.

Global Instance Obj_countable : Countable Obj.
Proof.
  refine (inj_countable'
            (λ o, match o with
                  | SceneGraph => inl ()
                  | ModelObj id => inr (inl id)
                  | TargetObj id => inr (inr id)
                  end)
            (λ x, match x with
                  | inl _ => SceneGraph
                  | inr (inl id) => ModelObj id
                  | inr (inr id) => TargetObj id
                  end) _).
  by intros [].
Defined.

(** [parentOf] is [object.parent] (absent: [null]), [childrenOf] is
    [object.children]; [positionOf] and [lookedAt] record
    [target.position.fromArray(pos)] and [model.lookAt(pos)]. *)
Record Hierarchy : Type := mkHierarchy {
  parentOf : gmap Obj Obj;
  childrenOf : gmap Obj (list Obj);
  positionOf : gmap Obj (list float);
  lookedAt : gmap Obj (list float)
}.

Definition kids (h : Hierarchy) (o : Obj) : list Obj := default [] (childrenOf h !! o).

(** [this.remove(object)] *)
Definition Object3D_remove (this object : Obj) (h : Hierarchy) : Hierarchy :=
  if decide (object ∈ kids h this) then
    {| parentOf := delete object (parentOf h);
       childrenOf := <[this := removeFirst object (kids h this)]> (childrenOf h);
       positionOf := positionOf h; lookedAt := lookedAt h |}
  else h.

(** [this.add(object)] *)
Definition Object3D_add (this object : Obj) : M (World Hierarchy) unit :=
  if decide (object = this) then
    warn "THREE.Object3D.add: object can't be added as a child of itself."
  else
    h ← getHeap;
    let h1 := match parentOf h !! object with
              | Some p => Object3D_remove p object h
              | None => h
              end in
    setHeap {| parentOf := <[object := this]> (parentOf h1);
               childrenOf := <[this := kids h1 this ++ [object]]> (childrenOf h1);
               positionOf := positionOf h1; lookedAt := lookedAt h1 |}.

(** The kind of node that [parseModels] built for a model. *)
Inductive ModelKind : Type :=
| KBone | KObject3D | KPerspectiveCamera | KOrthographicCamera
| KPointLight | KDirectionalLight | KSpotLight
| KMesh | KSkinnedMesh | KLine | KGroup.

(** [model.target !== undefined]: directional lights and spot lights have a target. *)
Definition hasTarget (k : ModelKind) : bool :=
  match k with
  | KDirectionalLight | KSpotLight => true
  | _ => false
  end.

Section FBXTreeParser.

Variable fbxTree_Objects : FbxObjects.
Variable connections : gmap Z Relationships.

(** [this.manager.getHandler('.tga') !== null] *)
Variable tgaHandler : bool.

(** ** Textures ([parseTextures], [parseTexture], [loadTexture]) *)

(** The heap of the texture pass is [this.textureLoader.path]. *)
Definition loadTexture (textureNode : TextureNode) (images : gmap Z string)
  : M (World (option string)) Texture :=
  currentPath ← getHeap;
  rel ← prop "children" (connections !! tn_id textureNode);
  fileName ← match children rel with
             | child :: _ =>
                 match images !! ID child with
                 | Some f =>
                     (if startsWith "blob:" f || startsWith "data:" f
                      then setHeap None else mret tt);;
                     mret (Some f)
                 | None => mret None
                 end
             | [] => mret None
             end;
  name ← prop "slice" (FileName textureNode);
  let extension := toLowerCase (sliceLast 3 name) in
  texture ← (if decide (extension = "tga") then
               if tgaHandler then mret (newTexture (TgaHandler_load fileName))
               else
                 warn ("FBXLoader: TGA loader not found, creating placeholder texture for "
                       +:+ default "undefined" (RelativeFilename textureNode));;
                 mret (newTexture Placeholder)
             else if decide (extension = "psd") then
               warn ("FBXLoader: PSD textures are not supported, creating placeholder texture for "
                     +:+ default "undefined" (RelativeFilename textureNode));;
               mret (newTexture Placeholder)
             else
               path ← getHeap;
               mret (newTexture (TextureLoader_load path fileName)));
  setHeap currentPath;;
  mret texture.

Definition wrapOf (value : Z) : Wrapping :=
  if decide (value = 0) then RepeatWrapping else ClampToEdgeWrapping.

Definition parseTexture (textureNode : TextureNode) (images : gmap Z string)
  : M (World (option string)) Texture :=
  texture ← loadTexture textureNode images;
  let valueU := match WrapModeU textureNode with Some value => value | None => 0 end in
  let valueV := match WrapModeV textureNode with Some value => value | None => 0 end in
  mret {| tex_source := tex_source texture;
          tex_ID := Some (tn_id textureNode);
          tex_name := tn_attrName textureNode;
          wrapS := wrapOf valueU;
          wrapT := wrapOf valueV;
          tex_repeat := match Scaling textureNode with
                        | Some values => (values !! 0%nat, values !! 1%nat)
                        | None => tex_repeat texture
                        end |}.

Definition parseTextures (images : gmap Z string) : M (World (option string)) (gmap Z Texture) :=
  match Texture_nodes fbxTree_Objects with
  | Some textureNodes =>
      foldM (λ textureMap '(nodeID, textureNode),
               texture ← parseTexture textureNode images;
               mret (<[nodeID := texture]> textureMap)) ∅ textureNodes
  | None => mret ∅
  end.

(** ** Materials ([parseMaterials], [parseMaterial]) *)

Inductive MaterialKind : Type := MeshPhongMaterial | MeshLambertMaterial.

Inductive ParamValue : Type :=
| PNumber (x : float)
| PHex (rgb : Z)
| PColor (rgb : list float)
| PBool (b : bool)
| PTexture (t : option Texture).

(** The property bag handed to [material.setValues]. *)
Definition Parameters : Type := list (string * ParamValue).

Record Material : Type := mkMaterial {
  mat_kind : MaterialKind;
  mat_parameters : Parameters;
  mat_name : option string;
  vertexColors : bool;
  skinning : bool
}.

(** Materials are shared by reference: the registry and the meshes hold
    indices into the list of the materials created so far. *)
Definition newMaterial (m : Material) : M (World (list Material)) nat :=
  h ← getHeap; setHeap (h ++ [m]);; mret (length h).

(** [parseParameters] maps a material node to its property bag; the mapping of
    the shading parameters is a collaborator of the reconstruction. *)
Variable parseParameters :
  MaterialNode → gmap Z Texture → Z → M (World (list Material)) Parameters.

Definition shadingName (t : ShadingModel) : string :=
  match t with ShadingName s => s | ShadingProperty value => value end.

(** [None] is the [null] that [parseMaterial] returns for an unused material. *)
Definition parseMaterial (materialNode : MaterialNode) (textureMap : gmap Z Texture)
  : M (World (list Material)) (option nat) :=
  let ID := mn_id materialNode in
  let name := mn_attrName materialNode in
  let type := shadingName <$> mn_ShadingModel materialNode in
  match connections !! ID with
  | None => mret None
  | Some _ =>
      parameters ← parseParameters materialNode textureMap ID;
      t ← prop "toLowerCase" type;
      kind ← (if decide (toLowerCase t = "phong") then mret MeshPhongMaterial
              else if decide (toLowerCase t = "lambert") then mret MeshLambertMaterial
              else
                warn ("THREE.FBXLoader: unknown material type "
                      +:+ t +:+ ". Defaulting to MeshPhongMaterial.");;
                mret MeshPhongMaterial);
      material ← newMaterial {| mat_kind := kind; mat_parameters := parameters;
                                mat_name := name; vertexColors := false; skinning := false |};
      mret (Some material)
  end.

(** The body of [for (let nodeID in materialNodes)] in [parseMaterials]. *)
Definition registerMaterial (textureMap : gmap Z Texture) (materialMap : gmap Z nat)
    (entry : Z * MaterialNode) : M (World (list Material)) (gmap Z nat) :=
  let '(nodeID, materialNode) := entry in
  material ← parseMaterial materialNode textureMap;
  mret (match material with
        | Some m => <[nodeID := m]> materialMap
        | None => materialMap
        end).

Definition parseMaterials (textureMap : gmap Z Texture)
  : M (World (list Material)) (gmap Z nat) :=
  match Material_nodes fbxTree_Objects with
  | Some materialNodes => foldM (registerMaterial textureMap) ∅ materialNodes
  | None => mret ∅
  end.

(** ** Deformers ([parseDeformers], [parseSkeleton], [parseMorphTargets]) *)

Record RawBone : Type := mkRawBone {
  rb_ID : Z;
  rb_indices : list float;
  rb_weights : list float;
  transformLink : Matrix4
}.

(** [bones] holds references to the joints built later by [buildSkeleton]. *)
Record Skeleton : Type := mkSkeleton {
  rawBones : list RawBone;
  bones : list (option nat);
  sk_ID : option Z;
  geometryID : option Z
}.

Record RawMorphTarget : Type := mkRawMorphTarget {
  mt_name : option string;
  initialWeight : option float;
  mt_id : Z;
  fullWeights : list float;
  geoID : option Z
}.

(** [rawTargets] is [None] when [parseMorphTargets] returned [undefined]. *)
Record MorphTarget : Type := mkMorphTarget {
  morph_id : Z;
  rawTargets : option (list RawMorphTarget)
}.

Record Deformers : Type := mkDeformers {
  skeletons : list (Z * Skeleton);
  morphTargets : list (Z * MorphTarget)
}.

(** The callback of [relationships.children.forEach] in [parseSkeleton]. *)
Definition parseBone (deformerNodes : list (Z * DeformerNode))
    (rawBones : list RawBone) (child : Edge) : M (World unit) (list RawBone) :=
  boneNode ← prop "attrType" (lookupNode (ID child) deformerNodes);
  if decide (dn_attrType boneNode = Some "Cluster") then
    link ← prop "a" (TransformLink boneNode);
    let rawBone := {| rb_ID := ID child; rb_indices := []; rb_weights := [];
                      transformLink := Matrix4_fromArray link |} in
    rawBone ← match Indexes boneNode with
              | Some indexes =>
                  w ← prop "a" (Weights boneNode);
                  mret {| rb_ID := rb_ID rawBone; rb_indices := indexes; rb_weights := w;
                          transformLink := transformLink rawBone |}
              | None => mret rawBone
              end;
    mret (rawBones ++ [rawBone])
  else mret rawBones.

Definition parseSkeleton (relationships : Relationships)
    (deformerNodes : list (Z * DeformerNode)) : M (World unit) Skeleton :=
  rawBones ← foldM (parseBone deformerNodes) [] (children relationships);
  mret {| rawBones := rawBones; bones := []; sk_ID := None; geometryID := None |}.

(** The [for] loop of [parseMorphTargets]; its bare [return] leaves the
    function with [undefined]. *)
Fixpoint parseMorphTargets_loop (deformerNodes : list (Z * DeformerNode))
    (rawMorphTargets : list RawMorphTarget) (rest : list Edge)
  : M (World unit) (option (list RawMorphTarget)) :=
  match rest with
  | [] => mret (Some rawMorphTargets)
  | child :: rest' =>
      morphTargetNode ← prop "attrName" (lookupNode (ID child) deformerNodes);
      weights ← prop "a" (FullWeights morphTargetNode);
      let rawMorphTarget := {| mt_name := dn_attrName morphTargetNode;
                               initialWeight := DeformPercent morphTargetNode;
                               mt_id := dn_id morphTargetNode;
                               fullWeights := weights;
                               geoID := None |} in
      if decide (dn_attrType morphTargetNode = Some "BlendShapeChannel") then
        rel ← prop "children" (connections !! ID child);
        geo ← prop "ID" (head (filter (λ c, relationship c = None) (children rel)));
        parseMorphTargets_loop deformerNodes
          (rawMorphTargets ++ [{| mt_name := mt_name rawMorphTarget;
                                  initialWeight := initialWeight rawMorphTarget;
                                  mt_id := mt_id rawMorphTarget;
                                  fullWeights := fullWeights rawMorphTarget;
                                  geoID := Some (ID geo) |}]) rest'
      else mret None
  end.

Definition parseMorphTargets (relationships : Relationships)
    (deformerNodes : list (Z * DeformerNode))
  : M (World unit) (option (list RawMorphTarget)) :=
  parseMorphTargets_loop deformerNodes [] (children relationships).

(** The body of [for (let nodeID in DeformerNodes)] in [parseDeformers]. *)
Definition parseDeformer (DeformerNodes : list (Z * DeformerNode))
    (acc : Deformers) (entry : Z * DeformerNode) : M (World unit) Deformers :=
  let '(nodeID, deformerNode) := entry in
  let relationships := connections !! nodeID in
  if decide (dn_attrType deformerNode = Some "Skin") then
    rel ← prop "children" relationships;
    skeleton ← parseSkeleton rel DeformerNodes;
    (if decide (1 < length (parents rel))%nat
     then warn "THREE.FBXLoader: skeleton attached to more than one geometry is not supported."
     else mret tt);;
    parent ← prop "ID" (head (parents rel));
    mret {| skeletons := setNode nodeID
                           {| rawBones := rawBones skeleton; bones := bones skeleton;
                              sk_ID := Some nodeID; geometryID := Some (ID parent) |}
                           (skeletons acc);
            morphTargets := morphTargets acc |}
  else if decide (dn_attrType deformerNode = Some "BlendShape") then
    rel ← prop "children" relationships;
    targets ← parseMorphTargets rel DeformerNodes;
    (if decide (1 < length (parents rel))%nat
     then warn "THREE.FBXLoader: morph target attached to more than one geometry is not supported."
     else mret tt);;
    mret {| skeletons := skeletons acc;
            morphTargets := setNode nodeID {| morph_id := nodeID; rawTargets := targets |}
                              (morphTargets acc) |}
  else mret acc.

Definition parseDeformers : M (World unit) Deformers :=
  match Deformer_nodes fbxTree_Objects with
  | Some DeformerNodes =>
      foldM (parseDeformer DeformerNodes)
            {| skeletons := []; morphTargets := [] |} DeformerNodes
  | None => mret {| skeletons := []; morphTargets := [] |}
  end.

(** The children of a deformer that resolve to a node of the given type, in
    connection order. *)
Definition childrenOfType (type : string) (deformerNodes : list (Z * DeformerNode))
    (relationships : Relationships) : list Edge :=
  filter (λ child, lookupNode (ID child) deformerNodes ≫= dn_attrType = Some type)
         (children relationships).

(** A child that [parseSkeleton] reads without raising: it resolves to a
    deformer node, and a Cluster has its [TransformLink], and its [Weights] if
    it has [Indexes]. *)
Definition boneReadable (deformerNodes : list (Z * DeformerNode)) (child : Edge) : Prop :=
  ∃ node, lookupNode (ID child) deformerNodes = Some node
          ∧ (dn_attrType node = Some "Cluster" →
             is_Some (TransformLink node)
             ∧ (is_Some (Indexes node) → is_Some (Weights node))).

(** A BlendShapeChannel that [parseMorphTargets] reads without raising: it
    has [FullWeights], and its connection entry has a child without label. *)
Definition channelReadable (deformerNodes : list (Z * DeformerNode)) (child : Edge) : Prop :=
  ∃ node rel,
    lookupNode (ID child) deformerNodes = Some node
    ∧ dn_attrType node = Some "BlendShapeChannel"
    ∧ is_Some (FullWeights node)
    ∧ connections !! ID child = Some rel
    ∧ is_Some (head (filter (λ c, relationship c = None) (children rel))).

(** A computation that raises nothing but [TypeError]. *)
Definition onlyTypeError {S A} (c : M S A) : Prop :=
  ∀ s e s', c s = (Throw e, s') → ∃ msg, e = TypeError msg.

(** ** Models ([buildSkeleton], [createCamera], [createMesh]) *)

(** [PropertyBinding.sanitizeNodeName] of three.js. *)
Variable sanitizeNodeName : string → string.

(** [window.innerWidth] and [window.innerHeight]. *)
Variable innerWidth innerHeight : float.

(** [name ? PropertyBinding.sanitizeNodeName(name) : ''] *)
Definition nodeName (name : option string) : string :=
  match name with
  | Some n => if decide (n = "") then "" else sanitizeNodeName n
  | None => ""
  end.

(** The joints built so far and the local variable [bone]. *)
Record Joints : Type := mkJoints { j_heap : list Bone; j_bone : option nat }.

(** One raw bone whose ID is the parent's: a new joint takes the place of
    [bone], is stored in [skeleton.bones[i]], and adopts the previous joint. *)
Definition newJoint (id : Z) (name : option string) (rawBone : RawBone) (j : Joints) : Joints :=
  let subBone := j_bone j in
  let bone := length (j_heap j) in
  let h := j_heap j ++ [{| bone_name := nodeName name; bone_ID := id;
                           matrixWorld := transformLink rawBone;
                           bone_parent := None; bone_children := [] |}] in
  {| j_heap := match subBone with Some sb => Bone_add bone sb h | None => h end;
     j_bone := Some bone |}.

(** The callback of [skeleton.rawBones.forEach((rawBone, i) => ...)]. *)
Definition matchRawBone (id : Z) (name : option string) (parent : Edge)
    (i : nat) (rawBone : RawBone) (st : Joints * list (option nat))
  : Joints * list (option nat) :=
  if decide (rb_ID rawBone = ID parent) then
    (newJoint id name rawBone st.1, arraySet i (length (j_heap st.1)) st.2)
  else st.

Fixpoint forEachRawBone (id : Z) (name : option string) (parent : Edge)
    (i : nat) (rest : list RawBone) (st : Joints * list (option nat))
  : Joints * list (option nat) :=
  match rest with
  | [] => st
  | rawBone :: rest' =>
      forEachRawBone id name parent (S i) rest' (matchRawBone id name parent i rawBone st)
  end.

(** [for (let ID in skeletons)]: each skeleton's [bones] array is updated in place. *)
Fixpoint forEachSkeleton (id : Z) (name : option string) (parent : Edge)
    (sks : list (Z * Skeleton)) (j : Joints) : Joints * list (Z * Skeleton) :=
  match sks with
  | [] => (j, [])
  | (k, skeleton) :: rest =>
      let st := forEachRawBone id name parent 0 (rawBones skeleton) (j, bones skeleton) in
      let r := forEachSkeleton id name parent rest st.1 in
      (r.1, (k, {| rawBones := rawBones skeleton; bones := st.2;
                   sk_ID := sk_ID skeleton; geometryID := geometryID skeleton |}) :: r.2)
  end.

(** Returns [bone] ([None] is [null]), the heap of joints and the skeletons. *)
Definition buildSkeleton (relationships : Relationships) (skeletons : list (Z * Skeleton))
    (id : Z) (name : option string) (h : list Bone)
  : option nat * list Bone * list (Z * Skeleton) :=
  let r := foldl (λ st parent, forEachSkeleton id name parent st.2 st.1)
                 ({| j_heap := h; j_bone := None |}, skeletons)
                 (parents relationships) in
  (j_bone r.1, j_heap r.1, r.2).

(** The raw bones that [buildSkeleton] matches, in the order of its three
    nested loops: by parent connection, by skeleton, by raw bone. *)
Definition matchedRawBones (relationships : Relationships)
    (skeletons : list (Z * Skeleton)) : list RawBone :=
  parent ← parents relationships;
  skeleton ← skeletons;
  filter (λ rawBone, rb_ID rawBone = ID parent) (rawBones skeleton.2).

(** [x = e] where [x] was declared with [const]: the right-hand side is
    evaluated and the assignment raises. *)
Definition assignConst {S} (name : string) (rhs : float) : M S unit :=
  throw (TypeError "Assignment to constant variable.").

(** The callback of [relationships.children.forEach] in [createCamera]. *)
Definition findAttribute (cameraAttribute : option NodeAttribute) (child : Edge)
  : M (World unit) (option NodeAttribute) :=
  attributes ← prop "NodeAttribute" (NodeAttribute_nodes fbxTree_Objects);
  mret (match lookupNode (ID child) attributes with
        | Some attr => Some attr
        | None => cameraAttribute
        end).

Definition createCamera (relationships : Relationships) : M (World unit) Camera :=
  cameraAttribute ← foldM findAttribute None (children relationships);
  match cameraAttribute with
  | None => mret Object3D_new
  | Some cameraAttribute =>
      let type := if decide (CameraProjectionType cameraAttribute = Some 1) then 1 else 0 in
      let nearClippingPlane := 1%float in
      match NearPlane cameraAttribute with
      | Some value => assignConst "nearClippingPlane" (value / 1000)%float
      | None => mret tt
      end;;
      let farClippingPlane := 1000%float in
      match FarPlane cameraAttribute with
      | Some value => assignConst "farClippingPlane" (value / 1000)%float
      | None => mret tt
      end;;
      let size := match AspectWidth cameraAttribute, AspectHeight cameraAttribute with
                  | Some w, Some h => (w, h)
                  | _, _ => (innerWidth, innerHeight)
                  end in
      let width := size.1 in
      let height := size.2 in
      let aspect := (width / height)%float in
      let fov := match FieldOfView cameraAttribute with Some value => value | None => 45%float end in
      let focalLength := FocalLength cameraAttribute in
      match type with
      | 0 => mret (PerspectiveCamera fov aspect nearClippingPlane farClippingPlane focalLength)
      | 1 => mret (OrthographicCamera (- width / 2)%float (width / 2)%float
                     (height / 2)%float (- height / 2)%float
                     nearClippingPlane farClippingPlane)
      | _ => warn "THREE.FBXLoader: Unknown camera type.";; mret Object3D_new
      end
  end.

(** The [NodeAttribute] that [createCamera] resolves: the last child that
    names one. *)
Definition cameraAttributeOf (attributes : list (Z * NodeAttribute)) (cs : list Edge)
  : option NodeAttribute :=
  foldl (λ cameraAttribute child,
           match lookupNode (ID child) attributes with
           | Some attr => Some attr
           | None => cameraAttribute
           end) None cs.

Definition setVertexColors (m : nat) : M (World (list Material)) unit :=
  h ← getHeap;
  setHeap (alter (λ x, mkMaterial (mat_kind x) (mat_parameters x) (mat_name x) true (skinning x)) m h).

Definition setSkinning (m : nat) : M (World (list Material)) unit :=
  h ← getHeap;
  setHeap (alter (λ x, mkMaterial (mat_kind x) (mat_parameters x) (mat_name x) (vertexColors x) true) m h).

(** [new MeshPhongMaterial({ color: 0xcccccc })] *)
Definition defaultMaterial : Material :=
  {| mat_kind := MeshPhongMaterial; mat_parameters := [("color", PHex 0xcccccc)];
     mat_name := None; vertexColors := false; skinning := false |}.

(** The geometry and the materials that [relationships.children.forEach] collects. *)
Definition meshGeometry (geometryMap : gmap Z Geometry) (cs : list Edge) : option (Z * Geometry) :=
  foldl (λ geometry child,
           match geometryMap !! ID child with
           | Some g => Some (ID child, g)
           | None => geometry
           end) None cs.

Definition meshMaterials (materialMap : gmap Z nat) (cs : list Edge) : list nat :=
  foldl (λ materials child,
           match materialMap !! ID child with
           | Some m => materials ++ [m]
           | None => materials
           end) [] cs.

(** The children of a model that name a material of the registry, in
    connection order. *)
Definition materialChildren (materialMap : gmap Z nat) (relationships : Relationships)
  : list Edge :=
  filter (λ child, is_Some (materialMap !! ID child)) (children relationships).

Definition createMesh (relationships : Relationships)
    (geometryMap : gmap Z Geometry) (materialMap : gmap Z nat)
  : M (World (list Material)) Mesh :=
  let geometry := meshGeometry geometryMap (children relationships) in
  let materials := meshMaterials materialMap (children relationships) in
  chosen ← (if decide (1 < length materials)%nat then mret (MaterialList materials, materials)
            else match materials with
                 | m :: _ => mret (SingleMaterial m, materials)
                 | [] => m ← newMaterial defaultMaterial;
                         mret (SingleMaterial m, materials ++ [m])
                 end);
  let material := chosen.1 in
  let materials := chosen.2 in
  g ← prop "attributes" geometry;
  (if geo_color g.2 then forEach setVertexColors materials else mret tt);;
  if FBX_Deformer g.2 then
    forEach setSkinning materials;;
    mret {| isSkinnedMesh := true; mesh_geometry := g.1; mesh_material := material |}
  else
    mret {| isSkinnedMesh := false; mesh_geometry := g.1; mesh_material := material |}.

(** ** Hierarchy assembly (the [modelMap.forEach] of [parseScene]) *)

Definition setLookAtProperties (id : Z) (kind : ModelKind) (modelNode : option ModelNode)
  : M (World Hierarchy) unit :=
  node ← prop "LookAtProperty" modelNode;
  if LookAtProperty node then
    rel ← prop "children" (connections !! id);
    forEach (λ child,
               if decide (relationship child = Some "LookAtProperty") then
                 models ← prop "Model" (Model_nodes fbxTree_Objects);
                 lookAtTarget ← prop "Lcl_Translation" (lookupNode (ID child) models);
                 match Lcl_Translation lookAtTarget with
                 | Some pos =>
                     if hasTarget kind then
                       h ← getHeap;
                       setHeap {| parentOf := parentOf h; childrenOf := childrenOf h;
                                  positionOf := <[TargetObj id := pos]> (positionOf h);
                                  lookedAt := lookedAt h |};;
                       Object3D_add SceneGraph (TargetObj id)
                     else
                       h ← getHeap;
                       setHeap {| parentOf := parentOf h; childrenOf := childrenOf h;
                                  positionOf := positionOf h;
                                  lookedAt := <[ModelObj id := pos]> (lookedAt h) |}
                 | None => mret tt
                 end
               else mret tt)
            (children rel)
  else mret tt.

(** The inner [parentConnections.forEach]. *)
Definition attachToParents (modelMap : list (Z * ModelKind)) (id : Z) (ps : list Edge)
  : M (World Hierarchy) unit :=
  forEach (λ connection,
             match lookupNode (ID connection) modelMap with
             | Some _ => Object3D_add (ModelObj (ID connection)) (ModelObj id)
             | None => mret tt
             end) ps.

(** The callback of [modelMap.forEach]. *)
Definition attachModel (modelMap : list (Z * ModelKind)) (model : Z * ModelKind)
  : M (World Hierarchy) unit :=
  modelNodes ← prop "Model" (Model_nodes fbxTree_Objects);
  setLookAtProperties model.1 model.2 (lookupNode model.1 modelNodes);;
  rel ← prop "parents" (connections !! model.1);
  attachToParents modelMap model.1 (parents rel);;
  h ← getHeap;
  match parentOf h !! ModelObj model.1 with
  | None => Object3D_add SceneGraph (ModelObj model.1)
  | Some _ => mret tt
  end.

Definition assembleHierarchy (modelMap : list (Z * ModelKind)) : M (World Hierarchy) unit :=
  forEach (attachModel modelMap) modelMap.

(** The parent that the assembly leaves a model with: the last connection, in
    connection order, that names another constructed model. *)
Definition lastResolvedParent (modelMap : list (Z * ModelKind)) (id : Z) (ps : list Edge)
  : option Z :=
  last (filter (λ p, p ≠ id ∧ is_Some (lookupNode p modelMap)) (ID <$> ps)).

(** The parent that the specification names: the first connection that
    resolves to a constructed model. *)
Definition firstResolvedParent (modelMap : list (Z * ModelKind)) (ps : list Edge)
  : option Z :=
  head (filter (λ p, is_Some (lookupNode p modelMap)) (ID <$> ps)).

(** A model that [setLookAtProperties] reads without raising: it has a model
    node, and if that node has a look-at property the model has a connection
    entry whose look-at children are model nodes. *)
Definition lookAtReadable (modelNodes : list (Z * ModelNode)) (id : Z) : Prop :=
  ∃ node,
    lookupNode id modelNodes = Some node
    ∧ (LookAtProperty node = true →
       ∃ rel, connections !! id = Some rel
              ∧ Forall (λ child, relationship child = Some "LookAtProperty" →
                                 is_Some (lookupNode (ID child) modelNodes))
                       (children rel)).

(** [child] is attached to [parent]: it is the parent of the child and the
    child is among its children. *)
Definition attached (h : Hierarchy) (child parent : Obj) : Prop :=
  parentOf h !! child = Some parent ∧ child ∈ kids h parent.

(** The links of [o] that a step keeps: its parent, and its place among the
    children of whoever had it. *)
Definition sameLink (h h' : Hierarchy) (o : Obj) : Prop :=
  parentOf h' !! o = parentOf h !! o ∧ ∀ p, o ∈ kids h p → o ∈ kids h' p.

(** A step that changes the links of the objects in [moved] only. *)
Definition frame (moved : Obj → Prop) (h h' : Hierarchy) : Prop :=
  ∀ o, ¬ moved o → sameLink h h' o.

(** A computation that returns normally, its heaps related by [R]. *)
Definition steps (R : Hierarchy → Hierarchy → Prop) (c : M (World Hierarchy) unit) : Prop :=
  ∀ w, ∃ w', c w = (Normal tt, w') ∧ R (heap w) (heap w').

(** The node that hierarchy assembly attaches a model to. *)
Definition assembledParent (modelMap : list (Z * ModelKind)) (id : Z) (rel : Relationships)
  : Obj :=
  match lastResolvedParent modelMap id (parents rel) with
  | Some p => ModelObj p
  | None => SceneGraph
  end.

(** The objects that belong to the models of a list: each model and its target. *)
Definition ownedBy (models : list (Z * ModelKind)) (o : Obj) : Prop :=
  ∃ id, (o = ModelObj id ∨ o = TargetObj id) ∧ id ∈ models.*1.

(** ** The loader ([FBXLoader.parse])

    The format sniffers and the two tree decoders are collaborators of
    [parse]; [Scene] is what the tree parser returns. *)

Variable Buffer : Type.
Variable FbxTree : Type.
Variable Scene : Type.
Variable isFbxFormatBinary : Buffer → bool.
Variable convertArrayBufferToString : Buffer → string.
Variable isFbxFormatASCII : string → bool.
Variable getFbxVersion : string → Completion Z.
Variable BinaryParser_parse : Buffer → Completion FbxTree.
Variable TextParser_parse : string → Completion FbxTree.
Variable FBXTreeParser_parse : FbxTree → Completion Scene.

Definition andThen {A B} (c : Completion A) (k : A → Completion B) : Completion B :=
  match c with
  | Normal a => k a
  | Throw e => Throw e
  end.

Definition FBXLoader_parse (FBXBuffer : Buffer) : Completion Scene :=
  andThen
    (if isFbxFormatBinary FBXBuffer then BinaryParser_parse FBXBuffer
     else
       let FBXText := convertArrayBufferToString FBXBuffer in
       if negb (isFbxFormatASCII FBXText) then
         Throw (Error "THREE.FBXLoader: Unknown format.")
       else
         andThen (getFbxVersion FBXText) (λ version,
           if decide (version < 7000) then
             andThen (getFbxVersion FBXText) (λ version',
               Throw (Error ("THREE.FBXLoader: FBX version not supported, FileVersion: "
                             +:+ pretty version')))
           else TextParser_parse FBXText))
    FBXTreeParser_parse.

(** * Further passes and helpers *)

(** ** The body of the loop of [parseTextures] *)

(** The body of [for (let nodeID in textureNodes)] in [parseTextures]. *)
Definition registerTexture (images : gmap Z string) (textureMap : gmap Z Texture)
    (entry : Z * TextureNode) : M (World (option string)) (gmap Z Texture) :=
  let '(nodeID, textureNode) := entry in
  texture ← parseTexture textureNode images;
  mret (<[nodeID := texture]> textureMap).

(** ** Images ([parseImages], [parseImage]) *)

(** [videoNode.Content]: base64 text in an ASCII file, bytes in a binary one. *)
Inductive VideoContent : Type :=
| ContentString (s : string)
| ContentArrayBuffer (bytes : list Z)
| ContentOther.

Record VideoNode : Type := mkVideoNode {
  vn_RelativeFilename : option string;
  vn_Filename : option string;
  vn_Content : option VideoContent
}.

(** [fbxTree.Objects.Video] *)
Variable fbxTree_Video : option (list (Z * VideoNode)).

(** [window.URL.createObjectURL(new Blob([new Uint8Array(content)], { type }))] *)
Variable createObjectURL : option VideoContent → string → string.

(** [a || b] on strings that may be [undefined]: the empty string is falsy. *)
Definition orElse (a b : option string) : option string :=
  match a with
  | Some s => if decide (s = "") then b else Some s
  | None => b
  end.

(** The text after the last occurrence of [c], the whole text if there is
    none: [s.slice(s.lastIndexOf(c) + 1)] and [s.split(c).pop()]. *)
Definition afterLast (c : ascii) (s : string) : string :=
  string_of_list_ascii
    (foldl (λ acc x, if decide (x = c) then [] else acc ++ [x]) []
           (list_ascii_of_string s)).

(** The double quote, as a string. *)
Definition quote : string := String (ascii_of_nat 34) EmptyString.

(** The [type] that the [switch] of [parseImage] chooses; [None] is its
    [default] case. *)
Definition imageTypeOf (extension : string) : option string :=
  if decide (extension = "bmp") then Some "image/bmp"
  else if decide (extension = "jpg") then Some "image/jpeg"
  else if decide (extension = "jpeg") then Some "image/jpeg"
  else if decide (extension = "png") then Some "image/png"
  else if decide (extension = "tif") then Some "image/tiff"
  else if decide (extension = "tga") then Some "image/tga"
  else None.

(** Returns [None] for [undefined]; [console.warn(a, b)] logs [a], a space
    and [b]. *)
Definition parseImage (videoNode : VideoNode) : M (World unit) (option string) :=
  let content := vn_Content videoNode in
  fileName ← prop "slice" (orElse (vn_RelativeFilename videoNode) (vn_Filename videoNode));
  let extension := toLowerCase (afterLast "." fileName) in
  match imageTypeOf extension with
  | Some type =>
      (if decide (extension = "tga") then
         if tgaHandler then mret tt
         else warn ("FBXLoader: TGA loader not found, skipping " +:+ " " +:+ fileName)
       else mret tt);;
      match content with
      | Some (ContentString s) => mret (Some ("data:" +:+ type +:+ ";base64," +:+ s))
      | _ => mret (Some (createObjectURL content type))
      end
  | None =>
      warn ("FBXLoader: Image type " +:+ quote +:+ extension +:+ quote
            +:+ " is not supported.");;
      mret None
  end.

(** [Content instanceof ArrayBuffer && Content.byteLength > 0], or
    [typeof Content === 'string' && Content !== '']. *)
Definition contentPresent (c : VideoContent) : bool :=
  match c with
  | ContentString s => bool_decide (s ≠ "")
  | ContentArrayBuffer bytes => bool_decide (bytes ≠ [])
  | ContentOther => false
  end.

(** The property key that a file name, or [undefined], is used as. *)
Definition keyOf (fileName : option string) : string := default "undefined" fileName.

(** [videoNode.RelativeFilename || videoNode.Filename] *)
Definition videoFileName (videoNode : VideoNode) : option string :=
  orElse (vn_RelativeFilename videoNode) (vn_Filename videoNode).

(** A video whose [Content] is absent or empty: [parseImage] is not called. *)
Definition withoutContent (videoNode : VideoNode) : Prop :=
  match vn_Content videoNode with
  | Some c => contentPresent c = false
  | None => True
  end.

(** The names that every object inherits from [Object.prototype]:
    [blobs[name]] is defined for them although [blobs] was given no such
    property. *)
Definition inheritedNames : list string :=
  [ "constructor"; "hasOwnProperty"; "isPrototypeOf"; "propertyIsEnumerable";
    "toLocaleString"; "toString"; "valueOf"; "__proto__"; "__defineGetter__";
    "__defineSetter__"; "__lookupGetter__"; "__lookupSetter__" ].

(** What [images[id]] ends as: a URL or file name, or the inherited property
    that [blobs] answers with for one of the names above. *)
Inductive ImageValue : Type :=
| ImageURL (url : string)
| InheritedProperty (name : string).

(** [blobs[key] = image], where [image] may be [undefined]; the assignment
    of a value that is no object to [__proto__] is ignored. *)
Definition setBlob (key : string) (image : option string)
    (blobs : gmap string (option string)) : gmap string (option string) :=
  if decide (key = "__proto__") then blobs else <[key := image]> blobs.

(** [blobs[key]]; [None] is [undefined]. *)
Definition getBlob (blobs : gmap string (option string)) (key : string)
  : option ImageValue :=
  match blobs !! key with
  | Some image => ImageURL <$> image
  | None => if decide (key ∈ inheritedNames) then Some (InheritedProperty key) else None
  end.

(** What the second loop of [parseImages] stores for a file name. *)
Definition resolvedName (blobs : gmap string (option string)) (fileName : option string)
  : option ImageValue :=
  match getBlob blobs (keyOf fileName) with
  | Some blob => Some blob
  | None => (λ name, ImageURL (afterLast "\" name)) <$> fileName
  end.

(** The body of [for (let nodeID in videoNodes)]: the state is the pair of
    [images] and [blobs]. *)
Definition parseVideo (st : list (Z * option string) * gmap string (option string))
    (entry : Z * VideoNode)
  : M (World unit) (list (Z * option string) * gmap string (option string)) :=
  let '(nodeID, videoNode) := entry in
  let fileName := orElse (vn_RelativeFilename videoNode) (vn_Filename videoNode) in
  let images := setNode nodeID fileName st.1 in
  match vn_Content videoNode with
  | Some c =>
      if contentPresent c then
        image ← parseImage videoNode;
        mret (images, setBlob (keyOf fileName) image st.2)
      else mret (images, st.2)
  | None => mret (images, st.2)
  end.

(** The body of [for (let id in images)]. *)
Definition resolveImage (blobs : gmap string (option string))
    (resolved : list (Z * ImageValue)) (entry : Z * option string)
  : M (World unit) (list (Z * ImageValue)) :=
  let '(id, filename) := entry in
  match getBlob blobs (keyOf filename) with
  | Some blob => mret (resolved ++ [(id, blob)])
  | None =>
      name ← prop "split" filename;
      mret (resolved ++ [(id, ImageURL (afterLast "\" name))])
  end.

Definition parseImages : M (World unit) (gmap Z ImageValue) :=
  st ← match fbxTree_Video with
       | Some videoNodes => foldM parseVideo ([], ∅) videoNodes
       | None => mret ([], ∅)
       end;
  resolved ← foldM (resolveImage st.2) [] st.1;
  mret (list_to_map resolved).

(** What [parseDeformers] records for a Skin deformer stored under [k]. *)
Definition skeletonRecorded (entry : Z * Skeleton) : Prop :=
  sk_ID entry.2 = Some entry.1
  ∧ ∃ rel p, connections !! entry.1 = Some rel
             ∧ head (parents rel) = Some p
             ∧ geometryID entry.2 = Some (ID p).

(** The joints that [buildSkeleton] appends for the matched raw bones: the
    joint at [base], then the one at [S base], ...; each joint has the one
    before it as its only child and the one after it as its parent. *)
Fixpoint jointChain (id : Z) (name : string) (base : nat) (prev : option nat)
    (matched : list RawBone) : list Bone :=
  match matched with
  | [] => []
  | rawBone :: rest =>
      {| bone_name := name; bone_ID := id; matrixWorld := transformLink rawBone;
         bone_parent := match rest with [] => None | _ :: _ => Some (S base) end;
         bone_children := match prev with Some p => [p] | None => [] end |}
      :: jointChain id name (S base) (Some base) rest
  end.

(** ** Curves ([createCurve]) *)

(** A [Line] with [new LineBasicMaterial({ color: 0x3300ff, linewidth: 1 })];
    its geometry is named by its ID, [None] is [null]. *)
Record Line : Type := mkLine {
  line_geometry : option Z;
  line_color : Z;
  line_linewidth : Z
}.

Definition createCurve (relationships : Relationships) (geometryMap : gmap Z Geometry)
  : Line :=
  let geometry := foldl (λ geo child,
                           match geometryMap !! ID child with
                           | Some g => Some (ID child)
                           | None => geo
                           end) None (children relationships) in
  {| line_geometry := geometry; line_color := 0x3300ff; line_linewidth := 1 |}.

(** ** Invariants of the hierarchy *)

(** The parent links and the children lists agree, and no children list
    holds an object twice. *)
Definition consistent (h : Hierarchy) : Prop :=
  (∀ o p, o ∈ kids h p ↔ parentOf h !! o = Some p) ∧ (∀ p, NoDup (kids h p)).

(** A computation that keeps a property of the hierarchy, however it ends. *)
Definition keeps {A} (P : Hierarchy → Prop) (c : M (World Hierarchy) A) : Prop :=
  ∀ w r w', c w = (r, w') → P (heap w) → P (heap w').

(** ** Lights ([createLight]) *)

(** The fields of a light's [NodeAttribute]; a present field holds its [value]. *)
Record LightAttribute : Type := mkLightAttribute {
  LightType : option Z;
  la_Color : option (list float);
  Intensity : option float;
  CastLightOnObject : option Z;
  FarAttenuationEnd : option float;
  EnableFarAttenuation : option Z;
  InnerAngle : option float;
  OuterAngle : option float;
  CastShadows : option Z
}.

(** [fbxTree.Objects.NodeAttribute], read as the attributes of lights. *)
Variable fbxTree_LightAttribute : option (list (Z * LightAttribute)).

(** [Math.PI], the double nearest to pi. *)
Definition Math_PI : float := 0x1.921fb54442d18p+1%float.

(** [MathUtils.degToRad] of three.js: [degrees * DEG2RAD] with
    [DEG2RAD = Math.PI / 180]. *)
Definition degToRad (degrees : float) : float := (degrees * (Math_PI / 180))%float.

(** [Math.max(a, b)]: [NaN] when an argument is [NaN], and [+0] above [-0]. *)
Definition Math_max (a b : float) : float :=
  if is_nan a || is_nan b then nan
  else if (a <? b)%float then b
  else if (b <? a)%float then a
  else if get_sign a then b else a.

(** [0xffffff] or [new Color().fromArray(value)] *)
Inductive LightColor : Type :=
| ColorHex (rgb : Z)
| ColorFromArray (value : list float).

(** The object that [createLight] constructs; an argument that is not passed
    to the constructor is [None]. *)
Inductive LightObject : Type :=
| LightObject3D
| PointLight (color : LightColor) (intensity : float) (distance decay : option float)
| DirectionalLight (color : LightColor) (intensity : float)
| SpotLight (color : LightColor) (intensity distance angle penumbra decay : float).

Record Light : Type := mkLight { light_object : LightObject; castShadow : bool }.

Definition light_intensity (l : LightObject) : option float :=
  match l with
  | LightObject3D => None
  | PointLight _ intensity _ _ | DirectionalLight _ intensity
  | SpotLight _ intensity _ _ _ _ => Some intensity
  end.

(** The callback of [relationships.children.forEach] in [createLight]. *)
Definition findLightAttribute (lightAttribute : option LightAttribute) (child : Edge)
  : M (World unit) (option LightAttribute) :=
  attributes ← prop "NodeAttribute" fbxTree_LightAttribute;
  mret (match lookupNode (ID child) attributes with
        | Some attr => Some attr
        | None => lightAttribute
        end).

Definition createLight (relationships : Relationships) : M (World unit) Light :=
  lightAttribute ← foldM findLightAttribute None (children relationships);
  match lightAttribute with
  | None => mret {| light_object := LightObject3D; castShadow := false |}
  | Some lightAttribute =>
      let type := match LightType lightAttribute with
                  | None => 0
                  | Some value => value
                  end in
      let color := match la_Color lightAttribute with
                   | Some value => ColorFromArray value
                   | None => ColorHex 0xffffff
                   end in
      let intensity := match Intensity lightAttribute with
                       | None => 1%float
                       | Some value => (value / 100)%float
                       end in
      let intensity := if decide (CastLightOnObject lightAttribute = Some 0)
                       then 0%float else intensity in
      let distance := match FarAttenuationEnd lightAttribute with
                      | Some value =>
                          if decide (EnableFarAttenuation lightAttribute = Some 0)
                          then 0%float else value
                      | None => 0%float
                      end in
      let decay := 1%float in
      model ← (if decide (type = 0) then
                 mret (PointLight color intensity (Some distance) (Some decay))
               else if decide (type = 1) then
                 mret (DirectionalLight color intensity)
               else if decide (type = 2) then
                 let angle := match InnerAngle lightAttribute with
                              | Some value => degToRad value
                              | None => (Math_PI / 3)%float
                              end in
                 let penumbra := match OuterAngle lightAttribute with
                                 | Some value => Math_max (degToRad value) 1
                                 | None => 0%float
                                 end in
                 mret (SpotLight color intensity distance angle penumbra decay)
               else
                 warn ("THREE.FBXLoader: Unknown light type " +:+ pretty type
                       +:+ ", defaulting to a PointLight.");;
                 mret (PointLight color intensity None None));
      mret {| light_object := model;
              castShadow := bool_decide (CastShadows lightAttribute = Some 1) |}
  end.

(** The [NodeAttribute] that [createLight] resolves: the last child that
    names one. *)
Definition lightAttributeOf (attributes : list (Z * LightAttribute)) (cs : list Edge)
  : option LightAttribute :=
  foldl (λ lightAttribute child,
           match lookupNode (ID child) attributes with
           | Some attr => Some attr
           | None => lightAttribute
           end) None cs.

(** ** Bind poses and skinning ([parsePoseNodes], [bindSkeleton]) *)

(** An entry of [PoseNode]: [Node] and, when present, [Matrix.a]. *)
Record PoseNode : Type := mkPoseNode {
  pn_Node : Z;
  pn_Matrix : option (list float)
}.

(** [PoseNode] is an array of entries or a single entry. *)
Inductive PoseNodes : Type :=
| PoseArray (poseNodes : list PoseNode)
| PoseSingle (poseNode : PoseNode).

Record BindPoseNode : Type := mkBindPoseNode {
  bp_attrType : option string;
  bp_PoseNode : option PoseNodes
}.

(** [fbxTree.Objects.Pose] *)
Variable fbxTree_Pose : option (list (Z * BindPoseNode)).

(** [bindMatrices[poseNode.Node] = new Matrix4().fromArray(poseNode.Matrix.a)] *)
Definition setBindMatrix {H} (bindMatrices : gmap Z Matrix4) (poseNode : PoseNode)
  : M (World H) (gmap Z Matrix4) :=
  a ← prop "a" (pn_Matrix poseNode);
  mret (<[pn_Node poseNode := Matrix4_fromArray a]> bindMatrices).

(** The body of [for (let nodeID in BindPoseNode)]. *)
Definition parsePoseNode {H} (bindMatrices : gmap Z Matrix4) (entry : Z * BindPoseNode)
  : M (World H) (gmap Z Matrix4) :=
  if decide (bp_attrType entry.2 = Some "BindPose") then
    poseNodes ← prop "Node" (bp_PoseNode entry.2);
    match poseNodes with
    | PoseArray poseNodes => foldM setBindMatrix bindMatrices poseNodes
    | PoseSingle poseNode => setBindMatrix bindMatrices poseNode
    end
  else mret bindMatrices.

Definition parsePoseNodes {H} : M (World H) (gmap Z Matrix4) :=
  match fbxTree_Pose with
  | Some BindPoseNode => foldM parsePoseNode ∅ BindPoseNode
  | None => mret ∅
  end.

(** The pose entries that [parsePoseNodes] reads, in order: those of the
    nodes of type [BindPose]. *)
Definition bindPoseEntries (nodes : list (Z * BindPoseNode)) : list PoseNode :=
  entry ← nodes;
  if decide (bp_attrType entry.2 = Some "BindPose") then
    match bp_PoseNode entry.2 with
    | Some (PoseArray poseNodes) => poseNodes
    | Some (PoseSingle poseNode) => [poseNode]
    | None => []
    end
  else [].

(** A call [model.bind(new Skeleton(bones), bindMatrix)]; the call is
    recorded, [None] is a bind matrix that is [undefined]. *)
Record Binding : Type := mkBinding {
  bound_model : Z;
  bound_bones : list (option nat);
  bound_matrix : option Matrix4
}.

(** The callback of [geoRelationships.parents.forEach]: only a
    [SkinnedMesh] has a [bind] method. *)
Definition bindModel (modelMap : list (Z * ModelKind)) (bindMatrices : gmap Z Matrix4)
    (skeleton : Skeleton) (geoConnParent : Edge) : M (World (list Binding)) unit :=
  match lookupNode (ID geoConnParent) modelMap with
  | Some KSkinnedMesh =>
      h ← getHeap;
      setHeap (h ++ [{| bound_model := ID geoConnParent; bound_bones := bones skeleton;
                        bound_matrix := bindMatrices !! ID geoConnParent |}])
  | Some _ => throw (TypeError "model.bind is not a function")
  | None => mret tt
  end.

(** The callback of [parents.forEach]. *)
Definition bindGeometry (geometryMap : gmap Z Geometry) (modelMap : list (Z * ModelKind))
    (bindMatrices : gmap Z Matrix4) (skeleton : Skeleton) (parent : Edge)
  : M (World (list Binding)) unit :=
  match geometryMap !! ID parent with
  | Some _ =>
      geoRelationships ← prop "parents" (connections !! ID parent);
      forEach (bindModel modelMap bindMatrices skeleton) (parents geoRelationships)
  | None => mret tt
  end.

(** The body of [for (let ID in skeletons)]. *)
Definition bindOne (geometryMap : gmap Z Geometry) (modelMap : list (Z * ModelKind))
    (bindMatrices : gmap Z Matrix4) (entry : Z * Skeleton) : M (World (list Binding)) unit :=
  let skeleton := entry.2 in
  rel ← prop "parents" (sk_ID skeleton ≫= λ id, connections !! id);
  forEach (bindGeometry geometryMap modelMap bindMatrices skeleton) (parents rel).

Definition bindSkeleton (skeletons : list (Z * Skeleton)) (geometryMap : gmap Z Geometry)
    (modelMap : list (Z * ModelKind)) : M (World (list Binding)) unit :=
  bindMatrices ← parsePoseNodes;
  forEach (bindOne geometryMap modelMap bindMatrices) skeletons.

(** The calls of [bind] with the bones of one skeleton, for a list of models. *)
Definition bindingsOf (bindMatrices : gmap Z Matrix4) (skeleton : Skeleton)
    (models : list Z) : list Binding :=
  (λ model, {| bound_model := model; bound_bones := bones skeleton;
               bound_matrix := bindMatrices !! model |}) <$> models.

(** The models that a skeleton reaches: the constructed models among the
    parents of the geometries among the parents of its deformer. *)
Definition reachedModels (geometryMap : gmap Z Geometry) (modelMap : list (Z * ModelKind))
    (skeleton : Skeleton) : list Z :=
  rel ← option_list (sk_ID skeleton ≫= λ id, connections !! id);
  parent ← parents rel;
  if decide (is_Some (geometryMap !! ID parent)) then
    geoRelationships ← option_list (connections !! ID parent);
    geoConnParent ← parents geoRelationships;
    if decide (is_Some (lookupNode (ID geoConnParent) modelMap))
    then [ID geoConnParent] else []
  else [].

(** A skeleton that [bindSkeleton] goes through without raising. *)
Definition bindable (geometryMap : gmap Z Geometry) (modelMap : list (Z * ModelKind))
    (skeleton : Skeleton) : Prop :=
  (∃ id rel,
     sk_ID skeleton = Some id ∧ connections !! id = Some rel
     ∧ ∀ parent, parent ∈ parents rel → is_Some (geometryMap !! ID parent) →
                 is_Some (connections !! ID parent))
  ∧ ∀ model, model ∈ reachedModels geometryMap modelMap skeleton →
             lookupNode model modelMap = Some KSkinnedMesh.

(** ** The texture maps of a material ([getTexture] and the connection loop
    of [parseParameters]) *)

(** [fbxTree.Objects.LayeredTexture]: the IDs of its nodes, when the section
    is present. *)
Variable fbxTree_LayeredTexture : option (gset Z).

(** The textures are shared by reference.  A texture is named by its key in
    the texture map; the settings assigned to the textures are kept by key:
    [sRGB] holds the textures whose [encoding] was set to [sRGBEncoding],
    [equirectangular] those whose [mapping] was set to
    [EquirectangularReflectionMapping]. *)
Record TextureSettings : Type := mkTextureSettings {
  sRGB : gset Z;
  equirectangular : gset Z
}.

(** Returns [textureMap.get(id)] together with the key, [None] is [undefined]. *)
Definition getTexture {H} (textureMap : gmap Z Texture) (id : Z)
  : M (World H) (option (Z * Texture)) :=
  id ← match fbxTree_LayeredTexture with
       | Some layered =>
           if decide (id ∈ layered) then
             warn ("THREE.FBXLoader: layered textures are not supported in three.js. "
                   +:+ "Discarding all but first layer.");;
             rel ← prop "children" (connections !! id);
             first ← prop "ID" (head (children rel));
             mret (ID first)
           else mret id
       | None => mret id
       end;
  mret ((λ texture, (id, texture)) <$> textureMap !! id).

(** [parameters[key] = value] *)
Fixpoint setParam (key : string) (value : ParamValue) (parameters : Parameters)
  : Parameters :=
  match parameters with
  | [] => [(key, value)]
  | (k, v) :: rest =>
      if decide (k = key) then (k, value) :: rest else (k, v) :: setParam key value rest
  end.

(** [texture.encoding = sRGBEncoding] *)
Definition set_encoding (texture : option (Z * Texture)) : M (World TextureSettings) unit :=
  match texture with
  | Some t =>
      h ← getHeap;
      setHeap {| sRGB := {[t.1]} ∪ sRGB h; equirectangular := equirectangular h |}
  | None => throw (TypeError "Cannot set property of undefined: encoding")
  end.

(** [texture.mapping = EquirectangularReflectionMapping] *)
Definition set_mapping (texture : option (Z * Texture)) : M (World TextureSettings) unit :=
  match texture with
  | Some t =>
      h ← getHeap;
      setHeap {| sRGB := sRGB h; equirectangular := {[t.1]} ∪ equirectangular h |}
  | None => throw (TypeError "Cannot set property of undefined: mapping")
  end.

(** The callback of [connections.get(ID).children.forEach] in
    [parseParameters]. *)
Definition mapTexture (textureMap : gmap Z Texture) (parameters : Parameters)
    (child : Edge) : M (World TextureSettings) Parameters :=
  let type := relationship child in
  if decide (type = Some "Bump") then
    texture ← getTexture textureMap (ID child);
    mret (setParam "bumpMap" (PTexture (snd <$> texture)) parameters)
  else if decide (type = Some "Maya|TEX_ao_map") then
    texture ← getTexture textureMap (ID child);
    mret (setParam "aoMap" (PTexture (snd <$> texture)) parameters)
  else if decide (type = Some "DiffuseColor" ∨ type = Some "Maya|TEX_color_map") then
    texture ← getTexture textureMap (ID child);
    set_encoding texture;;
    mret (setParam "map" (PTexture (snd <$> texture)) parameters)
  else if decide (type = Some "DisplacementColor") then
    texture ← getTexture textureMap (ID child);
    mret (setParam "displacementMap" (PTexture (snd <$> texture)) parameters)
  else if decide (type = Some "EmissiveColor") then
    texture ← getTexture textureMap (ID child);
    set_encoding texture;;
    mret (setParam "emissiveMap" (PTexture (snd <$> texture)) parameters)
  else if decide (type = Some "NormalMap" ∨ type = Some "Maya|TEX_normal_map") then
    texture ← getTexture textureMap (ID child);
    mret (setParam "normalMap" (PTexture (snd <$> texture)) parameters)
  else if decide (type = Some "ReflectionColor") then
    texture ← getTexture textureMap (ID child);
    set_mapping texture;;
    set_encoding texture;;
    mret (setParam "envMap" (PTexture (snd <$> texture)) parameters)
  else if decide (type = Some "SpecularColor") then
    texture ← getTexture textureMap (ID child);
    set_encoding texture;;
    mret (setParam "specularMap" (PTexture (snd <$> texture)) parameters)
  else if decide (type = Some "TransparentColor" ∨ type = Some "TransparencyFactor") then
    texture ← getTexture textureMap (ID child);
    mret (setParam "transparent" (PBool true)
            (setParam "alphaMap" (PTexture (snd <$> texture)) parameters))
  else
    warn ("THREE.FBXLoader: " +:+ default "undefined" type
          +:+ " map is not supported in three.js, skipping texture.");;
    mret parameters.

(** The connection loop of [parseParameters], from the parameters built
    before it. *)
Definition mapTextures (textureMap : gmap Z Texture) (id : Z) (parameters : Parameters)
  : M (World TextureSettings) Parameters :=
  rel ← prop "children" (connections !! id);
  foldM (mapTexture textureMap) parameters (children rel).

(** The relationships whose texture gets a colour encoding or a mapping. *)
Definition encodedMap (type : Label) : Prop :=
  type = Some "DiffuseColor" ∨ type = Some "Maya|TEX_color_map"
  ∨ type = Some "EmissiveColor" ∨ type = Some "ReflectionColor"
  ∨ type = Some "SpecularColor".

(** The relationships that the loop maps to a parameter. *)
Definition supportedMap (type : Label) : Prop :=
  type ∈ [ Some "Bump"; Some "Maya|TEX_ao_map"; Some "DiffuseColor";
           Some "Maya|TEX_color_map"; Some "DisplacementColor"; Some "EmissiveColor";
           Some "NormalMap"; Some "Maya|TEX_normal_map"; Some "ReflectionColor";
           Some "SpecularColor"; Some "TransparentColor"; Some "TransparencyFactor" ].

(** ** Concrete scenes

    The FBX objects, connections and registries on which the properties
    are exercised at the end of the file. *)

Definition demo_rawConnections : list RawConnection :=
  [mkConn 1 2 None; mkConn 3 2 (Some "DiffuseColor"); mkConn 1 4 None].

Definition demo_textureNode : TextureNode :=
  {| tn_id := 10; tn_attrName := Some "wood"; WrapModeU := Some 1; WrapModeV := Some 0;
     Scaling := None; FileName := Some "C:\textures\wood.png";
     RelativeFilename := Some "wood.png" |}.

(** The video 20 is the image of the texture 10. *)
Definition demo_textureConnections : gmap Z Relationships :=
  parseConnections (Some [mkConn 20 10 None]).

Definition demo_images : gmap Z string := {[ 20 := "wood.png" ]}.

Definition demo_materialNodes : list (Z * MaterialNode) :=
  [ (30, {| mn_id := 30; mn_attrName := Some "red";
            mn_ShadingModel := Some (ShadingName "phong") |});
    (31, {| mn_id := 31; mn_attrName := Some "unused";
            mn_ShadingModel := Some (ShadingProperty "lambert") |}) ].

Definition demo_materialObjects : FbxObjects :=
  {| Texture_nodes := None; Material_nodes := Some demo_materialNodes;
     Deformer_nodes := None; NodeAttribute_nodes := None; Model_nodes := None |}.

(** The material 30 belongs to the model 50; nothing names the material 31. *)
Definition demo_materialConnections : gmap Z Relationships :=
  parseConnections (Some [mkConn 30 50 None]).

Definition demo_parseParameters (materialNode : MaterialNode) (textureMap : gmap Z Texture)
    (ID : Z) : M (World (list Material)) Parameters :=
  mret [].

Definition demo_cluster (id : Z) (skinned : bool) : DeformerNode :=
  {| dn_id := id; dn_attrType := Some "Cluster"; dn_attrName := Some "bone";
     TransformLink := Some [1%float; 0%float; 0%float; 0%float];
     Indexes := if skinned then Some [0%float; 1%float] else None;
     Weights := if skinned then Some [0.5%float; 0.5%float] else None;
     DeformPercent := None; FullWeights := None |}.

Definition demo_skin (id : Z) : DeformerNode :=
  {| dn_id := id; dn_attrType := Some "Skin"; dn_attrName := Some "skin";
     TransformLink := None; Indexes := None; Weights := None;
     DeformPercent := None; FullWeights := None |}.

Definition demo_deformerNodes : list (Z * DeformerNode) :=
  [ (100, demo_skin 100); (101, demo_cluster 101 true);
    (102, demo_cluster 102 false); (103, demo_skin 103) ].

(** The children of the skin 100, in connection order. *)
Definition demo_skinRelationships : Relationships :=
  {| parents := [mkEdge 60 None];
     children := [mkEdge 101 None; mkEdge 103 None; mkEdge 102 None] |}.

Definition demo_rawBone (id : Z) : RawBone :=
  {| rb_ID := id; rb_indices := []; rb_weights := [];
     transformLink := Matrix4_fromArray [1%float] |}.

(** Two skeletons that share the raw bone 101. *)
Definition demo_skeletons : list (Z * Skeleton) :=
  [ (100, {| rawBones := [demo_rawBone 101; demo_rawBone 102]; bones := [];
             sk_ID := Some 100; geometryID := Some 60 |});
    (110, {| rawBones := [demo_rawBone 104; demo_rawBone 101]; bones := [];
             sk_ID := Some 110; geometryID := Some 61 |}) ].

(** The model 500 is connected to the cluster 101. *)
Definition demo_boneRelationships : Relationships :=
  {| parents := [mkEdge 101 None]; children := [] |}.

Definition demo_sanitizeNodeName (name : string) : string := name.

Definition demo_channel (id : Z) : DeformerNode :=
  {| dn_id := id; dn_attrType := Some "BlendShapeChannel"; dn_attrName := Some "smile";
     TransformLink := None; Indexes := None; Weights := None;
     DeformPercent := Some 0%float; FullWeights := Some [100%float] |}.

(** A deformer that is no channel and, as in an FBX file, has no [FullWeights]. *)
Definition demo_subDeformer (id : Z) : DeformerNode :=
  {| dn_id := id; dn_attrType := Some "Cluster"; dn_attrName := Some "bone";
     TransformLink := Some [1%float]; Indexes := None; Weights := None;
     DeformPercent := None; FullWeights := None |}.

(** A deformer that is no channel and has [FullWeights]. *)
Definition demo_weightedDeformer (id : Z) : DeformerNode :=
  {| dn_id := id; dn_attrType := Some "Skin"; dn_attrName := Some "odd";
     TransformLink := None; Indexes := None; Weights := None;
     DeformPercent := None; FullWeights := Some [] |}.

Definition demo_morphNodes : list (Z * DeformerNode) :=
  [ (200, {| dn_id := 200; dn_attrType := Some "BlendShape"; dn_attrName := Some "face";
             TransformLink := None; Indexes := None; Weights := None;
             DeformPercent := None; FullWeights := None |});
    (201, demo_channel 201); (202, demo_subDeformer 202);
    (203, demo_weightedDeformer 203); (204, demo_channel 204) ].

(** The shape geometries 70 and 71 are the unlabelled children of the
    channels 201 and 204. *)
Definition demo_morphConnections : gmap Z Relationships :=
  parseConnections (Some [mkConn 70 201 None; mkConn 71 204 None]).

Definition demo_deformerObjects : FbxObjects :=
  {| Texture_nodes := None; Material_nodes := None;
     Deformer_nodes := Some demo_deformerNodes;
     NodeAttribute_nodes := None; Model_nodes := None |}.

(** The clusters 101 and 102 belong to the skin 100; the skin 100 belongs to
    no geometry, and the skin 103 to the geometries 60 and 61. *)
Definition demo_deformerConnections : gmap Z Relationships :=
  parseConnections (Some [mkConn 101 100 None; mkConn 102 100 None;
                          mkConn 103 60 None; mkConn 103 61 None]).

Definition demo_cameraAttribute : NodeAttribute :=
  {| CameraProjectionType := None; NearPlane := Some 100%float; FarPlane := Some 100000%float;
     AspectWidth := None; AspectHeight := None; FieldOfView := Some 40%float;
     FocalLength := None |}.

Definition demo_cameraObjects : FbxObjects :=
  {| Texture_nodes := None; Material_nodes := None; Deformer_nodes := None;
     NodeAttribute_nodes := Some [(81, demo_cameraAttribute)];
     Model_nodes := None |}.

(** The camera model 80 and its attribute 81. *)
Definition demo_cameraRelationships : Relationships :=
  {| parents := [mkEdge 0 None]; children := [mkEdge 81 None] |}.

Definition demo_geometryMap : gmap Z Geometry :=
  {[ 40 := {| geo_color := true; FBX_Deformer := false |} ]}.

Definition demo_materialMap : gmap Z nat := {[ 30 := 0%nat; 31 := 1%nat ]}.

Definition demo_materialHeap : list Material :=
  [ {| mat_kind := MeshPhongMaterial; mat_parameters := []; mat_name := Some "red";
       vertexColors := false; skinning := false |};
    {| mat_kind := MeshLambertMaterial; mat_parameters := []; mat_name := Some "blue";
       vertexColors := false; skinning := false |} ].

(** The mesh model: its geometry 40, then the materials 31 and 30. *)
Definition demo_meshRelationships : Relationships :=
  {| parents := [mkEdge 0 None];
     children := [mkEdge 40 None; mkEdge 31 None; mkEdge 30 None] |}.

(** Modelled from the spec: the format sniffers [isFbxFormatBinary],
    [isFbxFormatASCII] and [getFbxVersion], which the loader calls and which
    are not part of the sources at hand.  The binary format is detected by a
    fixed magic header; a text is accepted when it contains a top-level
    marker; the version is the number of the [FBXVersion] field. *)
Definition spec_isFbxFormatBinary (buffer : string) : bool :=
  startsWith "Kaydara FBX Binary  " buffer.

Definition spec_isFbxFormatASCII (text : string) : bool :=
  bool_decide (is_Some (String.index 0 "FBXHeaderExtension" text)).

Fixpoint spec_readDigits (s : string) (acc : Z) : Z :=
  match s with
  | String c rest =>
      let n := nat_of_ascii c in
      if (48 <=? n)%nat && (n <=? 57)%nat
      then spec_readDigits rest (10 * acc + Z.of_nat (n - 48))
      else acc
  | EmptyString => acc
  end.

Definition spec_getFbxVersion (text : string) : Completion Z :=
  match String.index 0 "FBXVersion: " text with
  | Some i => Normal (spec_readDigits (String.substring (i + 12) (String.length text) text) 0)
  | None => Throw (Error "THREE.FBXLoader: Cannot find the version number for the file given.")
  end.

Definition demo_plainModel (type : string) : ModelNode :=
  {| mo_attrType := Some type; mo_attrName := Some "node"; LookAtProperty := false;
     Lcl_Translation := Some [0%float; 1%float; 0%float] |}.

Definition demo_modelNodes : list (Z * ModelNode) :=
  [ (1, demo_plainModel "Null"); (2, demo_plainModel "Null");
    (3, demo_plainModel "Mesh");
    (4, {| mo_attrType := Some "Light"; mo_attrName := Some "spot"; LookAtProperty := true;
           Lcl_Translation := None |}) ].

Definition demo_sceneObjects : FbxObjects :=
  {| Texture_nodes := None; Material_nodes := None; Deformer_nodes := None;
     NodeAttribute_nodes := None; Model_nodes := Some demo_modelNodes |}.

Definition demo_modelMap : list (Z * ModelKind) :=
  [ (1, KGroup); (2, KGroup); (3, KMesh); (4, KSpotLight) ].

(** The mesh 3 is connected to the group 1 and then to the group 2; the
    groups and the light are connected to the root object 0, which is no
    model; the group 2 is the look-at target of the light 4. *)
Definition demo_sceneConnections : gmap Z Relationships :=
  parseConnections
    (Some [ mkConn 3 1 None; mkConn 3 2 None; mkConn 1 0 None; mkConn 2 0 None;
            mkConn 4 0 None; mkConn 2 4 (Some "LookAtProperty") ]).

Definition demo_emptyScene : World Hierarchy :=
  mkWorld [] {| parentOf := ∅; childrenOf := ∅; positionOf := ∅; lookedAt := ∅ |}.

(** The image of the video 20, embedded as base64 text. *)
Definition demo_embeddedImages : gmap Z string :=
  {[ 20 := "data:image/png;base64,iVBORw0KGgo=" ]}.

Definition demo_textureObjects : FbxObjects :=
  {| Texture_nodes := Some [(10, demo_textureNode)]; Material_nodes := None;
     Deformer_nodes := None; NodeAttribute_nodes := None; Model_nodes := None |}.


Definition demo_createObjectURL (content : option VideoContent) (type : string) : string :=
  "blob:" +:+ type.

(** The skin 103 and a cluster, which the registry leaves out. *)
Definition demo_skinObjects : FbxObjects :=
  {| Texture_nodes := None; Material_nodes := None;
     Deformer_nodes := Some [(103, demo_skin 103); (101, demo_cluster 101 true)];
     NodeAttribute_nodes := None; Model_nodes := None |}.

(** Two attributes without clipping planes, the second one orthographic. *)
Definition demo_plainCamera (projection : option Z) : NodeAttribute :=
  {| CameraProjectionType := projection; NearPlane := None; FarPlane := None;
     AspectWidth := Some 16%float; AspectHeight := Some 8%float;
     FieldOfView := Some 40%float; FocalLength := None |}.

Definition demo_twoCameraObjects : FbxObjects :=
  {| Texture_nodes := None; Material_nodes := None; Deformer_nodes := None;
     NodeAttribute_nodes := Some [(81, demo_plainCamera None); (82, demo_plainCamera (Some 1))];
     Model_nodes := None |}.

Definition demo_twoGeometries : gmap Z Geometry :=
  {[ 40 := {| geo_color := true; FBX_Deformer := false |};
     41 := {| geo_color := false; FBX_Deformer := true |} ]}.

(** A spot light that is switched off, and a light of an unknown type. *)
Definition demo_spotLight : LightAttribute :=
  {| LightType := Some 2; la_Color := Some [1%float; 1%float; 1%float];
     Intensity := Some 250%float; CastLightOnObject := Some 0;
     FarAttenuationEnd := Some 50%float; EnableFarAttenuation := None;
     InnerAngle := Some 30%float; OuterAngle := Some 45%float; CastShadows := Some 1 |}.

Definition demo_areaLight : LightAttribute :=
  {| LightType := Some 3; la_Color := None; Intensity := Some 250%float;
     CastLightOnObject := None; FarAttenuationEnd := Some 50%float;
     EnableFarAttenuation := None; InnerAngle := None; OuterAngle := None;
     CastShadows := None |}.

Definition demo_lightAttributes : list (Z * LightAttribute) :=
  [(91, demo_spotLight); (92, demo_areaLight)].

(** Two bind poses that name the model 3, and a pose of another type. *)
Definition demo_poseNodes : list (Z * BindPoseNode) :=
  [ (300, {| bp_attrType := Some "BindPose";
             bp_PoseNode := Some (PoseArray [ mkPoseNode 3 (Some [1%float]);
                                              mkPoseNode 5 (Some [2%float]) ]) |});
    (301, {| bp_attrType := Some "RestPose"; bp_PoseNode := None |});
    (302, {| bp_attrType := Some "BindPose";
             bp_PoseNode := Some (PoseSingle (mkPoseNode 3 (Some [3%float]))) |}) ].

(** The skin 103 deforms the geometry 60, which belongs to the model 3 and
    to the object 7, which is no model. *)
Definition demo_bindConnections : gmap Z Relationships :=
  parseConnections (Some [mkConn 103 60 None; mkConn 60 3 None; mkConn 60 7 None]).

Definition demo_boundSkeletons : list (Z * Skeleton) :=
  [ (103, {| rawBones := []; bones := [Some 0%nat; None]; sk_ID := Some 103;
             geometryID := Some 60 |}) ].

Definition demo_skinnedGeometries : gmap Z Geometry :=
  {[ 60 := {| geo_color := false; FBX_Deformer := true |} ]}.

(** The texture 10 is the only layer of the layered texture 15. *)
Definition demo_layerConnections : gmap Z Relationships :=
  parseConnections (Some [mkConn 10 15 None]).

Definition demo_textureMap : gmap Z Texture :=
  {[ 10 := newTexture (TextureLoader_load None (Some "wood.png")) ]}.

(** The material 30 with a diffuse map 12 that is no registered texture. *)
Definition demo_diffuseConnections : gmap Z Relationships :=
  parseConnections (Some [mkConn 12 30 (Some "DiffuseColor")]).

(** The material 30 with an unlabelled child and an ambient map. *)
Definition demo_ambientConnections : gmap Z Relationships :=
  parseConnections (Some [mkConn 10 30 None; mkConn 11 30 (Some "AmbientColor")]).

(* ================================================================== *)
(** * Properties *)
(* ================================================================== *)

(** ** Connection graph *)

Example parseConnections_demo :
  parseConnections (Some [mkConn 1 2 None; mkConn 3 2 (Some "DiffuseColor"); mkConn 1 4 None])
  = {[ 1 := mkRel [mkEdge 2 None; mkEdge 4 None] [];
       2 := mkRel [] [mkEdge 1 None; mkEdge 3 (Some "DiffuseColor")];
       3 := mkRel [mkEdge 2 (Some "DiffuseColor")] [];
       4 := mkRel [] [mkEdge 1 None] ]}.
Proof. apply map_eq; intros i. vm_compute. reflexivity. Qed.

Lemma parentEdges_snoc id raw c :
  parentEdges id (raw ++ [c])
  = parentEdges id raw
    ++ (if decide (fromID c = id) then [mkEdge (toID c) (conn_relationship c)] else []).
Proof.
  unfold parentEdges. rewrite filter_app, fmap_app. f_equal.
  rewrite filter_cons, filter_nil. by case_decide.
Qed.

Lemma childEdges_snoc id raw c :
  childEdges id (raw ++ [c])
  = childEdges id raw
    ++ (if decide (toID c = id) then [mkEdge (fromID c) (conn_relationship c)] else []).
Proof.
  unfold childEdges. rewrite filter_app, fmap_app. f_equal.
  rewrite filter_cons, filter_nil. by case_decide.
Qed.

Lemma mentioned_snoc id raw c :
  mentioned id (raw ++ [c]) ↔ mentioned id raw ∨ fromID c = id ∨ toID c = id.
Proof.
  unfold mentioned. split.
  - intros (c' & Hin & Hid). apply elem_of_app in Hin as [Hin | Hin].
    + left. eauto.
    + apply list_elem_of_singleton in Hin as ->. by right.
  - intros [(c' & Hin & Hid) | Hid].
    + exists c'. split; [apply elem_of_app; by left | done].
    + exists c. split; [apply elem_of_app; right; by apply list_elem_of_singleton | done].
Qed.

Lemma lookup_ensureEntry id j (m : gmap Z Relationships) :
  ensureEntry id m !! j
  = match m !! j with
    | Some r => Some r
    | None => if decide (id = j) then Some emptyRel else None
    end.
Proof.
  unfold ensureEntry. destruct (m !! id) as [r|] eqn:Hid.
  - destruct (m !! j) eqn:Hj; [done|]. case_decide; [congruence | done].
  - rewrite lookup_insert. case_decide; subst.
    + by rewrite Hid.
    + by destruct (m !! j).
Qed.

Lemma lookup_alter_at {A} (f : A → A) (m : gmap Z A) i j :
  alter f i m !! j = if decide (i = j) then f <$> m !! j else m !! j.
Proof. rewrite lookup_alter. by case_decide; subst. Qed.

Lemma lookup_addConnection m c id :
  addConnection m c !! id
  = match m !! id with
    | Some r =>
        Some {| parents := parents r ++ (if decide (fromID c = id)
                                         then [mkEdge (toID c) (conn_relationship c)] else []);
                children := children r ++ (if decide (toID c = id)
                                           then [mkEdge (fromID c) (conn_relationship c)] else []) |}
    | None =>
        if decide (fromID c = id ∨ toID c = id) then
          Some {| parents := if decide (fromID c = id)
                             then [mkEdge (toID c) (conn_relationship c)] else [];
                  children := if decide (toID c = id)
                              then [mkEdge (fromID c) (conn_relationship c)] else [] |}
        else None
    end.
Proof.
  unfold addConnection, pushChild, pushParent. cbv zeta.
  rewrite lookup_alter_at, lookup_ensureEntry, lookup_alter_at, lookup_ensureEntry.
  destruct (m !! id) as [[ps cs]|] eqn:Hm; simpl.
  all: destruct (decide (fromID c = id)) as [Hf|Hf], (decide (toID c = id)) as [Ht|Ht]; simpl.
  all: rewrite ?app_nil_r; try done.
  all: case_decide; first [done | tauto].
Qed.

Lemma graphOf_nil : graphOf [] ∅.
Proof.
  intros id. rewrite lookup_empty. intros (c & Hin & _). by apply elem_of_nil in Hin.
Qed.

Lemma parentEdges_unmentioned id raw : ¬ mentioned id raw → parentEdges id raw = [].
Proof.
  intros Hno. unfold parentEdges. destruct (filter _ raw) as [|c' ?] eqn:Hf; [done|].
  exfalso. apply Hno. exists c'.
  assert (c' ∈ filter (λ c0, fromID c0 = id) raw) as Hin by (rewrite Hf; left).
  pose proof (proj1 (list_elem_of_filter _ _ _) Hin) as [? ?]. eauto.
Qed.

Lemma childEdges_unmentioned id raw : ¬ mentioned id raw → childEdges id raw = [].
Proof.
  intros Hno. unfold childEdges. destruct (filter _ raw) as [|c' ?] eqn:Hf; [done|].
  exfalso. apply Hno. exists c'.
  assert (c' ∈ filter (λ c0, toID c0 = id) raw) as Hin by (rewrite Hf; left).
  pose proof (proj1 (list_elem_of_filter _ _ _) Hin) as [? ?]. eauto.
Qed.

Lemma graphOf_snoc raw m c :
  graphOf raw m → graphOf (raw ++ [c]) (addConnection m c).
Proof.
  intros Hinv id. specialize (Hinv id).
  rewrite lookup_addConnection.
  pose proof (mentioned_snoc id raw c) as Hm.
  destruct (m !! id) as [r|].
  - destruct Hinv as (Hr & Hp & Hc). simpl.
    rewrite parentEdges_snoc, childEdges_snoc, Hp, Hc. tauto.
  - case_decide as Hd.
    + simpl. rewrite parentEdges_snoc, childEdges_snoc.
      rewrite (parentEdges_unmentioned _ _ Hinv), (childEdges_unmentioned _ _ Hinv).
      tauto.
    + tauto.
Qed.

Lemma graphOf_foldl rest : ∀ pre m,
  graphOf pre m → graphOf (pre ++ rest) (foldl addConnection m rest).
Proof.
  induction rest as [|c rest IH]; intros pre m Hinv; simpl.
  - by rewrite app_nil_r.
  - replace (pre ++ c :: rest) with ((pre ++ [c]) ++ rest) by by rewrite <- app_assoc.
    apply IH. by apply graphOf_snoc.
Qed.

Lemma parseConnections_graphOf raw : graphOf raw (parseConnections (Some raw)).
Proof. apply (graphOf_foldl raw [] ∅ graphOf_nil). Qed.

(** C1.  Every raw connection [(fromID, toID, label)] of the input leaves an
    entry for [fromID] whose parents contain [(toID, label)] and an entry for
    [toID] whose children contain [(fromID, label)].  Each entry lists exactly
    the edges of its ID, in input order, repeated triples included; an ID
    has an entry exactly when some connection mentions it. *)
Theorem parseConnections_edges (raw : list RawConnection) :
  (∀ c, c ∈ raw →
     ∃ rf rt,
       parseConnections (Some raw) !! fromID c = Some rf
       ∧ mkEdge (toID c) (conn_relationship c) ∈ parents rf
       ∧ parseConnections (Some raw) !! toID c = Some rt
       ∧ mkEdge (fromID c) (conn_relationship c) ∈ children rt)
  ∧ (∀ id r, parseConnections (Some raw) !! id = Some r →
       parents r = parentEdges id raw ∧ children r = childEdges id raw)
  ∧ (∀ id, is_Some (parseConnections (Some raw) !! id) ↔ mentioned id raw).
Proof.
  pose proof (parseConnections_graphOf raw) as Hg.
  assert (Hdom : ∀ id, is_Some (parseConnections (Some raw) !! id) ↔ mentioned id raw).
  { intros id. specialize (Hg id). destruct (parseConnections (Some raw) !! id).
    - split; [tauto | eauto].
    - split; [by intros [? ?] | tauto]. }
  split; [|split]; [| |done].
  - intros c Hin.
    destruct (proj2 (Hdom (fromID c))) as [rf Hrf]; [exists c; tauto|].
    destruct (proj2 (Hdom (toID c))) as [rt Hrt]; [exists c; tauto|].
    exists rf, rt. pose proof (Hg (fromID c)) as Hf. pose proof (Hg (toID c)) as Ht.
    rewrite Hrf in Hf. rewrite Hrt in Ht.
    destruct Hf as (_ & -> & _), Ht as (_ & _ & ->).
    repeat split; try done.
    + unfold parentEdges. apply list_elem_of_fmap. exists c. split; [done|].
      by apply list_elem_of_filter.
    + unfold childEdges. apply list_elem_of_fmap. exists c. split; [done|].
      by apply list_elem_of_filter.
  - intros id r Hr. specialize (Hg id). rewrite Hr in Hg. tauto.
Qed.

(** ** The monad *)

Lemma bind_run {S A B} (c : M S A) (k : A → M S B) (s : S) :
  (c ≫= k) s = match c s with
               | (Normal a, s') => k a s'
               | (Throw e, s') => (Throw e, s')
               end.
Proof. reflexivity. Qed.

Lemma bind_normal {S A B} (c : M S A) (k : A → M S B) (s s' : S) (a : A) :
  c s = (Normal a, s') → (c ≫= k) s = k a s'.
Proof. intros H. by rewrite bind_run, H. Qed.

Lemma bind_throw {S A B} (c : M S A) (k : A → M S B) (s s' : S) (e : JsError) :
  c s = (Throw e, s') → (c ≫= k) s = (Throw e, s').
Proof. intros H. by rewrite bind_run, H. Qed.

Lemma ret_run {S A} (a : A) (s : S) : (mret a : M S A) s = (Normal a, s).
Proof. reflexivity. Qed.

Lemma prop_some {S A} what (a : A) (s : S) : prop what (Some a) s = (Normal a, s).
Proof. reflexivity. Qed.

Lemma prop_none {S A} what (s : S) :
  @prop S A what None s
  = (Throw (TypeError ("Cannot read property of undefined: " +:+ what)), s).
Proof. reflexivity. Qed.

Ltac mrun :=
  repeat (rewrite ?bind_run, ?ret_run, ?prop_some, ?prop_none; cbn beta iota zeta).

(** ** Textures *)

Lemma loadTexture_returns textureNode images w rel name :
  connections !! tn_id textureNode = Some rel →
  FileName textureNode = Some name →
  ∃ texture w', loadTexture textureNode images w = (Normal texture, w').
Proof.
  intros Hrel Hname. unfold loadTexture. rewrite Hrel, Hname.
  unfold getHeap, setHeap, warn, modify. mrun.
  destruct (children rel) as [|child ?]; mrun.
  2: destruct (images !! ID child) as [f|]; mrun.
  2: destruct (startsWith "blob:" f || startsWith "data:" f); mrun.
  all: repeat case_decide; mrun.
  all: try destruct tgaHandler; mrun; eauto.
Qed.

(** C8.  The wrap modes of a texture are a function of [WrapModeU] and
    [WrapModeV] alone: value 0 repeats, value 1 clamps, and a missing field
    repeats.  A texture node whose ID has a connection entry and that has a
    [FileName] is parsed to such a texture; with [WrapModeU = 1] and
    [WrapModeV = 0] its wrap is (clamp, repeat). *)
Theorem parseTexture_wrap textureNode images w rel name :
  connections !! tn_id textureNode = Some rel →
  FileName textureNode = Some name →
  ∃ texture w',
    parseTexture textureNode images w = (Normal texture, w')
    ∧ wrapS texture = wrapOf (default 0 (WrapModeU textureNode))
    ∧ wrapT texture = wrapOf (default 0 (WrapModeV textureNode))
    ∧ wrapOf 0 = RepeatWrapping
    ∧ wrapOf 1 = ClampToEdgeWrapping
    ∧ (WrapModeU textureNode = None → wrapS texture = RepeatWrapping)
    ∧ (WrapModeV textureNode = None → wrapT texture = RepeatWrapping)
    ∧ (WrapModeU textureNode = Some 1 → WrapModeV textureNode = Some 0 →
       (wrapS texture, wrapT texture) = (ClampToEdgeWrapping, RepeatWrapping)).
Proof.
  intros Hrel Hname.
  destruct (loadTexture_returns textureNode images w rel name Hrel Hname)
    as (texture & w' & Hload).
  unfold parseTexture. rewrite (bind_normal _ _ _ _ _ Hload), ret_run.
  eexists _, w'. split; [reflexivity|]. cbn.
  split_and!; try reflexivity.
  - intros HU. rewrite HU. reflexivity.
  - intros HV. rewrite HV. reflexivity.
  - intros HU HV. rewrite HU, HV. reflexivity.
Qed.

(** ** Materials *)

Lemma parseMaterial_unused materialNode textureMap w :
  connections !! mn_id materialNode = None →
  parseMaterial materialNode textureMap w = (Normal None, w).
Proof. intros H. unfold parseMaterial. by rewrite H. Qed.

Lemma parseMaterials_unfold textureMap materialNodes :
  Material_nodes fbxTree_Objects = Some materialNodes →
  parseMaterials textureMap = foldM (registerMaterial textureMap) ∅ materialNodes.
Proof. intros H. unfold parseMaterials. rewrite H. reflexivity. Qed.

Lemma registerMaterial_absent textureMap nodeID nodes :
  (∀ n, (nodeID, n) ∈ nodes → connections !! mn_id n = None) →
  ∀ acc w acc' w',
    acc !! nodeID = None →
    foldM (registerMaterial textureMap) acc nodes w = (Normal acc', w') →
    acc' !! nodeID = None.
Proof.
  induction nodes as [|[k n] nodes IH]; intros Hunused acc w acc' w' Hacc Hrun.
  - cbn in Hrun. by inversion Hrun; subst.
  - cbn [foldM] in Hrun. rewrite bind_run in Hrun.
    destruct (registerMaterial textureMap acc (k, n) w) as [[acc1|e] w1] eqn:Hstep;
      [|discriminate].
    apply (IH (λ n' Hin, Hunused n' (list_elem_of_further _ _ _ Hin)) acc1 w1 acc' w');
      [|done].
    unfold registerMaterial in Hstep. rewrite bind_run in Hstep.
    destruct (decide (k = nodeID)) as [->|Hne].
    + rewrite parseMaterial_unused in Hstep by (apply Hunused; left).
      rewrite ret_run in Hstep. by inversion Hstep; subst.
    + destruct (parseMaterial n textureMap w) as [[[m|]|e] w2]; [| |discriminate];
        rewrite ret_run in Hstep; inversion Hstep; subst; [|done].
      by rewrite lookup_insert_ne.
Qed.

(** C5.  In a catalog keyed by node ID, a Material node whose ID has no
    entry in the connection graph is parsed to [null], and the registry that
    [parseMaterials] returns has no entry for that ID. *)
Theorem parseMaterials_unused textureMap materialNodes nodeID materialNode w :
  Material_nodes fbxTree_Objects = Some materialNodes →
  (∀ k n, (k, n) ∈ materialNodes → mn_id n = k) →
  (nodeID, materialNode) ∈ materialNodes →
  connections !! nodeID = None →
  parseMaterial materialNode textureMap w = (Normal None, w)
  ∧ ∀ materialMap w',
      parseMaterials textureMap w = (Normal materialMap, w') →
      materialMap !! nodeID = None.
Proof.
  intros Hnodes Hkeys Hin Hunused. split.
  - apply parseMaterial_unused. by rewrite (Hkeys _ _ Hin).
  - intros materialMap w' Hrun.
    rewrite (parseMaterials_unfold _ _ Hnodes) in Hrun.
    eapply (registerMaterial_absent textureMap nodeID materialNodes); [| |exact Hrun].
    + intros n Hn. by rewrite (Hkeys _ _ Hn).
    + apply lookup_empty.
Qed.

(** ** Deformers *)

Lemma parseBone_readable deformerNodes rawBones child w :
  boneReadable deformerNodes child →
  ∃ new,
    parseBone deformerNodes rawBones child w = (Normal (rawBones ++ new), w)
    ∧ rb_ID <$> new
      = if decide (lookupNode (ID child) deformerNodes ≫= dn_attrType = Some "Cluster")
        then [ID child] else [].
Proof.
  intros (node & Hnode & Hcluster). unfold parseBone. rewrite Hnode. mrun.
  cbn [mbind option_bind]. case_decide as Htype.
  - destruct (Hcluster Htype) as [[link Hlink] Hweights]. rewrite Hlink. mrun.
    destruct (Indexes node) as [indexes|].
    + destruct Hweights as [ws Hws]; [by eexists|]. rewrite Hws. mrun.
      eexists [_]. split; reflexivity.
    + mrun. eexists [_]. split; reflexivity.
  - mrun. exists []. by rewrite app_nil_r.
Qed.

Lemma parseBones_readable deformerNodes cs : ∀ rawBones w,
  Forall (boneReadable deformerNodes) cs →
  ∃ new,
    foldM (parseBone deformerNodes) rawBones cs w = (Normal (rawBones ++ new), w)
    ∧ rb_ID <$> new
      = ID <$> filter (λ child, lookupNode (ID child) deformerNodes ≫= dn_attrType
                                = Some "Cluster") cs.
Proof.
  induction cs as [|child cs IH]; intros rawBones w Hall.
  - exists []. by rewrite app_nil_r.
  - inversion Hall as [|? ? Hchild Hrest]; subst.
    destruct (parseBone_readable deformerNodes rawBones child w Hchild) as (new1 & Hrun1 & Hids1).
    destruct (IH (rawBones ++ new1) w Hrest) as (new2 & Hrun2 & Hids2).
    exists (new1 ++ new2). split.
    + cbn [foldM]. rewrite (bind_normal _ _ _ _ _ Hrun1), Hrun2. by rewrite app_assoc.
    + rewrite fmap_app, Hids1, Hids2, filter_cons. by case_decide.
Qed.

Lemma parseSkeleton_readable relationships deformerNodes w :
  Forall (boneReadable deformerNodes) (children relationships) →
  ∃ skeleton,
    parseSkeleton relationships deformerNodes w = (Normal skeleton, w)
    ∧ rb_ID <$> rawBones skeleton = ID <$> childrenOfType "Cluster" deformerNodes relationships
    ∧ bones skeleton = [].
Proof.
  intros Hall.
  destruct (parseBones_readable deformerNodes _ [] w Hall) as (new & Hrun & Hids).
  unfold parseSkeleton. rewrite (bind_normal _ _ _ _ _ Hrun). mrun.
  eexists. split; [reflexivity|]. by split.
Qed.

(** ** Joints *)

Lemma forEachRawBone_joints id name parent rest : ∀ i st,
  (forEachRawBone id name parent i rest st).1
  = foldl (λ j rawBone, newJoint id name rawBone j) st.1
          (filter (λ rawBone, rb_ID rawBone = ID parent) rest).
Proof.
  induction rest as [|rawBone rest IH]; intros i st; [done|].
  cbn [forEachRawBone]. rewrite IH, filter_cons. unfold matchRawBone.
  by case_decide.
Qed.

Lemma forEachSkeleton_joints id name parent sks : ∀ j,
  (forEachSkeleton id name parent sks j).1
  = foldl (λ j rawBone, newJoint id name rawBone j) j
          (skeleton ← sks; filter (λ rawBone, rb_ID rawBone = ID parent) (rawBones skeleton.2))
  ∧ (λ sk, rawBones sk.2) <$> (forEachSkeleton id name parent sks j).2
    = (λ sk, rawBones sk.2) <$> sks.
Proof.
  induction sks as [|[k skeleton] sks IH]; intros j; [done|].
  cbn [forEachSkeleton fst snd]. destruct (IH (forEachRawBone id name parent 0
    (rawBones skeleton) (j, bones skeleton)).1) as [IH1 IH2].
  split.
  - rewrite IH1, forEachRawBone_joints. cbn [mbind list_bind fst snd].
    by rewrite foldl_app.
  - cbn [fmap list_fmap fst snd]. f_equal. apply IH2.
Qed.

Lemma bind_rawBones_ext {B} (f : list RawBone → list B) (a b : list (Z * Skeleton)) :
  (λ sk, rawBones sk.2) <$> a = (λ sk, rawBones sk.2) <$> b →
  (skeleton ← a; f (rawBones skeleton.2)) = (skeleton ← b; f (rawBones skeleton.2)).
Proof.
  revert b. induction a as [|x a IH]; intros [|y b] Heq; try done.
  cbn in Heq. inversion Heq as [[Hhead Htail]].
  cbn [mbind list_bind]. rewrite Hhead. f_equal. by apply IH.
Qed.

Lemma bind_parents_ext (ps : list Edge) (a b : list (Z * Skeleton)) :
  (λ sk, rawBones sk.2) <$> a = (λ sk, rawBones sk.2) <$> b →
  (parent ← ps; skeleton ← a;
   filter (λ rawBone, rb_ID rawBone = ID parent) (rawBones skeleton.2))
  = (parent ← ps; skeleton ← b;
     filter (λ rawBone, rb_ID rawBone = ID parent) (rawBones skeleton.2)).
Proof.
  intros Heq. induction ps as [|p ps IH]; [done|].
  cbn [mbind list_bind]. f_equal; [|exact IH].
  by apply (bind_rawBones_ext (filter (λ rawBone, rb_ID rawBone = ID p))).
Qed.

Lemma forEachParent_joints id name ps : ∀ st,
  (foldl (λ st parent, forEachSkeleton id name parent st.2 st.1) st ps).1
  = foldl (λ j rawBone, newJoint id name rawBone j) st.1
          (parent ← ps; skeleton ← st.2;
           filter (λ rawBone, rb_ID rawBone = ID parent) (rawBones skeleton.2)).
Proof.
  induction ps as [|parent ps IH]; intros st; [done|].
  cbn [foldl]. rewrite IH.
  destruct (forEachSkeleton_joints id name parent st.2 st.1) as [H1 H2].
  rewrite H1. cbn [mbind list_bind]. rewrite foldl_app. f_equal.
  by apply bind_parents_ext.
Qed.

Lemma buildSkeleton_joints relationships skeletons id name h :
  let r := buildSkeleton relationships skeletons id name h in
  {| j_heap := r.1.2; j_bone := r.1.1 |}
  = foldl (λ j rawBone, newJoint id name rawBone j) {| j_heap := h; j_bone := None |}
          (matchedRawBones relationships skeletons).
Proof.
  pose proof (forEachParent_joints id name (parents relationships)
                ({| j_heap := h; j_bone := None |}, skeletons)) as H.
  unfold buildSkeleton, matchedRawBones. cbn [fst snd] in *.
  rewrite <- H. by destruct (foldl _ _ _).1.
Qed.

Lemma alter_first_of_two {A} (f : A → A) (h : list A) (b1 b2 : A) :
  alter f (length h) (h ++ [b1; b2]) = h ++ [f b1; b2].
Proof. induction h as [|x h IH]; [done|]. cbn. by rewrite IH. Qed.

Lemma alter_second_of_two {A} (f : A → A) (h : list A) (b1 b2 : A) :
  alter f (S (length h)) (h ++ [b1; b2]) = h ++ [b1; f b2].
Proof. induction h as [|x h IH]; [done|]. cbn. by rewrite IH. Qed.

Lemma newJoint_twice id name r1 r2 h :
  newJoint id name r2 (newJoint id name r1 {| j_heap := h; j_bone := None |})
  = {| j_heap := h ++ [ {| bone_name := nodeName name; bone_ID := id;
                           matrixWorld := transformLink r1;
                           bone_parent := Some (S (length h)); bone_children := [] |};
                        {| bone_name := nodeName name; bone_ID := id;
                           matrixWorld := transformLink r2;
                           bone_parent := None; bone_children := [length h] |} ];
       j_bone := Some (S (length h)) |}.
Proof.
  unfold newJoint. cbn [j_heap j_bone]. rewrite length_app. cbn [length].
  replace (length h + 1)%nat with (S (length h)) by lia. f_equal.
  unfold Bone_add. rewrite decide_False by lia.
  rewrite <- app_assoc. cbn [app].
  assert (Hlook : ∀ b1 b2 : Bone, (h ++ [b1; b2]) !! length h = Some b1).
  { intros. by rewrite lookup_app_r, Nat.sub_diag by lia. }
  rewrite Hlook. cbn [mbind option_bind bone_parent].
  by rewrite alter_first_of_two, alter_second_of_two.
Qed.

(** C4.  A Skin deformer whose children all resolve to deformer nodes (each
    Cluster with its [TransformLink], and its [Weights] if it has [Indexes])
    yields a raw skeleton with one raw bone per Cluster child, in connection
    order; and when [buildSkeleton] matches exactly two raw bones it creates
    two joints, the earlier one a child of the later one, and returns the
    later one. *)
Theorem skeleton_bones :
  (∀ relationships deformerNodes w,
     Forall (boneReadable deformerNodes) (children relationships) →
     ∃ skeleton,
       parseSkeleton relationships deformerNodes w = (Normal skeleton, w)
       ∧ rb_ID <$> rawBones skeleton
         = ID <$> childrenOfType "Cluster" deformerNodes relationships
       ∧ length (rawBones skeleton)
         = length (childrenOfType "Cluster" deformerNodes relationships))
  ∧ (∀ relationships skeletons id name h r1 r2,
       matchedRawBones relationships skeletons = [r1; r2] →
       ∃ skeletons',
         buildSkeleton relationships skeletons id name h
         = (Some (S (length h)),
            h ++ [ {| bone_name := nodeName name; bone_ID := id;
                      matrixWorld := transformLink r1;
                      bone_parent := Some (S (length h)); bone_children := [] |};
                   {| bone_name := nodeName name; bone_ID := id;
                      matrixWorld := transformLink r2;
                      bone_parent := None; bone_children := [length h] |} ],
            skeletons')).
Proof.
  split.
  - intros relationships deformerNodes w Hall.
    destruct (parseSkeleton_readable relationships deformerNodes w Hall)
      as (skeleton & Hrun & Hids & _).
    exists skeleton. split_and!; [done | done |].
    by rewrite <- (length_fmap rb_ID), Hids, length_fmap.
  - intros relationships skeletons id name h r1 r2 Hmatched.
    pose proof (buildSkeleton_joints relationships skeletons id name h) as Hj.
    cbn zeta in Hj. rewrite Hmatched in Hj. cbn [foldl] in Hj.
    rewrite newJoint_twice in Hj.
    destruct (buildSkeleton relationships skeletons id name h) as [[bone h'] skeletons'].
    cbn [fst snd] in Hj. inversion Hj; subst. by exists skeletons'.
Qed.

(** ** Morph targets *)

Lemma parseMorphTargets_loop_channels deformerNodes pre : ∀ rest acc w,
  Forall (channelReadable deformerNodes) pre →
  ∃ acc',
    parseMorphTargets_loop deformerNodes acc (pre ++ rest) w
    = parseMorphTargets_loop deformerNodes acc' rest w.
Proof.
  induction pre as [|child pre IH]; intros rest acc w Hall; [by exists acc|].
  inversion Hall as [|? ? Hchild Hpre]; subst.
  destruct Hchild as (node & rel & Hnode & Htype & [fw Hfw] & Hrel & [geo Hgeo]).
  cbn [app parseMorphTargets_loop]. rewrite Hnode. mrun. rewrite Hfw. mrun.
  rewrite decide_True by done. rewrite Hrel. mrun. rewrite Hgeo. mrun.
  apply IH, Hpre.
Qed.

Lemma parseMorphTargets_loop_other deformerNodes child rest node acc w :
  lookupNode (ID child) deformerNodes = Some node →
  dn_attrType node ≠ Some "BlendShapeChannel" →
  parseMorphTargets_loop deformerNodes acc (child :: rest) w
  = match FullWeights node with
    | Some _ => (Normal None, w)
    | None => (Throw (TypeError "Cannot read property of undefined: a"), w)
    end.
Proof.
  intros Hnode Htype. cbn [parseMorphTargets_loop]. rewrite Hnode. mrun.
  destruct (FullWeights node); mrun; [|done].
  by rewrite decide_False.
Qed.

(** C9 (as amended).  Let the first child of a BlendShape deformer that is
    not a BlendShapeChannel resolve to a deformer node, every child before it
    being a channel that is read without raising.  If that node has
    [FullWeights], [parseMorphTargets] returns [undefined], whatever was
    collected before and whatever follows; if it has none, the read of
    [FullWeights.a], which precedes the test of [attrType], raises a
    [TypeError]. *)
Theorem parseMorphTargets_other_child relationships deformerNodes pre child post node w :
  children relationships = pre ++ child :: post →
  Forall (channelReadable deformerNodes) pre →
  lookupNode (ID child) deformerNodes = Some node →
  dn_attrType node ≠ Some "BlendShapeChannel" →
  (is_Some (FullWeights node) →
   parseMorphTargets relationships deformerNodes w = (Normal None, w))
  ∧ (FullWeights node = None →
     ∃ msg, parseMorphTargets relationships deformerNodes w = (Throw (TypeError msg), w)).
Proof.
  intros Hchildren Hpre Hnode Htype. unfold parseMorphTargets. rewrite Hchildren.
  destruct (parseMorphTargets_loop_channels deformerNodes pre (child :: post) [] w Hpre)
    as [acc' ->].
  rewrite (parseMorphTargets_loop_other _ _ _ _ _ _ Hnode Htype).
  split.
  - by intros [fw ->].
  - intros ->. by eexists.
Qed.

(** ** The deformer registry *)

Lemma onlyTypeError_ret {S A} (a : A) : onlyTypeError (mret a : M S A).
Proof. intros s e s' H. discriminate. Qed.

Lemma onlyTypeError_prop {S A} what (o : option A) : onlyTypeError (@prop S A what o).
Proof. intros s e s' H. destruct o; [discriminate|]. inversion H. by eexists. Qed.

Lemma onlyTypeError_warn {H} msg : onlyTypeError (@warn H msg).
Proof. intros s e s' Hrun. discriminate. Qed.

Lemma onlyTypeError_bind {S A B} (c : M S A) (k : A → M S B) :
  onlyTypeError c → (∀ a, onlyTypeError (k a)) → onlyTypeError (c ≫= k).
Proof.
  intros Hc Hk s e s' Hrun. rewrite bind_run in Hrun.
  destruct (c s) as [[a|e1] s1] eqn:Hcs.
  - by eapply Hk.
  - inversion Hrun; subst. by eapply Hc.
Qed.

Lemma onlyTypeError_foldM {S A B} (body : B → A → M S B) xs :
  (∀ acc x, onlyTypeError (body acc x)) → ∀ acc, onlyTypeError (foldM body acc xs).
Proof.
  intros Hbody. induction xs as [|x xs IH]; intros acc.
  - apply onlyTypeError_ret.
  - cbn [foldM]. apply onlyTypeError_bind; [apply Hbody | apply IH].
Qed.

Ltac only_type_error :=
  repeat first
    [ apply onlyTypeError_ret | apply onlyTypeError_prop | apply onlyTypeError_warn
    | apply onlyTypeError_bind; [|intros ?]
    | case_decide
    | case_match ].

Lemma onlyTypeError_parseBone deformerNodes rawBones child :
  onlyTypeError (parseBone deformerNodes rawBones child).
Proof. unfold parseBone. only_type_error. Qed.

Lemma onlyTypeError_parseSkeleton relationships deformerNodes :
  onlyTypeError (parseSkeleton relationships deformerNodes).
Proof.
  unfold parseSkeleton. apply onlyTypeError_bind.
  - apply onlyTypeError_foldM. intros. apply onlyTypeError_parseBone.
  - intros. apply onlyTypeError_ret.
Qed.

Lemma onlyTypeError_parseMorphTargets_loop deformerNodes rest :
  ∀ acc, onlyTypeError (parseMorphTargets_loop deformerNodes acc rest).
Proof.
  induction rest as [|child rest IH]; intros acc; cbn [parseMorphTargets_loop].
  - apply onlyTypeError_ret.
  - apply onlyTypeError_bind; [apply onlyTypeError_prop | intros node].
    apply onlyTypeError_bind; [apply onlyTypeError_prop | intros fw].
    case_decide; [|apply onlyTypeError_ret].
    apply onlyTypeError_bind; [apply onlyTypeError_prop | intros rel].
    apply onlyTypeError_bind; [apply onlyTypeError_prop | intros geo].
    apply IH.
Qed.

Lemma onlyTypeError_parseDeformer DeformerNodes acc entry :
  onlyTypeError (parseDeformer DeformerNodes acc entry).
Proof.
  destruct entry as [nodeID deformerNode]. unfold parseDeformer.
  repeat case_decide.
  - apply onlyTypeError_bind; [apply onlyTypeError_prop | intros rel].
    apply onlyTypeError_bind; [apply onlyTypeError_parseSkeleton | intros sk].
    only_type_error.
  - apply onlyTypeError_bind; [apply onlyTypeError_prop | intros rel].
    apply onlyTypeError_bind;
      [apply onlyTypeError_parseMorphTargets_loop | intros targets].
    only_type_error.
  - apply onlyTypeError_ret.
Qed.

Lemma parseDeformer_skin_without_parent DeformerNodes acc nodeID deformerNode rel w :
  dn_attrType deformerNode = Some "Skin" →
  connections !! nodeID = Some rel →
  parents rel = [] →
  ∃ e w', parseDeformer DeformerNodes acc (nodeID, deformerNode) w = (Throw e, w').
Proof.
  intros Htype Hrel Hparents. unfold parseDeformer.
  rewrite decide_True by done. rewrite Hrel. mrun.
  destruct (parseSkeleton rel DeformerNodes w) as [[skeleton|e] w1]; [|by eauto].
  rewrite Hparents. cbn [length head]. rewrite decide_False by lia. mrun. by eauto.
Qed.

Lemma parseDeformers_loop_raises DeformerNodes nodeID deformerNode rel rest :
  dn_attrType deformerNode = Some "Skin" →
  connections !! nodeID = Some rel →
  parents rel = [] →
  (nodeID, deformerNode) ∈ rest →
  ∀ acc w, ∃ e w', foldM (parseDeformer DeformerNodes) acc rest w = (Throw e, w').
Proof.
  intros Htype Hrel Hparents. induction rest as [|entry rest IH]; intros Hin acc w.
  - by apply elem_of_nil in Hin.
  - cbn [foldM]. rewrite bind_run. apply elem_of_cons in Hin as [<-|Hin].
    + destruct (parseDeformer_skin_without_parent DeformerNodes acc nodeID deformerNode
                  rel w Htype Hrel Hparents) as (e & w' & ->).
      by eauto.
    + destruct (parseDeformer DeformerNodes acc entry w) as [[acc1|e] w1]; [|by eauto].
      by apply IH.
Qed.

Lemma parseDeformer_skin_with_parent DeformerNodes acc nodeID deformerNode rel p ps
    skeleton w w1 :
  dn_attrType deformerNode = Some "Skin" →
  connections !! nodeID = Some rel →
  parents rel = p :: ps →
  parseSkeleton rel DeformerNodes w = (Normal skeleton, w1) →
  parseDeformer DeformerNodes acc (nodeID, deformerNode) w
  = (Normal {| skeletons := setNode nodeID
                              {| rawBones := rawBones skeleton; bones := bones skeleton;
                                 sk_ID := Some nodeID; geometryID := Some (ID p) |}
                              (skeletons acc);
               morphTargets := morphTargets acc |},
     match ps with
     | [] => w1
     | _ :: _ =>
         mkWorld (console w1 ++
                  ["THREE.FBXLoader: skeleton attached to more than one geometry is not supported."])
                 (heap w1)
     end).
Proof.
  intros Htype Hrel Hparents Hskeleton. unfold parseDeformer.
  rewrite decide_True by done. rewrite Hrel. mrun. rewrite Hskeleton, Hparents.
  destruct ps as [|p' ps]; cbn [length head].
  - rewrite decide_False by lia. by mrun.
  - rewrite decide_True by lia. by mrun.
Qed.

(** C10.  A Skin deformer whose connection entry has no parent makes
    [parseDeformers] raise a [TypeError]: [relationships.parents[0].ID] is
    read without a guard.  A Skin deformer with one parent or more is
    recorded with the ID of its first parent, with a warning when there is
    more than one. *)
Theorem parseDeformers_skin_without_parent :
  (∀ DeformerNodes nodeID deformerNode rel w,
     Deformer_nodes fbxTree_Objects = Some DeformerNodes →
     (nodeID, deformerNode) ∈ DeformerNodes →
     dn_attrType deformerNode = Some "Skin" →
     connections !! nodeID = Some rel →
     parents rel = [] →
     ∃ msg w', parseDeformers w = (Throw (TypeError msg), w'))
  ∧ (∀ DeformerNodes acc nodeID deformerNode rel p ps skeleton w w1,
       dn_attrType deformerNode = Some "Skin" →
       connections !! nodeID = Some rel →
       parents rel = p :: ps →
       parseSkeleton rel DeformerNodes w = (Normal skeleton, w1) →
       ∃ acc' w',
         parseDeformer DeformerNodes acc (nodeID, deformerNode) w = (Normal acc', w')
         ∧ (geometryID <$> lookupNode nodeID (skeletons acc')) = Some (Some (ID p))
         ∧ console w'
           = console w1 ++
             (if decide (ps = []) then []
              else ["THREE.FBXLoader: skeleton attached to more than one geometry is not supported."])).
Proof.
  split.
  - intros DeformerNodes nodeID deformerNode rel w Hnodes Hin Htype Hrel Hparents.
    unfold parseDeformers. rewrite Hnodes.
    destruct (parseDeformers_loop_raises DeformerNodes nodeID deformerNode rel
                DeformerNodes Htype Hrel Hparents Hin
                {| skeletons := []; morphTargets := [] |} w) as (e & w' & Hrun).
    destruct (onlyTypeError_foldM (parseDeformer DeformerNodes) DeformerNodes
                (onlyTypeError_parseDeformer DeformerNodes) _ _ _ _ Hrun) as [msg ->].
    by eauto.
  - intros DeformerNodes acc nodeID deformerNode rel p ps skeleton w w1
      Htype Hrel Hparents Hskeleton.
    rewrite (parseDeformer_skin_with_parent _ acc _ _ _ _ _ _ _ _
               Htype Hrel Hparents Hskeleton).
    eexists _, _. split; [reflexivity|]. split.
    + cbn [skeletons]. generalize (skeletons acc). intros l.
      induction l as [|[k x] l IH]; cbn [setNode lookupNode].
      * by rewrite decide_True.
      * destruct (decide (k = nodeID)) as [->|Hne]; cbn [lookupNode].
        -- by rewrite decide_True.
        -- by rewrite decide_False.
    + destruct ps; cbn; [by rewrite app_nil_r | done].
Qed.

(** ** Cameras *)

Lemma createCamera_attribute attributes cs : ∀ acc (w : World unit),
  NodeAttribute_nodes fbxTree_Objects = Some attributes →
  foldM findAttribute acc cs w
  = (Normal (foldl (λ cameraAttribute child,
                      match lookupNode (ID child) attributes with
                      | Some attr => Some attr
                      | None => cameraAttribute
                      end) acc cs), w).
Proof.
  intros acc w Hattrs. revert acc.
  induction cs as [|child cs IH]; intros acc; [done|].
  cbn [foldM foldl]. rewrite bind_run. unfold findAttribute at 1.
  rewrite Hattrs. mrun. apply IH.
Qed.

(** C3 (what the code does).  For a Camera model whose resolved
    [NodeAttribute] defines [NearPlane] or [FarPlane], [createCamera] builds
    no camera: both clipping planes are declared [const] and then assigned,
    and the assignment raises a [TypeError]. *)
Theorem createCamera_clipping_plane relationships attributes cameraAttribute w :
  NodeAttribute_nodes fbxTree_Objects = Some attributes →
  cameraAttributeOf attributes (children relationships) = Some cameraAttribute →
  is_Some (NearPlane cameraAttribute) ∨ is_Some (FarPlane cameraAttribute) →
  createCamera relationships w = (Throw (TypeError "Assignment to constant variable."), w).
Proof.
  intros Hattrs Hattr Hplane. unfold createCamera.
  rewrite (bind_normal _ _ _ _ _ (createCamera_attribute attributes _ None w Hattrs)).
  fold (cameraAttributeOf attributes (children relationships)). rewrite Hattr.
  cbn zeta. destruct (NearPlane cameraAttribute) as [near|]; [done|].
  destruct Hplane as [[? ?]|[far Hfar]]; [done|]. rewrite Hfar. by mrun.
Qed.

(** Without the two fields the clipping planes keep their defaults. *)
Lemma createCamera_default_planes relationships attributes cameraAttribute w :
  NodeAttribute_nodes fbxTree_Objects = Some attributes →
  cameraAttributeOf attributes (children relationships) = Some cameraAttribute →
  NearPlane cameraAttribute = None →
  FarPlane cameraAttribute = None →
  ∃ camera,
    createCamera relationships w = (Normal camera, w)
    ∧ match camera with
      | PerspectiveCamera _ _ near far _ => near = 1%float ∧ far = 1000%float
      | OrthographicCamera _ _ _ _ near far => near = 1%float ∧ far = 1000%float
      | Object3D_new => False
      end.
Proof.
  intros Hattrs Hattr Hnear Hfar. unfold createCamera.
  rewrite (bind_normal _ _ _ _ _ (createCamera_attribute attributes _ None w Hattrs)).
  fold (cameraAttributeOf attributes (children relationships)). rewrite Hattr.
  cbn zeta. rewrite Hnear, Hfar. mrun.
  case_decide; mrun; eexists; (split; [reflexivity|done]).
Qed.

(** ** The loader *)

(** C7.  A buffer that is not binary and whose text is recognised as ASCII
    FBX with a version below 7000 makes [parse] raise the unsupported-version
    error; a buffer that is neither binary nor recognised as ASCII FBX makes
    it raise the unknown-format error.  In both cases no scene is returned. *)
Theorem FBXLoader_parse_rejects (FBXBuffer : Buffer) :
  (∀ version,
     isFbxFormatBinary FBXBuffer = false →
     isFbxFormatASCII (convertArrayBufferToString FBXBuffer) = true →
     getFbxVersion (convertArrayBufferToString FBXBuffer) = Normal version →
     version < 7000 →
     FBXLoader_parse FBXBuffer
     = Throw (Error ("THREE.FBXLoader: FBX version not supported, FileVersion: "
                     +:+ pretty version)))
  ∧ (isFbxFormatBinary FBXBuffer = false →
     isFbxFormatASCII (convertArrayBufferToString FBXBuffer) = false →
     FBXLoader_parse FBXBuffer = Throw (Error "THREE.FBXLoader: Unknown format.")).
Proof.
  unfold FBXLoader_parse. split.
  - intros version -> -> -> Hlt. cbn. by rewrite decide_True.
  - by intros -> ->.
Qed.

(** ** Meshes *)

Lemma meshMaterials_omap materialMap cs :
  meshMaterials materialMap cs = omap (λ child, materialMap !! ID child) cs.
Proof.
  unfold meshMaterials.
  cut (∀ acc, foldl (λ materials child,
                       match materialMap !! ID child with
                       | Some m => materials ++ [m]
                       | None => materials
                       end) acc cs
              = acc ++ omap (λ child, materialMap !! ID child) cs).
  { intros H. apply (H []). }
  induction cs as [|child cs IH]; intros acc; cbn [foldl omap list_omap].
  - by rewrite app_nil_r.
  - rewrite IH. destruct (materialMap !! ID child); [|done].
    by rewrite <- app_assoc.
Qed.

Lemma omap_filter_is_Some {A B} (f : A → option B) (l : list A) :
  omap f l = omap f (filter (λ x, is_Some (f x)) l).
Proof.
  induction l as [|x l IH]; [done|].
  rewrite filter_cons. cbn [omap list_omap]. destruct (f x) as [y|] eqn:Hfx.
  - rewrite decide_True by by eexists. cbn [omap list_omap]. by rewrite Hfx, IH.
  - rewrite decide_False; [done|]. by intros [? ?].
Qed.

Lemma meshMaterials_children materialMap relationships :
  meshMaterials materialMap (children relationships)
  = omap (λ child, materialMap !! ID child) (materialChildren materialMap relationships).
Proof.
  rewrite meshMaterials_omap. unfold materialChildren.
  apply (omap_filter_is_Some (λ child, materialMap !! ID child)).
Qed.

Lemma materialChildren_lookup materialMap relationships child :
  child ∈ materialChildren materialMap relationships →
  is_Some (materialMap !! ID child).
Proof.
  unfold materialChildren. intros Hin.
  by pose proof (proj1 (list_elem_of_filter _ _ _) Hin) as [? ?].
Qed.

(** C6.  For a Mesh model one of whose children names a geometry: two
    children that name registered materials give the mesh the list of the two
    materials in connection order; no such child gives it one new
    [MeshPhongMaterial] of colour [0xcccccc]; exactly one gives it that
    material itself, not a list. *)
Theorem createMesh_material relationships geometryMap materialMap w gid g :
  meshGeometry geometryMap (children relationships) = Some (gid, g) →
  (∀ c1 c2,
     materialChildren materialMap relationships = [c1; c2] →
     ∃ m1 m2 w',
       materialMap !! ID c1 = Some m1 ∧ materialMap !! ID c2 = Some m2
       ∧ createMesh relationships geometryMap materialMap w
         = (Normal {| isSkinnedMesh := FBX_Deformer g; mesh_geometry := gid;
                      mesh_material := MaterialList [m1; m2] |}, w'))
  ∧ (materialChildren materialMap relationships = [] →
     ∃ m w',
       createMesh relationships geometryMap materialMap w
       = (Normal {| isSkinnedMesh := FBX_Deformer g; mesh_geometry := gid;
                    mesh_material := SingleMaterial (length (heap w)) |}, w')
       ∧ heap w' !! length (heap w) = Some m
       ∧ mat_kind m = MeshPhongMaterial
       ∧ mat_parameters m = [("color", PHex 0xcccccc)])
  ∧ (∀ c,
       materialChildren materialMap relationships = [c] →
       ∃ m w',
         materialMap !! ID c = Some m
         ∧ createMesh relationships geometryMap materialMap w
           = (Normal {| isSkinnedMesh := FBX_Deformer g; mesh_geometry := gid;
                        mesh_material := SingleMaterial m |}, w')).
Proof.
  intros Hgeo. unfold createMesh. rewrite Hgeo, meshMaterials_children.
  split_and!.
  - intros c1 c2 Hmc.
    destruct (materialChildren_lookup materialMap relationships c1) as [m1 Hm1];
      [rewrite Hmc; set_solver|].
    destruct (materialChildren_lookup materialMap relationships c2) as [m2 Hm2];
      [rewrite Hmc; set_solver|].
    exists m1, m2. rewrite Hmc. cbn [omap list_omap]. rewrite Hm1, Hm2.
    cbn [length]. rewrite decide_True by lia. mrun.
    destruct w as [log h], g as [[] []]; cbn; eauto.
  - intros Hmc. rewrite Hmc. cbn [omap list_omap length].
    rewrite decide_False by lia.
    destruct w as [log h], g as [[] []]; cbn; eexists _, _;
      (split; [reflexivity|]); cbn [heap];
      rewrite ?list_lookup_alter_eq, lookup_app_r, Nat.sub_diag by lia; done.
  - intros c Hmc.
    destruct (materialChildren_lookup materialMap relationships c) as [m Hm];
      [rewrite Hmc; set_solver|].
    exists m. rewrite Hmc. cbn [omap list_omap]. rewrite Hm.
    cbn [length]. rewrite decide_False by lia.
    destruct w as [log h], g as [[] []]; cbn; eauto.
Qed.

(** ** Hierarchy assembly *)

Lemma removeFirst_elem {A} `{EqDecision A} (x y : A) (l : list A) :
  x ∈ l → x ≠ y → x ∈ removeFirst y l.
Proof.
  intros Hin Hne. induction l as [|z l IH]; [by apply elem_of_nil in Hin|].
  cbn [removeFirst]. apply elem_of_cons in Hin as [<-|Hin].
  - rewrite decide_False by done. by left.
  - case_decide; [done|]. right. by apply IH.
Qed.

Lemma sameLink_refl h o : sameLink h h o.
Proof. by split. Qed.

Lemma sameLink_trans h1 h2 h3 o : sameLink h1 h2 o → sameLink h2 h3 o → sameLink h1 h3 o.
Proof. intros [Hp1 Hk1] [Hp2 Hk2]. split; [congruence | by eauto]. Qed.

Lemma frame_refl moved h : frame moved h h.
Proof. intros o _. apply sameLink_refl. Qed.

Lemma frame_trans moved h1 h2 h3 :
  frame moved h1 h2 → frame moved h2 h3 → frame moved h1 h3.
Proof. intros H1 H2 o Ho. by eapply sameLink_trans; [apply H1 | apply H2]. Qed.

Lemma frame_weaken (moved moved' : Obj → Prop) h h' :
  (∀ o, moved o → moved' o) → frame moved h h' → frame moved' h h'.
Proof. intros Hsub Hf o Ho. apply Hf. by eauto. Qed.

Lemma frame_attached moved h h' child parent :
  frame moved h h' → ¬ moved child → attached h child parent → attached h' child parent.
Proof.
  intros Hf Hchild [Hp Hk]. destruct (Hf child Hchild) as [Hp' Hk'].
  split; [congruence | by apply Hk'].
Qed.

Lemma Object3D_remove_frame this object h :
  frame (λ o, o = object) h (Object3D_remove this object h).
Proof.
  intros o Ho. unfold Object3D_remove. case_decide; [|apply sameLink_refl].
  split; cbn [parentOf childrenOf].
  - by rewrite lookup_delete_ne.
  - intros p Hin. unfold kids at 1. cbn [childrenOf]. rewrite lookup_insert.
    case_decide as Hp; [subst p | exact Hin]. cbn [default].
    by apply removeFirst_elem.
Qed.

Lemma Object3D_add_self (o : Obj) (w : World Hierarchy) :
  ∃ w', Object3D_add o o w = (Normal tt, w') ∧ heap w' = heap w.
Proof. unfold Object3D_add. rewrite decide_True by done. by eexists. Qed.

Lemma Object3D_add_other (this object : Obj) (w : World Hierarchy) :
  object ≠ this →
  ∃ w', Object3D_add this object w = (Normal tt, w')
        ∧ frame (λ o, o = object) (heap w) (heap w')
        ∧ attached (heap w') object this.
Proof.
  intros Hne. unfold Object3D_add. rewrite decide_False by done.
  unfold getHeap, setHeap, modify. mrun.
  set (h1 := match parentOf (heap w) !! object with
             | Some p => Object3D_remove p object (heap w)
             | None => heap w
             end).
  assert (Hh1 : frame (λ o, o = object) (heap w) h1).
  { unfold h1. destruct (parentOf (heap w) !! object);
      [apply Object3D_remove_frame | apply frame_refl]. }
  eexists. split; [reflexivity|]. cbn [heap]. split.
  - intros o Ho. destruct (Hh1 o Ho) as [Hp Hk]. split; cbn [parentOf childrenOf].
    + by rewrite lookup_insert_ne.
    + intros p Hin. unfold kids at 1. cbn [childrenOf]. rewrite lookup_insert.
      case_decide as Hp'; [subst p | by apply Hk]. cbn [default].
      apply elem_of_app. left. by apply Hk.
  - split; cbn [parentOf childrenOf].
    + by rewrite lookup_insert_eq.
    + unfold kids at 1. cbn [childrenOf]. rewrite lookup_insert_eq. cbn [default].
      apply elem_of_app. right. by left.
Qed.

Lemma steps_ret (R : Hierarchy → Hierarchy → Prop) :
  (∀ h, R h h) → steps R (mret tt).
Proof. intros Hrefl w. by exists w. Qed.

Lemma steps_bind (R : Hierarchy → Hierarchy → Prop) (c k : M (World Hierarchy) unit) :
  (∀ h1 h2 h3, R h1 h2 → R h2 h3 → R h1 h3) →
  steps R c → steps R k → steps R (c;; k).
Proof.
  intros Htrans Hc Hk w. destruct (Hc w) as (w1 & Hrun1 & HR1).
  destruct (Hk w1) as (w2 & Hrun2 & HR2). exists w2.
  split; [by rewrite (bind_normal _ _ _ _ _ Hrun1) | by eauto].
Qed.

Lemma steps_forEach {A} (R : Hierarchy → Hierarchy → Prop)
    (body : A → M (World Hierarchy) unit) (xs : list A) :
  (∀ h, R h h) →
  (∀ h1 h2 h3, R h1 h2 → R h2 h3 → R h1 h3) →
  Forall (λ x, steps R (body x)) xs →
  steps R (forEach body xs).
Proof.
  intros Hrefl Htrans Hall. induction Hall as [|x xs Hx Hxs IH]; cbn [forEach].
  - by apply steps_ret.
  - by apply steps_bind.
Qed.

Lemma setLookAtProperties_steps modelNodes id kind :
  Model_nodes fbxTree_Objects = Some modelNodes →
  lookAtReadable modelNodes id →
  steps (frame (λ o, o = TargetObj id))
        (setLookAtProperties id kind (lookupNode id modelNodes)).
Proof.
  intros Hmodels (node & Hnode & Hlook). unfold setLookAtProperties. rewrite Hnode.
  intros w. mrun. destruct (LookAtProperty node) eqn:Hprop.
  2:{ exists w. split; [done | apply frame_refl]. }
  destruct (Hlook eq_refl) as (rel & Hrel & Hchildren). rewrite Hrel. mrun.
  revert w.
  apply (steps_forEach (frame (λ o, o = TargetObj id)));
    [apply frame_refl | apply frame_trans |].
  eapply Forall_impl; [exact Hchildren|]. intros child Hchild. cbn beta.
  case_decide as Hrelationship; [|apply steps_ret, frame_refl].
  destruct (Hchild Hrelationship) as [target Htarget].
  intros w. rewrite Hmodels. mrun. rewrite Htarget. mrun.
  destruct (Lcl_Translation target) as [pos|]; [|exists w; split; [done | apply frame_refl]].
  destruct (hasTarget kind).
  - unfold getHeap, setHeap, modify. mrun.
    match goal with |- context [Object3D_add ?a ?b ?w0] =>
      destruct (Object3D_add_other a b w0 ltac:(done)) as (w' & Hrun & Hframe & _)
    end.
    exists w'. by split.
  - unfold getHeap, setHeap, modify. mrun. eexists. split; [reflexivity|].
    intros o _. by split.
Qed.

Lemma lastResolvedParent_cons modelMap id c ps :
  lastResolvedParent modelMap id (c :: ps)
  = match lastResolvedParent modelMap id ps with
    | Some p => Some p
    | None => if decide (ID c ≠ id ∧ is_Some (lookupNode (ID c) modelMap))
              then Some (ID c) else None
    end.
Proof.
  unfold lastResolvedParent. rewrite fmap_cons, filter_cons.
  case_decide; [by rewrite last_cons|].
  by destruct (last _).
Qed.

Lemma attachToParents_spec modelMap id ps : ∀ w,
  ∃ w', attachToParents modelMap id ps w = (Normal tt, w')
        ∧ frame (λ o, o = ModelObj id) (heap w) (heap w')
        ∧ match lastResolvedParent modelMap id ps with
          | Some p => attached (heap w') (ModelObj id) (ModelObj p)
          | None => heap w' = heap w
          end.
Proof.
  induction ps as [|c ps IH]; intros w.
  - exists w. split; [done|]. split; [apply frame_refl | done].
  - unfold attachToParents in *. cbn [forEach]. rewrite lastResolvedParent_cons.
    assert (∃ w1,
              match lookupNode (ID c) modelMap with
              | Some _ => Object3D_add (ModelObj (ID c)) (ModelObj id)
              | None => mret tt
              end w = (Normal tt, w1)
              ∧ frame (λ o, o = ModelObj id) (heap w) (heap w1)
              ∧ if decide (ID c ≠ id ∧ is_Some (lookupNode (ID c) modelMap))
                then attached (heap w1) (ModelObj id) (ModelObj (ID c))
                else heap w1 = heap w) as (w1 & Hrun1 & Hframe1 & Hlink1).
    { destruct (lookupNode (ID c) modelMap) as [k|] eqn:Hk.
      - destruct (decide (ID c = id)) as [Hself|Hother].
        + rewrite Hself. destruct (Object3D_add_self (ModelObj id) w) as (w1 & Hrun & Hheap).
          exists w1. split; [done|]. split; [rewrite Hheap; apply frame_refl|].
          rewrite decide_False by tauto. done.
        + destruct (Object3D_add_other (ModelObj (ID c)) (ModelObj id) w)
            as (w1 & Hrun & Hframe & Hattached); [congruence|].
          exists w1. split; [done|]. split; [done|].
          rewrite decide_True; [done|]. split; [done | by eexists].
      - exists w. split; [done|]. split; [apply frame_refl|].
        rewrite decide_False; [done|]. intros [_ [? ?]]. done. }
    destruct (IH w1) as (w' & Hrun & Hframe & Hlink).
    exists w'. split; [by rewrite (bind_normal _ _ _ _ _ Hrun1)|].
    split; [by eapply frame_trans|].
    destruct (lastResolvedParent modelMap id ps) as [p|]; [done|].
    rewrite Hlink. by case_decide.
Qed.

Lemma attachModel_spec modelMap modelNodes id kind rel w :
  Model_nodes fbxTree_Objects = Some modelNodes →
  lookAtReadable modelNodes id →
  connections !! id = Some rel →
  parentOf (heap w) !! ModelObj id = None →
  ∃ w', attachModel modelMap (id, kind) w = (Normal tt, w')
        ∧ frame (λ o, o = ModelObj id ∨ o = TargetObj id) (heap w) (heap w')
        ∧ attached (heap w') (ModelObj id) (assembledParent modelMap id rel).
Proof.
  intros Hmodels Hlook Hrel Hroot. unfold attachModel, assembledParent. cbn [fst snd].
  rewrite Hmodels. mrun.
  destruct (setLookAtProperties_steps modelNodes id kind Hmodels Hlook w)
    as (w1 & Hrun1 & Hframe1).
  rewrite Hrun1, Hrel. mrun.
  destruct (attachToParents_spec modelMap id (parents rel) w1) as (w2 & Hrun2 & Hframe2 & Hlink).
  rewrite Hrun2. unfold getHeap. mrun.
  assert (Hroot1 : parentOf (heap w1) !! ModelObj id = None).
  { destruct (Hframe1 (ModelObj id)) as [Hp _]; [done | congruence]. }
  assert (Hframe12 : frame (λ o, o = ModelObj id ∨ o = TargetObj id) (heap w) (heap w2)).
  { eapply frame_trans; (eapply frame_weaken; [|eassumption]); cbn; tauto. }
  destruct (lastResolvedParent modelMap id (parents rel)) as [p|].
  - pose proof Hlink as [Hp Hk]. rewrite Hp. exists w2.
    split; [done|]. split; [exact Hframe12 | exact Hlink].
  - rewrite Hlink, Hroot1.
    destruct (Object3D_add_other SceneGraph (ModelObj id) w2) as (w3 & Hrun3 & Hframe3 & Hatt);
      [done|].
    exists w3. split; [done|]. split; [|done].
    eapply frame_trans; [exact Hframe12|].
    eapply frame_weaken; [|exact Hframe3]. cbn; tauto.
Qed.

Lemma assembleHierarchy_spec modelMap modelNodes rest :
  Model_nodes fbxTree_Objects = Some modelNodes →
  NoDup rest.*1 →
  ∀ w,
    (∀ id kind, (id, kind) ∈ rest →
       parentOf (heap w) !! ModelObj id = None
       ∧ is_Some (connections !! id)
       ∧ lookAtReadable modelNodes id) →
    ∃ w', forEach (attachModel modelMap) rest w = (Normal tt, w')
          ∧ frame (ownedBy rest) (heap w) (heap w')
          ∧ ∀ id kind rel,
              (id, kind) ∈ rest → connections !! id = Some rel →
              attached (heap w') (ModelObj id) (assembledParent modelMap id rel).
Proof.
  intros Hmodels. induction rest as [|[id kind] rest IH]; intros Hnodup w Hready.
  - exists w. split; [done|]. split; [apply frame_refl|].
    intros ? ? ? Hin. by apply elem_of_nil in Hin.
  - cbn [fmap list_fmap fst] in Hnodup. apply NoDup_cons in Hnodup as [Hfresh Hnodup].
    destruct (Hready id kind) as (Hroot & [rel Hrel] & Hlook); [by left|].
    destruct (attachModel_spec modelMap modelNodes id kind rel w Hmodels Hlook Hrel Hroot)
      as (w1 & Hrun1 & Hframe1 & Hattached1).
    destruct (IH Hnodup w1) as (w' & Hrun & Hframe & Hattached).
    { intros id' kind' Hin'. destruct (Hready id' kind') as (Hroot' & Hconn' & Hlook');
        [by right|].
      split; [|done].
      destruct (Hframe1 (ModelObj id')) as [Hp _]; [|congruence].
      intros [Heq|Heq]; [|done]. inversion Heq; subst.
      apply Hfresh. apply list_elem_of_fmap. by exists (id, kind'). }
    exists w'. split; [cbn [forEach]; by rewrite (bind_normal _ _ _ _ _ Hrun1)|].
    split.
    + eapply frame_trans.
      * eapply frame_weaken; [|exact Hframe1]. intros o Ho. exists id.
        split; [done|]. cbn. by left.
      * eapply frame_weaken; [|exact Hframe]. intros o (id' & Ho & Hin').
        exists id'. split; [done|]. cbn. by right.
    + intros id' kind' rel' Hin' Hrel'. apply elem_of_cons in Hin' as [Heq|Hin'].
      * inversion Heq; subst. assert (rel' = rel) as -> by congruence.
        eapply frame_attached; [exact Hframe| |exact Hattached1].
        intros (id'' & [Ho|Ho] & Hin''); [|done]. inversion Ho; subst. by apply Hfresh.
      * by eapply Hattached.
Qed.

(** C2 (as amended).  Let every constructed model start without a parent,
    have a connection entry, and be readable by [setLookAtProperties].
    Hierarchy assembly then returns normally, and every model is attached to
    the last entry of its parent list that resolves to a constructed model
    other than itself; if there is none it is attached to the scene root. *)
Theorem assembleHierarchy_parent modelMap modelNodes w :
  Model_nodes fbxTree_Objects = Some modelNodes →
  NoDup modelMap.*1 →
  (∀ id kind, (id, kind) ∈ modelMap →
     parentOf (heap w) !! ModelObj id = None
     ∧ is_Some (connections !! id)
     ∧ lookAtReadable modelNodes id) →
  ∃ w', assembleHierarchy modelMap w = (Normal tt, w')
        ∧ ∀ id kind rel,
            (id, kind) ∈ modelMap → connections !! id = Some rel →
            attached (heap w') (ModelObj id)
              (match lastResolvedParent modelMap id (parents rel) with
               | Some p => ModelObj p
               | None => SceneGraph
               end).
Proof.
  intros Hmodels Hnodup Hready.
  destruct (assembleHierarchy_spec modelMap modelNodes modelMap Hmodels Hnodup w Hready)
    as (w' & Hrun & _ & Hattached).
  exists w'. split; [exact Hrun | exact Hattached].
Qed.

(** * Further properties of the passes *)

(** ** Connection graph: the two directions agree *)

Lemma elem_of_parentEdges a b l raw :
  mkEdge b l ∈ parentEdges a raw ↔ mkConn a b l ∈ raw.
Proof.
  unfold parentEdges. rewrite list_elem_of_fmap. split.
  - intros ([f t r] & Heq & Hin). apply list_elem_of_filter in Hin as [Hfrom Hin].
    cbn in *. inversion Heq; subst. exact Hin.
  - intros Hin. exists (mkConn a b l). split; [reflexivity|].
    by apply list_elem_of_filter.
Qed.

Lemma elem_of_childEdges a b l raw :
  mkEdge a l ∈ childEdges b raw ↔ mkConn a b l ∈ raw.
Proof.
  unfold childEdges. rewrite list_elem_of_fmap. split.
  - intros ([f t r] & Heq & Hin). apply list_elem_of_filter in Hin as [Hto Hin].
    cbn in *. inversion Heq; subst. exact Hin.
  - intros Hin. exists (mkConn a b l). split; [reflexivity|].
    by apply list_elem_of_filter.
Qed.

Lemma parseConnections_parent_edge raw a b l :
  (∃ r, parseConnections (Some raw) !! a = Some r ∧ mkEdge b l ∈ parents r)
  ↔ mkConn a b l ∈ raw.
Proof.
  pose proof (parseConnections_graphOf raw a) as Hg. split.
  - intros (r & Hr & Hin). rewrite Hr in Hg. destruct Hg as (_ & Hp & _).
    rewrite Hp in Hin. by apply elem_of_parentEdges.
  - intros Hin. destruct (parseConnections (Some raw) !! a) as [r|].
    + exists r. split; [done|]. destruct Hg as (_ & -> & _). by apply elem_of_parentEdges.
    + exfalso. apply Hg. exists (mkConn a b l). split; [done | by left].
Qed.

Lemma parseConnections_child_edge raw a b l :
  (∃ r, parseConnections (Some raw) !! b = Some r ∧ mkEdge a l ∈ children r)
  ↔ mkConn a b l ∈ raw.
Proof.
  pose proof (parseConnections_graphOf raw b) as Hg. split.
  - intros (r & Hr & Hin). rewrite Hr in Hg. destruct Hg as (_ & _ & Hc).
    rewrite Hc in Hin. by apply elem_of_childEdges.
  - intros Hin. destruct (parseConnections (Some raw) !! b) as [r|].
    + exists r. split; [done|]. destruct Hg as (_ & _ & ->). by apply elem_of_childEdges.
    + exfalso. apply Hg. exists (mkConn a b l). split; [done | by right].
Qed.

(** X1.  The two directions of the connection graph agree: [b] is listed
    among the parents of [a] with a label exactly when [a] is listed among
    the children of [b] with that label, and exactly when the input holds the
    connection from [a] to [b] with that label. *)
Theorem parseConnections_mirror (raw : list RawConnection) (a b : Z) (l : Label) :
  ((∃ r, parseConnections (Some raw) !! a = Some r ∧ mkEdge b l ∈ parents r)
   ↔ (∃ r, parseConnections (Some raw) !! b = Some r ∧ mkEdge a l ∈ children r))
  ∧ ((∃ r, parseConnections (Some raw) !! a = Some r ∧ mkEdge b l ∈ parents r)
     ↔ mkConn a b l ∈ raw).
Proof.
  split; [|apply parseConnections_parent_edge].
  rewrite parseConnections_parent_edge. symmetry. apply parseConnections_child_edge.
Qed.

(** ** Textures: the loader path, and unreadable texture nodes *)

Lemma loadTexture_path textureNode images w :
  ∃ r w', loadTexture textureNode images w = (r, w')
    ∧ match r with
      | Normal _ => heap w' = heap w
      | Throw e =>
          (∃ msg, e = TypeError msg)
          ∧ (connections !! tn_id textureNode = None → w' = w)
      end.
Proof.
  unfold loadTexture, getHeap, setHeap, warn, modify. mrun.
  destruct (connections !! tn_id textureNode) as [rel|]; mrun;
    [|eexists _, _; split; [reflexivity|]; split; [by eexists | done]].
  destruct (children rel) as [|child ?]; mrun.
  2: destruct (images !! ID child) as [f|]; mrun.
  2: destruct (startsWith "blob:" f || startsWith "data:" f); mrun.
  all: destruct (FileName textureNode) as [name|]; mrun.
  all: repeat case_decide; mrun.
  all: try destruct tgaHandler; mrun.
  all: eexists _, _; (split; [reflexivity|]); cbn; try done.
  all: split; [by eexists | done].
Qed.

(** X2.  A texture that is parsed leaves [textureLoader.path] as it found
    it, also when the path was set to [undefined] to load an embedded image. *)
Theorem parseTexture_restores_path textureNode images w texture w' :
  parseTexture textureNode images w = (Normal texture, w') →
  heap w' = heap w.
Proof.
  unfold parseTexture. rewrite bind_run.
  destruct (loadTexture_path textureNode images w) as (r & w1 & Hrun & Hr).
  rewrite Hrun. destruct r as [t|e]; [|discriminate].
  rewrite ret_run. intros Heq. inversion Heq; subst. exact Hr.
Qed.

(** X3.  When the image of a texture is embedded (a [blob:] or [data:]
    URI) and the texture node has no [FileName], [loadTexture] raises after it
    has set the loader path to [undefined], and the path stays lost. *)
Theorem loadTexture_loses_path textureNode images w rel child rest f :
  connections !! tn_id textureNode = Some rel →
  children rel = child :: rest →
  images !! ID child = Some f →
  startsWith "blob:" f || startsWith "data:" f = true →
  FileName textureNode = None →
  ∃ msg, loadTexture textureNode images w
         = (Throw (TypeError msg), mkWorld (console w) None).
Proof.
  intros Hrel Hchildren Himage Huri Hname.
  unfold loadTexture, getHeap, setHeap, warn, modify. mrun.
  rewrite Hrel. mrun. rewrite Hchildren, Himage. mrun. rewrite Huri. mrun.
  rewrite Hname. mrun. by eexists.
Qed.

Lemma onlyTypeError_parseTexture textureNode images :
  onlyTypeError (parseTexture textureNode images).
Proof.
  intros w e w' Hrun. unfold parseTexture in Hrun. rewrite bind_run in Hrun.
  destruct (loadTexture_path textureNode images w) as (r & w1 & Hload & Hr).
  rewrite Hload in Hrun. destruct r as [t|e1]; [discriminate|].
  inversion Hrun; subst. by destruct Hr.
Qed.

Lemma parseTexture_unconnected_raises textureNode images w :
  connections !! tn_id textureNode = None →
  ∃ e, parseTexture textureNode images w = (Throw e, w).
Proof.
  intros Hnone. unfold parseTexture, loadTexture, getHeap. mrun.
  rewrite Hnone. mrun. by eexists.
Qed.

Lemma parseTextures_loop_raises images textureNode k rest :
  connections !! tn_id textureNode = None →
  (k, textureNode) ∈ rest →
  ∀ acc w, ∃ e w',
    foldM (registerTexture images) acc rest w = (Throw e, w').
Proof.
  intros Hnone. induction rest as [|[k' n'] rest IH]; intros Hin acc w.
  - by apply elem_of_nil in Hin.
  - cbn [foldM]. rewrite bind_run. unfold registerTexture at 1. rewrite bind_run.
    apply elem_of_cons in Hin as [Heq|Hin].
    + inversion Heq; subst.
      destruct (parseTexture_unconnected_raises n' images w Hnone) as [e ->]. by eauto.
    + destruct (parseTexture n' images w) as [[t|e] w1]; [|by eauto].
      rewrite ret_run. by apply IH.
Qed.

Lemma parseTextures_unfold images textureNodes :
  Texture_nodes fbxTree_Objects = Some textureNodes →
  parseTextures images = foldM (registerTexture images) ∅ textureNodes.
Proof. intros H. unfold parseTextures. rewrite H. reflexivity. Qed.

Lemma onlyTypeError_registerTexture images acc entry :
  onlyTypeError (registerTexture images acc entry).
Proof.
  destruct entry as [k n]. unfold registerTexture.
  apply onlyTypeError_bind; [apply onlyTypeError_parseTexture|].
  intros. apply onlyTypeError_ret.
Qed.

(** X4.  A Texture node whose ID has no entry in the connection graph makes
    [parseTextures] raise a [TypeError]: unlike an unused material, an unused
    texture is not skipped. *)
Theorem parseTextures_unconnected_node images textureNodes k textureNode w :
  Texture_nodes fbxTree_Objects = Some textureNodes →
  (k, textureNode) ∈ textureNodes →
  connections !! tn_id textureNode = None →
  ∃ msg w', parseTextures images w = (Throw (TypeError msg), w').
Proof.
  intros Hnodes Hin Hnone. rewrite (parseTextures_unfold _ _ Hnodes).
  destruct (parseTextures_loop_raises images textureNode k textureNodes Hnone Hin ∅ w)
    as (e & w' & Hrun).
  destruct (onlyTypeError_foldM (registerTexture images) textureNodes
              (onlyTypeError_registerTexture images) _ _ _ _ Hrun) as [msg ->].
  by eauto.
Qed.

Lemma parseTexture_fields textureNode images w texture w' :
  parseTexture textureNode images w = (Normal texture, w') →
  tex_ID texture = Some (tn_id textureNode)
  ∧ tex_name texture = tn_attrName textureNode.
Proof.
  unfold parseTexture. rewrite bind_run.
  destruct (loadTexture textureNode images w) as [[t|e] w1]; [|discriminate].
  rewrite ret_run. intros Heq. by inversion Heq; subst.
Qed.

Lemma registerTexture_entries images rest : ∀ acc w acc' w',
  foldM (registerTexture images) acc rest w = (Normal acc', w') →
  (∀ k, is_Some (acc' !! k) ↔ is_Some (acc !! k) ∨ k ∈ rest.*1)
  ∧ (∀ k t, acc' !! k = Some t →
       acc !! k = Some t
       ∨ ∃ node, (k, node) ∈ rest
                 ∧ tex_ID t = Some (tn_id node) ∧ tex_name t = tn_attrName node).
Proof.
  induction rest as [|[k0 n0] rest IH]; intros acc w acc' w' Hrun.
  - cbn in Hrun. inversion Hrun; subst. split.
    + intros k. cbn. rewrite elem_of_nil. tauto.
    + intros k t Hk. by left.
  - cbn [foldM] in Hrun. rewrite bind_run in Hrun. unfold registerTexture at 1 in Hrun.
    rewrite bind_run in Hrun.
    destruct (parseTexture n0 images w) as [[t0|e] w1] eqn:Hparse; [|discriminate].
    rewrite ret_run in Hrun. destruct (IH _ _ _ _ Hrun) as [Hdom Hentries].
    destruct (parseTexture_fields _ _ _ _ _ Hparse) as [Hid Hname]. split.
    + intros k. rewrite Hdom, fmap_cons, elem_of_cons. cbn [fst].
      rewrite lookup_insert. case_decide as Hk.
      * subst. split; [intros _; right; by left | intros _; left; by eexists].
      * split; intros [?|?]; try tauto. destruct H as [?|?]; [congruence | tauto].
    + intros k t Hk. destruct (Hentries k t Hk) as [Hacc|(node & Hin & Hfields)].
      * rewrite lookup_insert in Hacc. case_decide as Hk0.
        -- inversion Hacc; subst. right. exists n0. split; [by left | done].
        -- by left.
      * right. exists node. split; [by right | done].
Qed.

(** X5.  The texture registry that [parseTextures] returns has an entry
    for exactly the keys of the Texture nodes, and every entry carries the ID
    and the name of a node stored under its key. *)
Theorem parseTextures_registry images textureNodes w textureMap w' :
  Texture_nodes fbxTree_Objects = Some textureNodes →
  parseTextures images w = (Normal textureMap, w') →
  (∀ k, is_Some (textureMap !! k) ↔ k ∈ textureNodes.*1)
  ∧ (∀ k t, textureMap !! k = Some t →
       ∃ node, (k, node) ∈ textureNodes
               ∧ tex_ID t = Some (tn_id node) ∧ tex_name t = tn_attrName node).
Proof.
  intros Hnodes Hrun. rewrite (parseTextures_unfold _ _ Hnodes) in Hrun.
  destruct (registerTexture_entries _ _ _ _ _ _ Hrun) as [Hdom Hentries]. split.
  - intros k. rewrite Hdom, lookup_empty. split; [intros [[? ?]|?]; done | by right].
  - intros k t Hk. destruct (Hentries k t Hk) as [Hempty|?]; [|done].
    by rewrite lookup_empty in Hempty.
Qed.

(** ** Images *)



(** A video whose file extension is not in the table is not an error:
    [parseImage] warns and returns [undefined]. *)
Lemma parseImage_unsupported videoNode w fileName :
  videoFileName videoNode = Some fileName →
  imageTypeOf (toLowerCase (afterLast "." fileName)) = None →
  ∃ msg, parseImage videoNode w = (Normal None, mkWorld (console w ++ [msg]) (heap w)).
Proof.
  intros Hname Htype. unfold parseImage. unfold videoFileName in Hname.
  rewrite Hname. mrun. rewrite Htype. unfold warn, modify. mrun. by eexists.
Qed.

Lemma setNode_fresh {A} (k : Z) (a : A) (l : list (Z * A)) :
  k ∉ l.*1 → setNode k a l = l ++ [(k, a)].
Proof.
  induction l as [|[k' b] l IH]; intros Hfresh; [done|].
  cbn [setNode]. cbn in Hfresh. apply not_elem_of_cons in Hfresh as [Hne Hfresh].
  rewrite decide_False by done. cbn. by rewrite IH.
Qed.


Lemma parseVideo_without_content st k vn w :
  withoutContent vn →
  parseVideo st (k, vn) w = (Normal (setNode k (videoFileName vn) st.1, st.2), w).
Proof.
  unfold withoutContent, parseVideo, videoFileName.
  destruct (vn_Content vn) as [c|]; [intros ->|]; done.
Qed.


Lemma parseVideos_without_content rest : ∀ st w,
  NoDup (st.1.*1 ++ rest.*1) →
  Forall (λ entry, withoutContent entry.2) rest →
  foldM parseVideo st rest w
  = (Normal (st.1 ++ ((λ entry, (entry.1, videoFileName entry.2)) <$> rest), st.2), w).
Proof.
  induction rest as [|[k vn] rest IH]; intros st w Hnodup Hall.
  - cbn. by rewrite app_nil_r, <- surjective_pairing.
  - inversion Hall as [|? ? Hvn Hrest]; subst. cbn [foldM].
    rewrite (bind_normal _ _ _ _ _ (parseVideo_without_content st k vn w Hvn)).
    assert (Hfresh : k ∉ st.1.*1).
    { intros Hin. apply NoDup_app in Hnodup as (_ & Hdisj & _).
      apply (Hdisj k Hin). cbn. by left. }
    rewrite setNode_fresh by done. rewrite IH; [| |done]; cbn [fst snd].
    + by rewrite <- app_assoc.
    + rewrite fmap_app, <- app_assoc. exact Hnodup.
Qed.

Lemma resolveImages_result blobs images : ∀ resolved w resolved' w',
  foldM (resolveImage blobs) resolved images w = (Normal resolved', w') →
  w' = w
  ∧ ∃ new, resolved' = resolved ++ new
           ∧ Forall2 (λ entry r, r.1 = entry.1 ∧ resolvedName blobs entry.2 = Some r.2)
                     images new.
Proof.
  induction images as [|[k fn] images IH]; intros resolved w resolved' w' Hrun.
  - cbn in Hrun. inversion Hrun; subst. split; [done|]. exists [].
    by rewrite app_nil_r.
  - cbn [foldM] in Hrun. rewrite bind_run in Hrun. unfold resolveImage at 1 in Hrun.
    assert (∃ v, resolvedName blobs fn = Some v
                 ∧ foldM (resolveImage blobs) (resolved ++ [(k, v)]) images w
                   = (Normal resolved', w')) as (v & Hv & Hrest).
    { unfold resolvedName. destruct (getBlob blobs (keyOf fn)) as [blob|].
      - rewrite ret_run in Hrun. by exists blob.
      - destruct fn as [name|]; [|discriminate].
        rewrite bind_run, prop_some in Hrun. cbn beta iota in Hrun.
        rewrite ret_run in Hrun. by eexists. }
    destruct (IH _ _ _ _ Hrest) as (-> & new & -> & Hall). split; [done|].
    exists ((k, v) :: new). split; [by rewrite <- app_assoc|].
    by constructor.
Qed.

Lemma resolveImages_named blobs images : ∀ resolved w,
  Forall (λ entry, is_Some (resolvedName blobs entry.2)) images →
  ∃ new, foldM (resolveImage blobs) resolved images w = (Normal (resolved ++ new), w).
Proof.
  induction images as [|[k fn] images IH]; intros resolved w Hall.
  - exists []. by rewrite app_nil_r.
  - inversion Hall as [|? ? [v Hv] Hrest]; subst. cbn [foldM]. rewrite bind_run.
    unfold resolveImage at 1. unfold resolvedName in Hv. cbn [snd] in Hv.
    destruct (getBlob blobs (keyOf fn)) as [blob|].
    + rewrite ret_run. destruct (IH (resolved ++ [(k, blob)]) w Hrest) as [new ->].
      exists ((k, blob) :: new). by rewrite <- app_assoc.
    + destruct fn as [name|]; [|discriminate]. mrun.
      destruct (IH (resolved ++ [(k, ImageURL (afterLast "\" name))]) w Hrest)
        as [new ->].
      exists ((k, ImageURL (afterLast "\" name)) :: new). by rewrite <- app_assoc.
Qed.

Lemma resolved_lookup blobs (images : list (Z * option string))
    (new : list (Z * ImageValue)) :
  NoDup images.*1 →
  Forall2 (λ entry r, r.1 = entry.1 ∧ resolvedName blobs entry.2 = Some r.2) images new →
  ∀ k fn, (k, fn) ∈ images →
    (list_to_map new : gmap Z ImageValue) !! k = resolvedName blobs fn.
Proof.
  intros Hnodup Hall k fn Hin.
  assert (Hkeys : new.*1 = images.*1).
  { clear Hnodup Hin. induction Hall as [|? ? ? ? [Hk _] _ IH]; [done|].
    cbn. by rewrite Hk, IH. }
  apply list_elem_of_lookup in Hin as [i Hi].
  destruct (Forall2_lookup_l _ _ _ _ _ Hall Hi) as ([k' v] & Hnew & Hk & Hv).
  cbn in Hk, Hv. subst k'. rewrite Hv.
  apply elem_of_list_to_map_1; [by rewrite Hkeys|].
  apply list_elem_of_lookup. by exists i.
Qed.



(** Without embedded images, a file name resolves to its part after the last
    backslash, unless it is a name that [blobs] inherits. *)
Lemma resolvedName_plain name :
  name ∉ inheritedNames →
  resolvedName ∅ (Some name) = Some (ImageURL (afterLast "\" name)).
Proof.
  intros Hname. unfold resolvedName, getBlob. cbn [keyOf default from_option id].
  by rewrite lookup_empty, decide_False.
Qed.

(** X7.  When no video has content and every video has a file name that is
    no inherited property name, every video is registered under its ID with
    the text of its file name after the last backslash, and nothing is
    logged. *)
Theorem parseImages_file_names videoNodes w :
  fbxTree_Video = Some videoNodes →
  NoDup videoNodes.*1 →
  Forall (λ entry, withoutContent entry.2
                   ∧ ∃ name, videoFileName entry.2 = Some name
                             ∧ name ∉ inheritedNames) videoNodes →
  ∃ images,
    parseImages w = (Normal images, w)
    ∧ ∀ k videoNode,
        (k, videoNode) ∈ videoNodes →
        images !! k
        = (λ name, ImageURL (afterLast "\" name)) <$> videoFileName videoNode.
Proof.
  intros Hnodes Hnodup Hall. unfold parseImages. rewrite Hnodes.
  rewrite (bind_normal _ _ _ _ _
             (parseVideos_without_content videoNodes ([], ∅) w Hnodup
                (Forall_impl _ _ _ Hall (λ _ H, proj1 H)))).
  cbn [fst snd app].
  destruct (resolveImages_named ∅
              ((λ entry, (entry.1, videoFileName entry.2)) <$> videoNodes) [] w)
    as [new Hsecond].
  { apply Forall_fmap. eapply Forall_impl; [exact Hall|].
    intros [k vn] [_ (name & Hname & Hplain)]. cbn in Hname |- *.
    rewrite Hname, resolvedName_plain by done. by eexists. }
  rewrite (bind_normal _ _ _ _ _ Hsecond), ret_run. cbn [app].
  eexists. split; [reflexivity|]. intros k videoNode Hin.
  apply resolveImages_result in Hsecond as (_ & new' & Heq & Hforall).
  cbn [app] in Heq. subst new'.
  assert (Hkeys : NoDup ((λ entry : Z * VideoNode,
                            (entry.1, videoFileName entry.2)) <$> videoNodes).*1)
    by (rewrite <- list_fmap_compose; exact Hnodup).
  assert (Hin' : (k, videoFileName videoNode)
                 ∈ (λ entry : Z * VideoNode, (entry.1, videoFileName entry.2))
                   <$> videoNodes)
    by (apply list_elem_of_fmap; by exists (k, videoNode)).
  rewrite (resolved_lookup ∅ _ new Hkeys Hforall k _ Hin').
  destruct (proj1 (Forall_forall _ _) Hall _ Hin) as [_ (name & Hname & Hplain)].
  cbn [snd] in Hname. by rewrite Hname, resolvedName_plain.
Qed.



(** ** Morph targets and the deformer registry *)

Lemma parseMorphTargets_loop_collects deformerNodes cs : ∀ acc w,
  Forall (channelReadable deformerNodes) cs →
  ∃ new,
    parseMorphTargets_loop deformerNodes acc cs w = (Normal (Some (acc ++ new)), w)
    ∧ Forall2 (λ child t,
                 ∃ node rel geo,
                   lookupNode (ID child) deformerNodes = Some node
                   ∧ mt_id t = dn_id node
                   ∧ mt_name t = dn_attrName node
                   ∧ initialWeight t = DeformPercent node
                   ∧ FullWeights node = Some (fullWeights t)
                   ∧ connections !! ID child = Some rel
                   ∧ head (filter (λ c, relationship c = None) (children rel)) = Some geo
                   ∧ geoID t = Some (ID geo))
              cs new.
Proof.
  induction cs as [|child cs IH]; intros acc w Hall.
  - exists []. split; [by rewrite app_nil_r | constructor].
  - inversion Hall as [|? ? Hchild Hrest]; subst.
    destruct Hchild as (node & rel & Hnode & Htype & [fw Hfw] & Hrel & [geo Hgeo]).
    cbn [parseMorphTargets_loop]. rewrite Hnode. mrun. rewrite Hfw. mrun.
    rewrite decide_True by done. rewrite Hrel. mrun. rewrite Hgeo. mrun.
    destruct (IH (acc ++ [{| mt_name := dn_attrName node;
                             initialWeight := DeformPercent node;
                             mt_id := dn_id node; fullWeights := fw;
                             geoID := Some (ID geo) |}]) w Hrest) as (new & Hrun & Hnew).
    cbn [mt_name initialWeight mt_id fullWeights]. rewrite Hrun.
    eexists (_ :: new). split; [by rewrite <- app_assoc|].
    constructor; [|exact Hnew]. exists node, rel, geo. by split_and!.
Qed.

(** X9.  When every child of a BlendShape deformer is a BlendShapeChannel
    that has [FullWeights] and whose connection entry has a child without
    label, [parseMorphTargets] returns one raw morph target per child, in
    connection order, each with the fields of its channel and with [geoID]
    the ID of the first unlabelled child of the channel. *)
Theorem parseMorphTargets_all_channels relationships deformerNodes w :
  Forall (channelReadable deformerNodes) (children relationships) →
  ∃ targets,
    parseMorphTargets relationships deformerNodes w = (Normal (Some targets), w)
    ∧ Forall2 (λ child t,
                 ∃ node rel geo,
                   lookupNode (ID child) deformerNodes = Some node
                   ∧ mt_id t = dn_id node
                   ∧ mt_name t = dn_attrName node
                   ∧ initialWeight t = DeformPercent node
                   ∧ FullWeights node = Some (fullWeights t)
                   ∧ connections !! ID child = Some rel
                   ∧ head (filter (λ c, relationship c = None) (children rel)) = Some geo
                   ∧ geoID t = Some (ID geo))
              (children relationships) targets.
Proof.
  intros Hall. unfold parseMorphTargets.
  destruct (parseMorphTargets_loop_collects deformerNodes _ [] w Hall) as (new & Hrun & Hnew).
  exists new. by split.
Qed.

Lemma NoDup_app_step (old : list Z) (k : Z) (rest : list Z) (b : bool) :
  NoDup (old ++ k :: rest) → NoDup ((old ++ if b then [k] else []) ++ rest).
Proof.
  intros Hnodup. destruct b; rewrite <- app_assoc; [exact Hnodup|]. cbn [app].
  apply NoDup_app in Hnodup as (Hold & Hdisj & Hrest).
  apply NoDup_cons in Hrest as [_ Hrest]. apply NoDup_app. split_and!; [done| |done].
  intros x Hx Hin. apply (Hdisj x Hx). by right.
Qed.

Lemma NoDup_app_fresh (old : list Z) (k : Z) (rest : list Z) :
  NoDup (old ++ k :: rest) → k ∉ old.
Proof.
  intros Hnodup Hin. apply NoDup_app in Hnodup as (_ & Hdisj & _).
  apply (Hdisj k Hin). by left.
Qed.

Lemma parseDeformer_step DeformerNodes acc k n w acc' w' :
  k ∉ (skeletons acc).*1 →
  k ∉ (morphTargets acc).*1 →
  parseDeformer DeformerNodes acc (k, n) w = (Normal acc', w') →
  ∃ news newm,
    skeletons acc' = skeletons acc ++ news
    ∧ morphTargets acc' = morphTargets acc ++ newm
    ∧ news.*1 = (if bool_decide (dn_attrType n = Some "Skin") then [k] else [])
    ∧ newm.*1 = (if bool_decide (dn_attrType n = Some "BlendShape") then [k] else [])
    ∧ Forall skeletonRecorded news.
Proof.
  intros Hs Hm. unfold parseDeformer.
  destruct (decide (dn_attrType n = Some "Skin")) as [Hskin|Hskin].
  - rewrite bind_run. destruct (connections !! k) as [rel|] eqn:Hrel; [|discriminate].
    rewrite prop_some. cbn beta iota. rewrite bind_run.
    destruct (parseSkeleton rel DeformerNodes w) as [[skeleton|e] w1]; [|discriminate].
    rewrite bind_run.
    destruct ((if decide (1 < length (parents rel))%nat
               then warn _ else mret ()) w1) as [[[]|e] w2] eqn:Hwarn;
      [|by case_decide].
    rewrite bind_run. destruct (head (parents rel)) as [p|] eqn:Hhead; [|discriminate].
    rewrite prop_some. cbn beta iota. rewrite ret_run. intros Heq.
    inversion Heq; subst. cbn [skeletons morphTargets].
    rewrite setNode_fresh by done.
    eexists [_], []. split; [reflexivity|]. split; [by rewrite app_nil_r|].
    rewrite bool_decide_eq_true_2 by done.
    rewrite bool_decide_eq_false_2 by (rewrite Hskin; discriminate).
    split; [reflexivity|]. split; [reflexivity|].
    constructor; [|constructor]. split; [reflexivity|]. cbn. by eauto.
  - destruct (decide (dn_attrType n = Some "BlendShape")) as [Hblend|Hblend].
    + rewrite bind_run. destruct (connections !! k) as [rel|] eqn:Hrel; [|discriminate].
      rewrite prop_some. cbn beta iota. rewrite bind_run.
      destruct (parseMorphTargets rel DeformerNodes w) as [[targets|e] w1]; [|discriminate].
      rewrite bind_run.
      destruct ((if decide (1 < length (parents rel))%nat
                 then warn _ else mret ()) w1) as [[[]|e] w2] eqn:Hwarn;
        [|by case_decide].
      rewrite ret_run. intros Heq. inversion Heq; subst. cbn [skeletons morphTargets].
      rewrite setNode_fresh by done.
      eexists [], [_]. split; [by rewrite app_nil_r|]. split; [reflexivity|].
      rewrite bool_decide_eq_false_2 by done. rewrite bool_decide_eq_true_2 by done.
      split; [reflexivity|]. split; [reflexivity | constructor].
    + rewrite ret_run. intros Heq. inversion Heq; subst.
      exists [], []. rewrite !app_nil_r.
      rewrite !bool_decide_eq_false_2 by done. by split_and!.
Qed.

Lemma parseDeformers_loop_registry DeformerNodes rest : ∀ acc w acc' w',
  NoDup ((skeletons acc).*1 ++ rest.*1) →
  NoDup ((morphTargets acc).*1 ++ rest.*1) →
  Forall skeletonRecorded (skeletons acc) →
  foldM (parseDeformer DeformerNodes) acc rest w = (Normal acc', w') →
  (skeletons acc').*1
  = (skeletons acc).*1
    ++ (filter (λ entry, dn_attrType entry.2 = Some "Skin") rest).*1
  ∧ (morphTargets acc').*1
    = (morphTargets acc).*1
      ++ (filter (λ entry, dn_attrType entry.2 = Some "BlendShape") rest).*1
  ∧ Forall skeletonRecorded (skeletons acc').
Proof.
  induction rest as [|[k n] rest IH]; intros acc w acc' w' Hs Hm Hrec Hrun.
  - cbn in Hrun. inversion Hrun; subst. by rewrite !app_nil_r.
  - cbn [foldM] in Hrun. rewrite bind_run in Hrun.
    destruct (parseDeformer DeformerNodes acc (k, n) w) as [[acc1|e] w1] eqn:Hstep;
      [|discriminate].
    cbn [fmap list_fmap fst] in Hs, Hm.
    destruct (parseDeformer_step _ _ _ _ _ _ _ (NoDup_app_fresh _ _ _ Hs)
                (NoDup_app_fresh _ _ _ Hm) Hstep)
      as (news & newm & Hskel & Hmorph & Hnews & Hnewm & Hgood).
    destruct (IH acc1 w1 acc' w') as (IHs & IHm & IHrec); [| | |exact Hrun|].
    + rewrite Hskel, fmap_app, Hnews. by apply NoDup_app_step.
    + rewrite Hmorph, fmap_app, Hnewm. by apply NoDup_app_step.
    + rewrite Hskel. by apply Forall_app.
    + rewrite IHs, IHm, Hskel, Hmorph, !fmap_app, Hnews, Hnewm, !filter_cons.
      cbn [snd]. split_and!; [| |exact IHrec].
      * destruct (decide (dn_attrType n = Some "Skin")) as [Hskin|Hskin].
        -- rewrite bool_decide_eq_true_2 by done. by rewrite <- app_assoc.
        -- rewrite bool_decide_eq_false_2 by done. by rewrite app_nil_r.
      * destruct (decide (dn_attrType n = Some "BlendShape")) as [Hb|Hb].
        -- rewrite bool_decide_eq_true_2 by done. by rewrite <- app_assoc.
        -- rewrite bool_decide_eq_false_2 by done. by rewrite app_nil_r.
Qed.

(** X10.  The registries that [parseDeformers] returns hold the Skin
    deformers and the BlendShape deformers under their IDs, in the order of
    the Deformer nodes; deformers of any other type (the clusters, the
    channels) are not registered.  Every skeleton carries its own ID and, as
    [geometryID], the ID of the first parent of its deformer. *)
Theorem parseDeformers_registry DeformerNodes w deformers w' :
  Deformer_nodes fbxTree_Objects = Some DeformerNodes →
  NoDup DeformerNodes.*1 →
  parseDeformers w = (Normal deformers, w') →
  (skeletons deformers).*1
  = (filter (λ entry, dn_attrType entry.2 = Some "Skin") DeformerNodes).*1
  ∧ (morphTargets deformers).*1
    = (filter (λ entry, dn_attrType entry.2 = Some "BlendShape") DeformerNodes).*1
  ∧ Forall skeletonRecorded (skeletons deformers).
Proof.
  intros Hnodes Hnodup Hrun. unfold parseDeformers in Hrun. rewrite Hnodes in Hrun.
  apply (parseDeformers_loop_registry DeformerNodes DeformerNodes
           {| skeletons := []; morphTargets := [] |} w deformers w'); try done.
Qed.

(** ** Joints: the general shape *)

Lemma foldl_newJoint id name matched : ∀ h cur,
  (∀ c, cur = Some c → ∃ b, h !! c = Some b ∧ bone_parent b = None) →
  foldl (λ j rawBone, newJoint id name rawBone j) {| j_heap := h; j_bone := cur |} matched
  = match matched with
    | [] => {| j_heap := h; j_bone := cur |}
    | _ :: _ =>
        {| j_heap :=
             match cur with
             | Some c =>
                 alter (λ b, mkBone (bone_name b) (bone_ID b) (matrixWorld b)
                               (Some (length h)) (bone_children b)) c h
             | None => h
             end ++ jointChain id (nodeName name) (length h) cur matched;
           j_bone := Some (length h + length matched - 1)%nat |}
    end.
Proof.
  induction matched as [|rawBone rest IH]; intros h cur Hcur; [done|].
  cbn [foldl].
  set (b0 := {| bone_name := nodeName name; bone_ID := id;
                matrixWorld := transformLink rawBone;
                bone_parent := None; bone_children := [] |}).
  set (h1 := match cur with
             | Some c =>
                 alter (λ b, mkBone (bone_name b) (bone_ID b) (matrixWorld b)
                               (Some (length h)) (bone_children b)) c h
             | None => h
             end).
  set (b1 := {| bone_name := nodeName name; bone_ID := id;
                matrixWorld := transformLink rawBone; bone_parent := None;
                bone_children := match cur with Some p => [p] | None => [] end |}).
  assert (Hlen1 : length h1 = length h).
  { unfold h1. destruct cur; [apply length_alter | done]. }
  assert (Hstep : newJoint id name rawBone {| j_heap := h; j_bone := cur |}
                  = {| j_heap := h1 ++ [b1]; j_bone := Some (length h) |}).
  { unfold newJoint. cbn [j_heap j_bone]. fold b0. f_equal.
    destruct cur as [c|]; [|done].
    destruct (Hcur c eq_refl) as (b & Hb & Hparent).
    assert (Hc : (c < length h)%nat) by (eapply lookup_lt_Some; eassumption).
    unfold Bone_add. rewrite decide_False by lia.
    rewrite lookup_app_l, Hb by done. cbn [mbind option_bind]. rewrite Hparent.
    rewrite alter_app_l by done. fold h1.
    rewrite <- Hlen1 at 1. rewrite <- (Nat.add_0_r (length h1)).
    by rewrite alter_app_r. }
  rewrite Hstep, IH.
  2:{ intros c Hc. inversion Hc; subst. exists b1.
      split; [|done]. by rewrite lookup_app_r, Hlen1, Nat.sub_diag by lia. }
  rewrite length_app, Hlen1. cbn [length].
  destruct rest as [|rawBone' rest'].
  - cbn [jointChain length]. do 2 f_equal. lia.
  - f_equal; [|cbn [length]; f_equal; lia].
    rewrite <- Hlen1 at 1. rewrite <- (Nat.add_0_r (length h1)) at 1.
    rewrite alter_app_r. cbn [alter list_alter app].
    rewrite <- app_assoc. cbn [app jointChain].
    by replace (length h + 1)%nat with (S (length h)) by lia.
Qed.

(** X11.  [buildSkeleton] appends one joint per matched raw bone to the
    joints built so far, all with the ID and the sanitized name of the model;
    each joint is the only child of the next one, and the last one is
    returned ([null] when no raw bone matches, the heap then being unchanged). *)
Theorem buildSkeleton_chain relationships skeletons id name h :
  (buildSkeleton relationships skeletons id name h).1.2
  = h ++ jointChain id (nodeName name) (length h) None
           (matchedRawBones relationships skeletons)
  ∧ (buildSkeleton relationships skeletons id name h).1.1
    = match matchedRawBones relationships skeletons with
      | [] => None
      | _ :: _ =>
          Some (length h + length (matchedRawBones relationships skeletons) - 1)%nat
      end.
Proof.
  pose proof (buildSkeleton_joints relationships skeletons id name h) as Hj.
  cbn zeta in Hj. rewrite foldl_newJoint in Hj by (intros c Hc; discriminate).
  set (r := buildSkeleton relationships skeletons id name h) in *. clearbody r.
  set (matched := matchedRawBones relationships skeletons) in *. clearbody matched.
  destruct matched as [|rawBone rest]; injection Hj as Hheap Hbone;
    rewrite Hheap, Hbone; [by rewrite app_nil_r | done].
Qed.

(** ** Cameras: the edge cases *)

Lemma cameraAttributeOf_none attributes cs :
  (∀ child, child ∈ cs → lookupNode (ID child) attributes = None) →
  cameraAttributeOf attributes cs = None.
Proof.
  unfold cameraAttributeOf. induction cs as [|child cs IH]; intros Hnone; [done|].
  cbn [foldl]. rewrite (Hnone child) by by left.
  apply IH. intros c Hc. apply Hnone. by right.
Qed.

Lemma cameraAttributeOf_last attributes pre child post cameraAttribute :
  lookupNode (ID child) attributes = Some cameraAttribute →
  (∀ c, c ∈ post → lookupNode (ID c) attributes = None) →
  cameraAttributeOf attributes (pre ++ child :: post) = Some cameraAttribute.
Proof.
  intros Hchild Hpost. unfold cameraAttributeOf.
  rewrite foldl_app. cbn [foldl]. rewrite Hchild.
  induction post as [|c post IH]; [done|].
  cbn [foldl]. rewrite (Hpost c) by by left.
  apply IH. intros c' Hc'. apply Hpost. by right.
Qed.

(** X12.  A Camera model none of whose children names a [NodeAttribute]
    becomes a plain [Object3D], and nothing is logged; when the file has no
    [NodeAttribute] section at all, a camera with a child makes
    [createCamera] raise a [TypeError] on the first child. *)
Theorem createCamera_without_attribute relationships (w : World unit) :
  (∀ attributes,
     NodeAttribute_nodes fbxTree_Objects = Some attributes →
     (∀ child, child ∈ children relationships →
               lookupNode (ID child) attributes = None) →
     createCamera relationships w = (Normal Object3D_new, w))
  ∧ (children relationships = [] →
     createCamera relationships w = (Normal Object3D_new, w))
  ∧ (NodeAttribute_nodes fbxTree_Objects = None →
     children relationships ≠ [] →
     ∃ msg, createCamera relationships w = (Throw (TypeError msg), w)).
Proof.
  split_and!.
  - intros attributes Hattrs Hnone. unfold createCamera.
    rewrite (bind_normal _ _ _ _ _ (createCamera_attribute attributes _ None w Hattrs)).
    fold (cameraAttributeOf attributes (children relationships)).
    by rewrite cameraAttributeOf_none.
  - intros Hnil. unfold createCamera. by rewrite Hnil.
  - intros Hnone Hchildren. unfold createCamera.
    destruct (children relationships) as [|child cs]; [done|].
    cbn [foldM]. unfold findAttribute. rewrite Hnone. mrun. by eexists.
Qed.

(** X13.  The last child that names a [NodeAttribute] decides the camera,
    whatever the children before it name: without [NearPlane] and [FarPlane]
    it gives an orthographic camera when its [CameraProjectionType] is 1 and
    a perspective camera otherwise, with the clipping planes 1 and 1000. *)
Theorem createCamera_last_attribute relationships attributes pre child post
    cameraAttribute (w : World unit) :
  NodeAttribute_nodes fbxTree_Objects = Some attributes →
  children relationships = pre ++ child :: post →
  lookupNode (ID child) attributes = Some cameraAttribute →
  (∀ c, c ∈ post → lookupNode (ID c) attributes = None) →
  NearPlane cameraAttribute = None →
  FarPlane cameraAttribute = None →
  ∃ camera,
    createCamera relationships w = (Normal camera, w)
    ∧ match camera with
      | PerspectiveCamera _ _ near far focalLength =>
          CameraProjectionType cameraAttribute ≠ Some 1
          ∧ near = 1%float ∧ far = 1000%float
          ∧ focalLength = FocalLength cameraAttribute
      | OrthographicCamera _ _ _ _ near far =>
          CameraProjectionType cameraAttribute = Some 1
          ∧ near = 1%float ∧ far = 1000%float
      | Object3D_new => False
      end.
Proof.
  intros Hattrs Hchildren Hchild Hpost Hnear Hfar. unfold createCamera.
  rewrite (bind_normal _ _ _ _ _ (createCamera_attribute attributes _ None w Hattrs)).
  fold (cameraAttributeOf attributes (children relationships)).
  rewrite Hchildren, (cameraAttributeOf_last _ _ _ _ _ Hchild Hpost).
  cbn zeta. rewrite Hnear, Hfar. mrun.
  case_decide; mrun; eexists; (split; [reflexivity|done]).
Qed.

(** ** Meshes and curves: the geometry and the shared materials *)


Lemma meshGeometry_last geometryMap pre child post g :
  geometryMap !! ID child = Some g →
  (∀ c, c ∈ post → geometryMap !! ID c = None) →
  meshGeometry geometryMap (pre ++ child :: post) = Some (ID child, g).
Proof.
  intros Hchild Hpost. unfold meshGeometry.
  rewrite foldl_app. cbn [foldl]. rewrite Hchild.
  induction post as [|c post IH]; [done|].
  cbn [foldl]. rewrite (Hpost c) by by left.
  apply IH. intros c' Hc'. apply Hpost. by right.
Qed.

Lemma createCurve_geometry relationships geometryMap :
  line_geometry (createCurve relationships geometryMap)
  = fst <$> meshGeometry geometryMap (children relationships).
Proof.
  unfold createCurve, meshGeometry. cbn [line_geometry].
  cut (∀ (acc : option (Z * Geometry)),
         foldl (λ geo child, match geometryMap !! ID child with
                             | Some _ => Some (ID child)
                             | None => geo
                             end) (fst <$> acc) (children relationships)
         = fst <$> foldl (λ geometry child,
                            match geometryMap !! ID child with
                            | Some g => Some (ID child, g)
                            | None => geometry
                            end) acc (children relationships)).
  { intros H. apply (H None). }
  induction (children relationships) as [|child cs IH]; intros acc; [done|].
  cbn [foldl]. destruct (geometryMap !! ID child) as [g|]; [apply (IH (Some (ID child, g)))|apply IH].
Qed.

Lemma forEach_alter (f : Material → Material) ms : ∀ w : World (list Material),
  forEach (λ m, h ← getHeap; setHeap (alter f m h)) ms w
  = (Normal tt, mkWorld (console w) (foldl (λ h m, alter f m h) (heap w) ms)).
Proof.
  induction ms as [|m ms IH]; intros [log h]; [done|].
  cbn [forEach]. rewrite !bind_run. unfold getHeap at 1, setHeap at 1, modify.
  cbn [heap console]. by rewrite IH.
Qed.

Lemma lookup_foldl_alter {A} (f : A → A) (ms : list nat) (i : nat) : ∀ h : list A,
  (∀ x, f (f x) = f x) →
  foldl (λ h m, alter f m h) h ms !! i
  = if decide (i ∈ ms) then f <$> h !! i else h !! i.
Proof.
  intros h Hf. revert h. induction ms as [|m ms IH]; intros h.
  - cbn [foldl]. by rewrite decide_False by apply not_elem_of_nil.
  - cbn [foldl]. rewrite IH. destruct (decide (i = m)) as [->|Hne].
    + rewrite list_lookup_alter_eq, (decide_True (P := m ∈ m :: ms)) by by left.
      case_decide; [|done]. destruct (h !! m); cbn; [by rewrite Hf | done].
    + rewrite list_lookup_alter_ne by done.
      destruct (decide (i ∈ ms)) as [Hin|Hnin].
      * by rewrite decide_True by by right.
      * rewrite decide_False; [done|]. by intros [?|?]%elem_of_cons.
Qed.

Lemma alter_last {A} (f : A → A) (h : list A) (x : A) :
  alter f (length h) (h ++ [x]) = h ++ [f x].
Proof. rewrite <- (Nat.add_0_r (length h)). by rewrite alter_app_r. Qed.

(** What [createMesh] does when a geometry is found: the default material is
    created when no child names one, then the materials of the mesh are
    flagged in place. *)
Lemma createMesh_run relationships geometryMap materialMap w gid g :
  meshGeometry geometryMap (children relationships) = Some (gid, g) →
  ∃ material,
    createMesh relationships geometryMap materialMap w
    = (Normal {| isSkinnedMesh := FBX_Deformer g; mesh_geometry := gid;
                 mesh_material := material |},
       mkWorld (console w)
         (match meshMaterials materialMap (children relationships) with
          | [] =>
              heap w ++ [mkMaterial MeshPhongMaterial [("color", PHex 0xcccccc)] None
                           (geo_color g) (FBX_Deformer g)]
          | _ :: _ =>
              (if FBX_Deformer g then
                 foldl (λ h m, alter (λ x, mkMaterial (mat_kind x) (mat_parameters x)
                                             (mat_name x) (vertexColors x) true) m h)
               else λ h _, h)
                ((if geo_color g then
                    foldl (λ h m, alter (λ x, mkMaterial (mat_kind x) (mat_parameters x)
                                                (mat_name x) true (skinning x)) m h)
                  else λ h _, h)
                   (heap w) (meshMaterials materialMap (children relationships)))
                (meshMaterials materialMap (children relationships))
          end)).
Proof.
  intros Hgeo. unfold createMesh. rewrite Hgeo. cbn zeta.
  destruct (meshMaterials materialMap (children relationships)) as [|m ms] eqn:Hms.
  - cbn [length]. rewrite decide_False by lia.
    destruct w as [log h], g as [[] []]; eexists; cbn [app];
      cbv [mbind M_bind bind mret M_ret ret getHeap setHeap modify newMaterial forEach
           setVertexColors setSkinning prop fst snd geo_color FBX_Deformer heap console];
      rewrite ?alter_last; reflexivity.
  - unfold setVertexColors, setSkinning. case_decide; mrun; destruct g as [[] []]; cbn [geo_color FBX_Deformer fst snd];
      mrun; rewrite ?forEach_alter; mrun; rewrite ?forEach_alter; mrun;
      destruct w as [log h]; eexists; reflexivity.
Qed.


(** X15.  The last child that names a geometry gives the mesh, and the line
    of a curve, its geometry, whatever the children before it name; the mesh
    is skinned exactly when that geometry carries a deformer. *)
Theorem createMesh_last_geometry relationships geometryMap materialMap w
    pre child post g :
  children relationships = pre ++ child :: post →
  geometryMap !! ID child = Some g →
  (∀ c, c ∈ post → geometryMap !! ID c = None) →
  (∃ material w',
     createMesh relationships geometryMap materialMap w
     = (Normal {| isSkinnedMesh := FBX_Deformer g; mesh_geometry := ID child;
                  mesh_material := material |}, w'))
  ∧ line_geometry (createCurve relationships geometryMap) = Some (ID child).
Proof.
  intros Hchildren Hchild Hpost.
  assert (Hgeo : meshGeometry geometryMap (children relationships) = Some (ID child, g)).
  { rewrite Hchildren. by apply meshGeometry_last. }
  split.
  - destruct (createMesh_run relationships geometryMap materialMap w _ _ Hgeo)
      as [material Hrun].
    by eexists _, _.
  - by rewrite createCurve_geometry, Hgeo.
Qed.

(** X16.  Materials are shared: [createMesh] flags the registered materials
    of its mesh in place.  A material named by a child of the model gets
    [vertexColors] when the geometry has a colour attribute and [skinning]
    when the geometry carries a deformer and keeps its other fields; every
    other material of the heap is left as it is, and nothing is logged. *)
Theorem createMesh_flags_materials relationships geometryMap materialMap w gid g :
  meshGeometry geometryMap (children relationships) = Some (gid, g) →
  ∃ mesh w',
    createMesh relationships geometryMap materialMap w = (Normal mesh, w')
    ∧ console w' = console w
    ∧ (∀ child m x,
         child ∈ children relationships →
         materialMap !! ID child = Some m →
         heap w !! m = Some x →
         heap w' !! m
         = Some (mkMaterial (mat_kind x) (mat_parameters x) (mat_name x)
                   (geo_color g || vertexColors x) (FBX_Deformer g || skinning x)))
    ∧ (∀ m,
         (∀ child, child ∈ children relationships → materialMap !! ID child ≠ Some m) →
         (m < length (heap w))%nat →
         heap w' !! m = heap w !! m).
Proof.
  intros Hgeo.
  destruct (createMesh_run relationships geometryMap materialMap w _ _ Hgeo)
    as [material Hrun].
  eexists _, _. split; [exact Hrun|]. cbn [console heap]. split; [done|].
  assert (Hused : ∀ m, m ∈ meshMaterials materialMap (children relationships)
                       ↔ ∃ child, child ∈ children relationships
                                  ∧ materialMap !! ID child = Some m).
  { intros m. rewrite meshMaterials_omap, list_elem_of_omap. naive_solver. }
  split.
  - intros child m x Hin Hm Hx.
    assert (Hm' : m ∈ meshMaterials materialMap (children relationships)).
    { apply Hused. eauto. }
    destruct (meshMaterials materialMap (children relationships)) as [|m0 ms];
      [by apply elem_of_nil in Hm'|].
    destruct g as [[] []], x as [kind params name vc sk]; cbn [geo_color FBX_Deformer];
      rewrite ?lookup_foldl_alter by done; rewrite ?decide_True by done;
      rewrite ?lookup_foldl_alter by done; rewrite ?decide_True by done;
      by rewrite Hx.
  - intros m Hunused Hlt.
    assert (Hm' : m ∉ meshMaterials materialMap (children relationships)).
    { intros (child & Hin & Hm)%Hused. by apply (Hunused child). }
    destruct (meshMaterials materialMap (children relationships)) as [|m0 ms].
    + by rewrite lookup_app_l.
    + destruct g as [[] []]; cbn [geo_color FBX_Deformer];
        rewrite ?lookup_foldl_alter by done; rewrite ?decide_False by done;
        rewrite ?lookup_foldl_alter by done; rewrite ?decide_False by done; done.
Qed.

(** ** Hierarchy: the links stay consistent *)

Lemma elem_of_removeFirst {A} `{EqDecision A} (x y : A) (l : list A) :
  NoDup l → (x ∈ removeFirst y l ↔ x ∈ l ∧ x ≠ y).
Proof.
  induction l as [|z l IH]; intros Hnd; cbn [removeFirst].
  - split; [by intros ?%elem_of_nil | by intros [?%elem_of_nil _]].
  - apply NoDup_cons in Hnd as [Hz Hnd]. case_decide as Hzy.
    + subst z. rewrite elem_of_cons. split.
      * intros Hin. split; [by right|]. by intros ->.
      * by intros [[->|Hin] Hne].
    + rewrite !elem_of_cons, IH by done. split.
      * intros [->|[? ?]]; split; auto.
      * intros [[->|?] ?]; auto.
Qed.

Lemma NoDup_removeFirst {A} `{EqDecision A} (y : A) (l : list A) :
  NoDup l → NoDup (removeFirst y l).
Proof.
  induction l as [|z l IH]; intros Hnd; cbn [removeFirst]; [done|].
  apply NoDup_cons in Hnd as [Hz Hnd]. case_decide; [done|].
  apply NoDup_cons. split; [|by apply IH].
  rewrite elem_of_removeFirst by done. tauto.
Qed.

Lemma consistent_links h h' :
  parentOf h' = parentOf h → childrenOf h' = childrenOf h →
  consistent h → consistent h'.
Proof. intros Hp Hc [H1 H2]. unfold consistent, kids. rewrite Hp, Hc. by split. Qed.

Lemma consistent_remove this object h :
  consistent h → consistent (Object3D_remove this object h).
Proof.
  intros [Hlink Hnd]. unfold Object3D_remove. case_decide as Hin; [|done].
  assert (Hparent : parentOf h !! object = Some this) by by apply Hlink.
  split.
  - intros o p. unfold kids at 1. cbn [childrenOf parentOf].
    rewrite lookup_insert, lookup_delete.
    destruct (decide (this = p)) as [<-|Hp]; cbn [default from_option id].
    + rewrite elem_of_removeFirst by apply Hnd. rewrite Hlink.
      destruct (decide (object = o)) as [<-|Ho]; intuition congruence.
    + fold (kids h p). rewrite Hlink.
      destruct (decide (object = o)) as [<-|Ho]; [|done].
      rewrite Hparent. intuition congruence.
  - intros p. unfold kids. cbn [childrenOf]. rewrite lookup_insert.
    case_decide; cbn [default from_option id]; [apply NoDup_removeFirst, Hnd | apply Hnd].
Qed.

Lemma consistent_add this object (w : World Hierarchy) r w' :
  Object3D_add this object w = (r, w') → consistent (heap w) → consistent (heap w').
Proof.
  unfold Object3D_add. case_decide as Heq.
  - intros Hrun. by inversion Hrun.
  - unfold getHeap, setHeap, modify. mrun. intros Hrun Hcons.
    inversion Hrun; subst; clear Hrun. cbn [heap].
    set (h1 := match parentOf (heap w) !! object with
               | Some p => Object3D_remove p object (heap w)
               | None => heap w
               end).
    assert (Hh1 : consistent h1 ∧ parentOf h1 !! object = None).
    { unfold h1. destruct (parentOf (heap w) !! object) as [p|] eqn:Hp; [|done].
      split; [by apply consistent_remove|]. unfold Object3D_remove.
      rewrite decide_True by by apply Hcons. cbn [parentOf]. apply lookup_delete_eq. }
    destruct Hh1 as [[Hlink Hnd] Hnone].
    assert (Hfresh : ∀ p, object ∉ kids h1 p).
    { intros p Hin%Hlink. congruence. }
    split.
    + intros o p. unfold kids at 1. cbn [childrenOf parentOf]. rewrite !lookup_insert.
      destruct (decide (this = p)) as [<-|Hp]; cbn [default from_option id].
      * rewrite elem_of_app, Hlink, list_elem_of_singleton.
        destruct (decide (object = o)) as [<-|Ho]; intuition congruence.
      * fold (kids h1 p). rewrite Hlink.
        destruct (decide (object = o)) as [<-|Ho]; [|done].
        rewrite Hnone. intuition congruence.
    + intros p. unfold kids. cbn [childrenOf]. rewrite lookup_insert.
      case_decide; cbn [default from_option id]; [|apply Hnd].
      apply NoDup_app. split_and!; [apply Hnd| |apply NoDup_singleton].
      intros x Hx ->%list_elem_of_singleton. by apply (Hfresh this).
Qed.

Lemma keeps_ret {A} P (a : A) : keeps P (mret a).
Proof. intros w r w' Hrun. by inversion Hrun. Qed.

Lemma keeps_prop {A} P what (o : option A) : keeps P (prop what o).
Proof. destruct o; intros w r w' Hrun; by inversion Hrun. Qed.

Lemma keeps_bind {A B} P (c : M (World Hierarchy) A) (k : A → M (World Hierarchy) B) :
  keeps P c → (∀ a, keeps P (k a)) → keeps P (c ≫= k).
Proof.
  intros Hc Hk w r w' Hrun HP. rewrite bind_run in Hrun.
  destruct (c w) as [[a|e] w1] eqn:Hcw.
  - eapply Hk; [exact Hrun|]. eapply Hc; eauto.
  - inversion Hrun; subst. eapply Hc; eauto.
Qed.

Lemma keeps_getHeap {B} P (k : Hierarchy → M (World Hierarchy) B) :
  (∀ h, P h → keeps P (k h)) → keeps P (getHeap ≫= k).
Proof.
  intros Hk w r w' Hrun HP. rewrite bind_run in Hrun. unfold getHeap in Hrun.
  eapply Hk; eauto.
Qed.

Lemma keeps_setHeap P h : P h → keeps P (setHeap h).
Proof. intros Hh w r w' Hrun _. by inversion Hrun. Qed.

Lemma keeps_forEach {A} P (body : A → M (World Hierarchy) unit) xs :
  (∀ x, keeps P (body x)) → keeps P (forEach body xs).
Proof.
  intros Hbody. induction xs as [|x xs IH]; cbn [forEach].
  - apply (keeps_ret P tt).
  - apply keeps_bind; [apply Hbody | intros _; apply IH].
Qed.

Lemma keeps_add this object : keeps consistent (Object3D_add this object).
Proof. intros w r w'. apply consistent_add. Qed.

Lemma keeps_setLookAtProperties id kind modelNode :
  keeps consistent (setLookAtProperties id kind modelNode).
Proof.
  unfold setLookAtProperties. apply keeps_bind; [apply keeps_prop | intros node].
  destruct (LookAtProperty node); [|apply keeps_ret].
  apply keeps_bind; [apply keeps_prop | intros rel].
  apply keeps_forEach. intros child. case_decide; [|apply keeps_ret].
  apply keeps_bind; [apply keeps_prop | intros models].
  apply keeps_bind; [apply keeps_prop | intros target].
  destruct (Lcl_Translation target); [|apply keeps_ret].
  destruct (hasTarget kind); apply keeps_getHeap; intros h Hh.
  - apply keeps_bind; [|intros _; apply keeps_add].
    apply keeps_setHeap. by eapply consistent_links; [..|exact Hh].
  - apply keeps_setHeap. by eapply consistent_links; [..|exact Hh].
Qed.

Lemma keeps_attachModel modelMap model :
  keeps consistent (attachModel modelMap model).
Proof.
  unfold attachModel. apply keeps_bind; [apply keeps_prop | intros modelNodes].
  apply keeps_bind; [apply keeps_setLookAtProperties | intros _].
  apply keeps_bind; [apply keeps_prop | intros rel].
  apply keeps_bind.
  - unfold attachToParents. apply keeps_forEach. intros connection.
    destruct (lookupNode _ _); [apply keeps_add | apply keeps_ret].
  - intros _. apply keeps_getHeap. intros h _.
    destruct (parentOf h !! _); [apply keeps_ret | apply keeps_add].
Qed.

(** X17.  Hierarchy assembly keeps the scene well formed, however it ends
    (normally or with an exception part-way): afterwards an object is among
    the children of exactly the object recorded as its parent, and no
    children list holds an object twice. *)
Theorem assembleHierarchy_consistent modelMap w r w' :
  consistent (heap w) →
  assembleHierarchy modelMap w = (r, w') →
  consistent (heap w').
Proof.
  intros Hcons Hrun. revert Hrun Hcons.
  apply (keeps_forEach consistent (attachModel modelMap) modelMap).
  intros model. apply keeps_attachModel.
Qed.

(** X18.  Under the conditions of a normal run (every constructed model
    starts without a parent, has a connection entry and is readable by
    [setLookAtProperties]) and from a well-formed scene, each model ends
    among the children of exactly one object: the last of its parents that
    is another constructed model, or the scene root when there is none.  In
    particular the models directly under the scene root are those with no
    such parent. *)
Theorem assembleHierarchy_children modelMap modelNodes w :
  Model_nodes fbxTree_Objects = Some modelNodes →
  NoDup modelMap.*1 →
  consistent (heap w) →
  (∀ id kind, (id, kind) ∈ modelMap →
     parentOf (heap w) !! ModelObj id = None
     ∧ is_Some (connections !! id)
     ∧ lookAtReadable modelNodes id) →
  ∃ w', assembleHierarchy modelMap w = (Normal tt, w')
        ∧ (∀ p, NoDup (kids (heap w') p))
        ∧ ∀ id kind rel,
            (id, kind) ∈ modelMap → connections !! id = Some rel →
            (∀ p, ModelObj id ∈ kids (heap w') p
                  ↔ p = match lastResolvedParent modelMap id (parents rel) with
                        | Some parent => ModelObj parent
                        | None => SceneGraph
                        end)
            ∧ (ModelObj id ∈ kids (heap w') SceneGraph
               ↔ lastResolvedParent modelMap id (parents rel) = None).
Proof.
  intros Hmodels Hnodup Hcons Hready.
  destruct (assembleHierarchy_spec modelMap modelNodes modelMap Hmodels Hnodup w Hready)
    as (w' & Hrun & _ & Hattached).
  assert (Hcons' : consistent (heap w')).
  { revert Hrun Hcons.
    apply (keeps_forEach consistent (attachModel modelMap) modelMap).
    intros model. apply keeps_attachModel. }
  destruct Hcons' as [Hlink Hnd].
  exists w'. split; [exact Hrun|]. split; [exact Hnd|].
  intros id kind rel Hin Hrel.
  destruct (Hattached id kind rel Hin Hrel) as [Hparent _].
  unfold assembledParent in Hparent.
  assert (Hkids : ∀ p, ModelObj id ∈ kids (heap w') p
                       ↔ p = match lastResolvedParent modelMap id (parents rel) with
                             | Some parent => ModelObj parent
                             | None => SceneGraph
                             end).
  { intros p. rewrite Hlink, Hparent. intuition congruence. }
  split; [exact Hkids|]. rewrite Hkids.
  destruct (lastResolvedParent modelMap id (parents rel)); intuition congruence.
Qed.

(** ** Hierarchy: a model without a connection entry *)

Lemma onlyTypeError_forEach {S A} (body : A → M S unit) xs :
  (∀ x, onlyTypeError (body x)) → onlyTypeError (forEach body xs).
Proof.
  intros Hbody. induction xs as [|x xs IH]; cbn [forEach].
  - apply (onlyTypeError_ret tt).
  - apply onlyTypeError_bind; [apply Hbody | intros _; apply IH].
Qed.

Lemma onlyTypeError_getHeap {H} : onlyTypeError (@getHeap H).
Proof. intros s e s' Hrun. inversion Hrun. Qed.

Lemma onlyTypeError_setHeap {H} (h : H) : onlyTypeError (setHeap h).
Proof. intros s e s' Hrun. inversion Hrun. Qed.

Lemma onlyTypeError_add this object : onlyTypeError (Object3D_add this object).
Proof.
  unfold Object3D_add. case_decide; [apply onlyTypeError_warn|].
  apply onlyTypeError_bind; [apply onlyTypeError_getHeap|intros h].
  apply onlyTypeError_setHeap.
Qed.

Lemma onlyTypeError_attachModel modelMap model :
  onlyTypeError (attachModel modelMap model).
Proof.
  unfold attachModel, setLookAtProperties, attachToParents.
  repeat first
    [ apply onlyTypeError_ret | apply onlyTypeError_prop | apply onlyTypeError_warn
    | apply onlyTypeError_getHeap | apply onlyTypeError_setHeap
    | apply onlyTypeError_add
    | apply onlyTypeError_forEach; intros ?
    | apply onlyTypeError_bind; [|intros ?]
    | case_decide
    | case_match ].
Qed.

Lemma attachModel_missing_connections modelMap model w r w' :
  connections !! model.1 = None →
  attachModel modelMap model w = (r, w') →
  ∃ e, r = Throw e.
Proof.
  intros Hnone. unfold attachModel. rewrite bind_run.
  destruct (Model_nodes fbxTree_Objects) as [modelNodes|].
  - rewrite prop_some. cbn beta iota. rewrite bind_run.
    destruct (setLookAtProperties _ _ _ w) as [[[]|e] w1].
    + rewrite Hnone, bind_run, prop_none. intros Hrun. inversion Hrun. by eexists.
    + intros Hrun. inversion Hrun. by eexists.
  - rewrite prop_none. intros Hrun. inversion Hrun. by eexists.
Qed.

(** X19.  A constructed model that has no entry in the connection graph makes
    hierarchy assembly raise a [TypeError] (the parents of [undefined] are
    read); it never returns normally. *)
Theorem assembleHierarchy_missing_connections modelMap w id kind :
  (id, kind) ∈ modelMap →
  connections !! id = None →
  ∃ msg w', assembleHierarchy modelMap w = (Throw (TypeError msg), w').
Proof.
  intros Hin Hnone. unfold assembleHierarchy.
  generalize modelMap at 1. intros allModels. revert w.
  induction modelMap as [|model rest IH]; intros w; [by apply elem_of_nil in Hin|].
  cbn [forEach]. rewrite bind_run.
  destruct (attachModel allModels model w) as [[[]|e] w1] eqn:Hrun.
  - apply elem_of_cons in Hin as [Heq|Hin]; [|by apply IH].
    subst model.
    by destruct (attachModel_missing_connections allModels (id, kind) _ _ _ Hnone Hrun).
  - destruct (onlyTypeError_attachModel _ _ _ _ _ Hrun) as [msg ->]. by eexists _, _.
Qed.

(** A new scene, nothing attached yet, is consistent. *)
Lemma consistent_new_scene positions targets :
  consistent {| parentOf := ∅; childrenOf := ∅; positionOf := positions;
                lookedAt := targets |}.
Proof.
  split.
  - intros o p. unfold kids. cbn [parentOf childrenOf]. rewrite !lookup_empty.
    split; [by intros ?%elem_of_nil | discriminate].
  - intros p. unfold kids. cbn [childrenOf]. rewrite lookup_empty. apply NoDup_nil_2.
Qed.

(** ** Lights *)

Lemma createLight_attribute attributes cs : ∀ acc (w : World unit),
  fbxTree_LightAttribute = Some attributes →
  foldM findLightAttribute acc cs w
  = (Normal (foldl (λ lightAttribute child,
                      match lookupNode (ID child) attributes with
                      | Some attr => Some attr
                      | None => lightAttribute
                      end) acc cs), w).
Proof.
  intros acc w Hattrs. revert acc.
  induction cs as [|child cs IH]; intros acc; [done|].
  cbn [foldM foldl]. rewrite bind_run. unfold findLightAttribute at 1.
  rewrite Hattrs. mrun. apply IH.
Qed.

Lemma Math_max_one (a : float) : (Math_max a 1 <? 1)%float = false.
Proof.
  unfold Math_max. destruct (is_nan a || is_nan 1); [reflexivity|].
  destruct (a <? 1)%float eqn:Hlt; [reflexivity|].
  destruct (1 <? a)%float; [exact Hlt|].
  destruct (get_sign a); [reflexivity | exact Hlt].
Qed.

(** X20.  A light whose resolved attribute has [CastLightOnObject] 0 is
    built with intensity 0 whatever its [Intensity] and its type are (an
    unknown type included); it is still built, not left out. *)
Theorem createLight_disabled relationships attributes lightAttribute (w : World unit) :
  fbxTree_LightAttribute = Some attributes →
  lightAttributeOf attributes (children relationships) = Some lightAttribute →
  CastLightOnObject lightAttribute = Some 0 →
  ∃ light w',
    createLight relationships w = (Normal light, w')
    ∧ light_intensity (light_object light) = Some 0%float.
Proof.
  intros Hattrs Hattr Hcast. unfold createLight.
  rewrite (bind_normal _ _ _ _ _ (createLight_attribute attributes _ None w Hattrs)).
  fold (lightAttributeOf attributes (children relationships)). rewrite Hattr.
  cbn zeta. rewrite (decide_True (P := CastLightOnObject lightAttribute = Some 0)) by done.
  repeat case_decide; mrun; unfold warn, modify; mrun; by eexists _, _.
Qed.

(** X21.  A light whose [LightType] is none of 0, 1 and 2 is built as a
    point light from its colour and intensity alone (the distance of
    [FarAttenuationEnd] is not passed on), and exactly one warning that names
    the type is logged. *)
Theorem createLight_unknown_type relationships attributes lightAttribute type
    (w : World unit) :
  fbxTree_LightAttribute = Some attributes →
  lightAttributeOf attributes (children relationships) = Some lightAttribute →
  LightType lightAttribute = Some type →
  type ≠ 0 → type ≠ 1 → type ≠ 2 →
  ∃ color intensity,
    createLight relationships w
    = (Normal {| light_object := PointLight color intensity None None;
                 castShadow := bool_decide (CastShadows lightAttribute = Some 1) |},
       mkWorld (console w ++ ["THREE.FBXLoader: Unknown light type " +:+ pretty type
                              +:+ ", defaulting to a PointLight."]) (heap w)).
Proof.
  intros Hattrs Hattr Htype H0 H1 H2. unfold createLight.
  rewrite (bind_normal _ _ _ _ _ (createLight_attribute attributes _ None w Hattrs)).
  fold (lightAttributeOf attributes (children relationships)). rewrite Hattr.
  cbn zeta. rewrite Htype. rewrite !(decide_False (P := type = _)) by done.
  mrun. unfold warn, modify. mrun. by eexists _, _.
Qed.

(** X22.  The penumbra of a spot light whose attribute has an [OuterAngle]
    is [Math.max] of the angle in radians and 1: it is never below 1, whatever
    the angle is, while a spot light without [OuterAngle] has penumbra 0. *)
Theorem createLight_spot_penumbra relationships attributes lightAttribute
    (w : World unit) :
  fbxTree_LightAttribute = Some attributes →
  lightAttributeOf attributes (children relationships) = Some lightAttribute →
  LightType lightAttribute = Some 2 →
  ∃ color intensity distance angle penumbra,
    createLight relationships w
    = (Normal {| light_object := SpotLight color intensity distance angle penumbra 1;
                 castShadow := bool_decide (CastShadows lightAttribute = Some 1) |}, w)
    ∧ match OuterAngle lightAttribute with
      | Some value =>
          penumbra = Math_max (degToRad value) 1 ∧ (penumbra <? 1)%float = false
      | None => penumbra = 0%float
      end.
Proof.
  intros Hattrs Hattr Htype. unfold createLight.
  rewrite (bind_normal _ _ _ _ _ (createLight_attribute attributes _ None w Hattrs)).
  fold (lightAttributeOf attributes (children relationships)). rewrite Hattr.
  cbn zeta. rewrite Htype.
  rewrite (decide_False (P := 2 = 0)), (decide_False (P := 2 = 1)),
    (decide_True (P := 2 = 2)) by done.
  mrun. eexists _, _, _, _, _. split; [reflexivity|].
  destruct (OuterAngle lightAttribute); [|done].
  split; [done | apply Math_max_one].
Qed.

(** ** Bind poses and skinning *)

Lemma setBindMatrices_run {H} poseNodes : ∀ bindMatrices (w : World H),
  Forall (λ poseNode, is_Some (pn_Matrix poseNode)) poseNodes →
  foldM setBindMatrix bindMatrices poseNodes w
  = (Normal (foldl (λ m poseNode,
                      <[pn_Node poseNode
                        := Matrix4_fromArray (default [] (pn_Matrix poseNode))]> m)
                   bindMatrices poseNodes), w).
Proof.
  induction poseNodes as [|poseNode poseNodes IH]; intros bindMatrices w Hall; [done|].
  apply Forall_cons in Hall as [[a Ha] Hall].
  cbn [foldM foldl]. rewrite bind_run. unfold setBindMatrix at 1. rewrite Ha. mrun.
  by apply IH.
Qed.

Lemma parsePoseNodes_run {H} nodes : ∀ bindMatrices (w : World H),
  Forall (λ entry, bp_attrType entry.2 = Some "BindPose" → is_Some (bp_PoseNode entry.2))
         nodes →
  Forall (λ poseNode, is_Some (pn_Matrix poseNode)) (bindPoseEntries nodes) →
  foldM parsePoseNode bindMatrices nodes w
  = (Normal (foldl (λ m poseNode,
                      <[pn_Node poseNode
                        := Matrix4_fromArray (default [] (pn_Matrix poseNode))]> m)
                   bindMatrices (bindPoseEntries nodes)), w).
Proof.
  induction nodes as [|entry nodes IH]; intros bindMatrices w Hnodes Hall; [done|].
  apply Forall_cons in Hnodes as [Hentry Hnodes].
  unfold bindPoseEntries in Hall. cbn [mbind list_bind] in Hall.
  apply Forall_app in Hall as [Hhere Hall].
  unfold bindPoseEntries. cbn [mbind list_bind foldM]. rewrite foldl_app, bind_run.
  unfold parsePoseNode at 1. case_decide as Htype.
  - destruct (Hentry Htype) as [poseNodes HposeNodes]. rewrite HposeNodes in Hhere |- *.
    mrun. destruct poseNodes as [poseNodes|poseNode].
    + rewrite (setBindMatrices_run _ _ _ Hhere). by apply IH.
    + apply Forall_cons in Hhere as [[a Ha] _].
      unfold setBindMatrix. rewrite Ha. mrun. cbn [foldl]. rewrite Ha.
      cbn [default from_option id]. by apply IH.
  - mrun. cbn [foldl]. by apply IH.
Qed.

Lemma lookup_foldl_insert {A B} (key : A → Z) (value : A → B) (n : Z) (l : list A) :
  ∀ m : gmap Z B,
    foldl (λ m x, <[key x := value x]> m) m l !! n
    = match last (filter (λ x, key x = n) l) with
      | Some x => Some (value x)
      | None => m !! n
      end.
Proof.
  induction l as [|x l IH] using rev_ind; intros m; [done|].
  rewrite foldl_app, filter_app. cbn [foldl]. rewrite filter_cons, filter_nil.
  case_decide as Hkey.
  - rewrite last_snoc, <- Hkey. apply lookup_insert_eq.
  - rewrite app_nil_r, lookup_insert_ne by done. apply IH.
Qed.

(** X23.  When every BindPose node has pose entries and every such entry
    has a matrix, [parsePoseNodes] returns normally, and the bind matrix of a
    node is the matrix of the last pose entry that names it, over all BindPose
    nodes in order; pose nodes of another type are not read, and a node that no
    entry names has no bind matrix. *)
Theorem parsePoseNodes_last_entry {H} nodes (w : World H) :
  fbxTree_Pose = Some nodes →
  Forall (λ entry, bp_attrType entry.2 = Some "BindPose" → is_Some (bp_PoseNode entry.2))
         nodes →
  Forall (λ poseNode, is_Some (pn_Matrix poseNode)) (bindPoseEntries nodes) →
  ∃ bindMatrices,
    parsePoseNodes w = (Normal bindMatrices, w)
    ∧ ∀ n, bindMatrices !! n
           = (poseNode ← last (filter (λ poseNode, pn_Node poseNode = n)
                                      (bindPoseEntries nodes));
              Matrix4_fromArray <$> pn_Matrix poseNode).
Proof.
  intros Hpose Hnodes Hall. unfold parsePoseNodes. rewrite Hpose.
  rewrite (parsePoseNodes_run _ _ _ Hnodes Hall). eexists. split; [reflexivity|].
  intros n. rewrite lookup_foldl_insert, lookup_empty.
  destruct (last _) as [poseNode|] eqn:Hlast; [|done].
  cbn [mbind option_bind].
  assert (Hin : poseNode ∈ bindPoseEntries nodes).
  { apply last_Some in Hlast as [l' Hl'].
    assert (Hin : poseNode ∈ filter (λ p, pn_Node p = n) (bindPoseEntries nodes)).
    { rewrite Hl'. apply elem_of_app. right. by left. }
    by apply list_elem_of_filter in Hin as [_ Hin]. }
  destruct (proj1 (Forall_forall _ _) Hall poseNode Hin) as [a Ha]. by rewrite Ha.
Qed.

Lemma bindingsOf_app bindMatrices skeleton l1 l2 :
  bindingsOf bindMatrices skeleton (l1 ++ l2)
  = bindingsOf bindMatrices skeleton l1 ++ bindingsOf bindMatrices skeleton l2.
Proof. apply fmap_app. Qed.

Lemma bindModels_run modelMap bindMatrices skeleton geoParents :
  ∀ w : World (list Binding),
    (∀ p, p ∈ geoParents → is_Some (lookupNode (ID p) modelMap) →
          lookupNode (ID p) modelMap = Some KSkinnedMesh) →
    forEach (bindModel modelMap bindMatrices skeleton) geoParents w
    = (Normal tt,
       mkWorld (console w)
         (heap w ++
          bindingsOf bindMatrices skeleton (p ← geoParents;
               if decide (is_Some (lookupNode (ID p) modelMap)) then [ID p] else []))).
Proof.
  induction geoParents as [|p ps IH]; intros [log h] Hskinned.
  - cbn. by rewrite app_nil_r.
  - cbn [forEach mbind list_bind]. rewrite bind_run. unfold bindModel at 1.
    destruct (lookupNode (ID p) modelMap) as [kind|] eqn:Hkind.
    + rewrite (decide_True (P := is_Some (Some kind))) by by eexists.
      assert (kind = KSkinnedMesh) as ->.
      { assert (Hk : lookupNode (ID p) modelMap = Some KSkinnedMesh).
        { apply Hskinned; [by left | by eexists]. }
        congruence. }
      unfold getHeap, setHeap, modify. mrun. cbn [heap console].
      rewrite IH by (intros p' Hp'; apply Hskinned; by right).
      cbn [heap console app fmap list_fmap]. by rewrite <- app_assoc.
    + rewrite decide_False by (by intros [? ?]). mrun. cbn [app].
      apply IH. intros p' Hp'. apply Hskinned. by right.
Qed.

Lemma bindGeometries_run geometryMap modelMap bindMatrices skeleton ps :
  ∀ w : World (list Binding),
    (∀ parent, parent ∈ ps → is_Some (geometryMap !! ID parent) →
               is_Some (connections !! ID parent)) →
    (∀ model,
       model ∈ (parent ← ps;
                if decide (is_Some (geometryMap !! ID parent)) then
                  geoRelationships ← option_list (connections !! ID parent);
                  geoConnParent ← parents geoRelationships;
                  if decide (is_Some (lookupNode (ID geoConnParent) modelMap))
                  then [ID geoConnParent] else []
                else []) →
       lookupNode model modelMap = Some KSkinnedMesh) →
    forEach (bindGeometry geometryMap modelMap bindMatrices skeleton) ps w
    = (Normal tt,
       mkWorld (console w)
         (heap w ++
          bindingsOf bindMatrices skeleton (parent ← ps;
               if decide (is_Some (geometryMap !! ID parent)) then
                 geoRelationships ← option_list (connections !! ID parent);
                 geoConnParent ← parents geoRelationships;
                 if decide (is_Some (lookupNode (ID geoConnParent) modelMap))
                 then [ID geoConnParent] else []
               else []))).
Proof.
  induction ps as [|parent ps IH]; intros [log h] Hconn Hskinned.
  - cbn. by rewrite app_nil_r.
  - cbn [forEach mbind list_bind] in *. rewrite bind_run. unfold bindGeometry at 1.
    destruct (geometryMap !! ID parent) as [g|] eqn:Hgeo.
    + rewrite (decide_True (P := is_Some (Some g))) in * by by eexists.
      destruct (Hconn parent) as [geoRel HgeoRel]; [by left | by eexists |].
      rewrite HgeoRel in *. change (option_list (Some geoRel)) with [geoRel] in *.
      cbn [mbind list_bind] in Hskinned |- *. rewrite app_nil_r in Hskinned |- *. mrun.
      rewrite bindModels_run.
      2:{ intros p Hp Hsome. apply Hskinned. apply elem_of_app. left.
          apply list_elem_of_bind. exists p. split; [|done].
          rewrite decide_True by done. by left. }
      cbn [heap console].
      rewrite IH.
      2:{ intros p Hp. apply Hconn. by right. }
      2:{ intros model Hmodel. apply Hskinned. apply elem_of_app. by right. }
      cbn [heap console]. by rewrite bindingsOf_app, app_assoc.
    + rewrite (decide_False (P := is_Some None)) in * by (by intros [? ?]).
      mrun. cbn [app] in *. apply IH.
      * intros p Hp. apply Hconn. by right.
      * exact Hskinned.
Qed.

Lemma bindOne_run geometryMap modelMap bindMatrices entry (w : World (list Binding)) :
  bindable geometryMap modelMap entry.2 →
  bindOne geometryMap modelMap bindMatrices entry w
  = (Normal tt,
     mkWorld (console w)
       (heap w ++
        bindingsOf bindMatrices entry.2
          (reachedModels geometryMap modelMap entry.2))).
Proof.
  intros [(id & rel & Hid & Hrel & Hconn) Hskinned].
  unfold bindOne, reachedModels in *. cbn zeta. rewrite Hid in *.
  cbn [mbind option_bind] in *. rewrite Hrel in *.
  change (option_list (Some rel)) with [rel] in *.
  cbn [mbind list_bind] in Hskinned |- *. rewrite app_nil_r in Hskinned |- *. mrun.
  by apply bindGeometries_run.
Qed.

(** X24.  When the bind poses are read and every skeleton is bindable (its
    deformer and the geometries among that deformer's parents have connection
    entries, and the models it reaches are skinned meshes), [bindSkeleton]
    returns normally and calls [bind] once per skeleton and reached model, in
    the order of the skeletons and of the connections, with the bones of the
    skeleton and the bind matrix recorded for the model ([undefined] when there
    is none); it logs nothing. *)
Theorem bindSkeleton_binds skeletons geometryMap modelMap bindMatrices
    (w : World (list Binding)) :
  parsePoseNodes w = (Normal bindMatrices, w) →
  Forall (λ entry, bindable geometryMap modelMap entry.2) skeletons →
  bindSkeleton skeletons geometryMap modelMap w
  = (Normal tt,
     mkWorld (console w)
       (heap w ++
        (entry ← skeletons;
         bindingsOf bindMatrices entry.2
           (reachedModels geometryMap modelMap entry.2)))).
Proof.
  intros Hposes Hall. unfold bindSkeleton. rewrite (bind_normal _ _ _ _ _ Hposes).
  clear Hposes. revert w.
  induction skeletons as [|entry skeletons IH]; intros [log h].
  - cbn. by rewrite app_nil_r.
  - apply Forall_cons in Hall as [Hentry Hall].
    cbn [forEach mbind list_bind]. rewrite bind_run, (bindOne_run _ _ _ _ _ Hentry).
    rewrite (IH Hall). cbn [heap console]. by rewrite app_assoc.
Qed.

Lemma elem_of_option_list {A} (x : A) (o : option A) : x ∈ option_list o → o = Some x.
Proof.
  destruct o as [y|]; cbn; [|by intros ?%elem_of_nil].
  by intros ->%list_elem_of_singleton.
Qed.

Lemma forEach_raises {S A} (body : A → M S unit) (xs : list A) (x : A) :
  x ∈ xs →
  (∀ y, onlyTypeError (body y)) →
  (∀ s, ∃ msg s', body x s = (Throw (TypeError msg), s')) →
  ∀ s, ∃ msg s', forEach body xs s = (Throw (TypeError msg), s').
Proof.
  intros Hin Honly Hraises.
  induction xs as [|y ys IH]; intros s; [by apply elem_of_nil in Hin|].
  cbn [forEach]. rewrite bind_run.
  destruct (body y s) as [[[]|e] s1] eqn:Hrun.
  - apply elem_of_cons in Hin as [<-|Hin]; [|by apply IH].
    destruct (Hraises s) as (msg & s' & Hx). congruence.
  - destruct (Honly y _ _ _ Hrun) as [msg ->]. by eexists _, _.
Qed.

Lemma onlyTypeError_throw {S A} msg : onlyTypeError (@throw S A (TypeError msg)).
Proof. intros s e s' Hrun. inversion Hrun. by eexists. Qed.

Lemma onlyTypeError_bindModel modelMap bindMatrices skeleton p :
  onlyTypeError (bindModel modelMap bindMatrices skeleton p).
Proof.
  unfold bindModel.
  repeat first
    [ apply onlyTypeError_ret | apply onlyTypeError_throw
    | apply onlyTypeError_getHeap | apply onlyTypeError_setHeap
    | apply onlyTypeError_bind; [|intros ?]
    | case_match ].
Qed.

Lemma onlyTypeError_bindGeometry geometryMap modelMap bindMatrices skeleton parent :
  onlyTypeError (bindGeometry geometryMap modelMap bindMatrices skeleton parent).
Proof.
  unfold bindGeometry. case_match; [|apply onlyTypeError_ret].
  apply onlyTypeError_bind; [apply onlyTypeError_prop | intros rel].
  apply onlyTypeError_forEach. intros p. apply onlyTypeError_bindModel.
Qed.

Lemma onlyTypeError_bindOne geometryMap modelMap bindMatrices entry :
  onlyTypeError (bindOne geometryMap modelMap bindMatrices entry).
Proof.
  unfold bindOne. apply onlyTypeError_bind; [apply onlyTypeError_prop | intros rel].
  apply onlyTypeError_forEach. intros p. apply onlyTypeError_bindGeometry.
Qed.

(** X25.  Only a skinned mesh can be bound.  When a skeleton reaches a
    constructed model that is not a [SkinnedMesh] (a mesh whose last geometry
    carries no deformer, a group, a bone), [bindSkeleton] raises a
    [TypeError]: the model has no [bind] method. *)
Theorem bindSkeleton_unskinned_model skeletons geometryMap modelMap bindMatrices
    (w : World (list Binding)) k skeleton model kind :
  parsePoseNodes w = (Normal bindMatrices, w) →
  (k, skeleton) ∈ skeletons →
  model ∈ reachedModels geometryMap modelMap skeleton →
  lookupNode model modelMap = Some kind →
  kind ≠ KSkinnedMesh →
  ∃ msg w', bindSkeleton skeletons geometryMap modelMap w = (Throw (TypeError msg), w').
Proof.
  intros Hposes Hin Hmodel Hkind Hnot. unfold bindSkeleton.
  rewrite (bind_normal _ _ _ _ _ Hposes).
  apply (forEach_raises _ _ (k, skeleton) Hin);
    [intros entry; apply onlyTypeError_bindOne|].
  unfold reachedModels in Hmodel.
  apply list_elem_of_bind in Hmodel as (rel & Hmodel & Hrel).
  apply elem_of_option_list in Hrel.
  apply list_elem_of_bind in Hmodel as (parent & Hmodel & Hparent).
  case_decide as Hgeo; [|by apply elem_of_nil in Hmodel].
  apply list_elem_of_bind in Hmodel as (geoRel & Hmodel & HgeoRel).
  apply elem_of_option_list in HgeoRel.
  apply list_elem_of_bind in Hmodel as (geoConnParent & Hmodel & HgeoConnParent).
  case_decide as Hsome; [|by apply elem_of_nil in Hmodel].
  apply list_elem_of_singleton in Hmodel. subst model.
  intros s. unfold bindOne. cbn [snd]. rewrite Hrel. mrun.
  apply (forEach_raises _ _ parent Hparent);
    [intros p; apply onlyTypeError_bindGeometry|].
  intros s1. unfold bindGeometry. destruct Hgeo as [g ->]. rewrite HgeoRel. mrun.
  apply (forEach_raises _ _ geoConnParent HgeoConnParent);
    [intros p; apply onlyTypeError_bindModel|].
  intros s2. unfold bindModel. rewrite Hkind.
  destruct kind; try done; by eexists _, _.
Qed.

(** ** The texture maps of a material *)

Lemma getTexture_plain {H} textureMap id (w : World H) :
  (∀ layered, fbxTree_LayeredTexture = Some layered → id ∉ layered) →
  getTexture textureMap id w
  = (Normal ((λ texture, (id, texture)) <$> textureMap !! id), w).
Proof.
  intros Hplain. unfold getTexture.
  destruct fbxTree_LayeredTexture as [layered|]; [|by mrun].
  rewrite decide_False by by apply Hplain. by mrun.
Qed.

(** X26.  A layered texture stands for its first layer: [getTexture] then
    logs one warning and returns the texture registered for the first child
    of the layered texture ([undefined] when that child is not registered); a
    layered texture without a connection entry or without children makes it
    raise a [TypeError]. *)
Theorem getTexture_layered {H} textureMap layered id (w : World H) :
  fbxTree_LayeredTexture = Some layered →
  id ∈ layered →
  match connections !! id ≫= λ rel, head (children rel) with
  | Some first =>
      getTexture textureMap id w
      = (Normal ((λ texture, (ID first, texture)) <$> textureMap !! ID first),
         mkWorld (console w ++ ["THREE.FBXLoader: layered textures are not supported in three.js. "
                                +:+ "Discarding all but first layer."]) (heap w))
  | None =>
      ∃ msg w', getTexture textureMap id w = (Throw (TypeError msg), w')
  end.
Proof.
  intros Hlayered Hid. unfold getTexture. rewrite Hlayered, decide_True by done.
  unfold warn, modify. mrun.
  destruct (connections !! id) as [rel|]; cbn [mbind option_bind]; mrun;
    [|by eexists _, _].
  destruct (head (children rel)) as [first|]; mrun; [done | by eexists _, _].
Qed.

Lemma onlyTypeError_getTexture {H} textureMap id :
  onlyTypeError (@getTexture H textureMap id).
Proof. unfold getTexture. only_type_error. Qed.

Lemma onlyTypeError_set_encoding texture : onlyTypeError (set_encoding texture).
Proof.
  unfold set_encoding. destruct texture; [|apply onlyTypeError_throw].
  apply onlyTypeError_bind; [apply onlyTypeError_getHeap | intros h].
  apply onlyTypeError_setHeap.
Qed.

Lemma onlyTypeError_set_mapping texture : onlyTypeError (set_mapping texture).
Proof.
  unfold set_mapping. destruct texture; [|apply onlyTypeError_throw].
  apply onlyTypeError_bind; [apply onlyTypeError_getHeap | intros h].
  apply onlyTypeError_setHeap.
Qed.

Lemma onlyTypeError_mapTexture textureMap parameters child :
  onlyTypeError (mapTexture textureMap parameters child).
Proof.
  unfold mapTexture.
  repeat first
    [ apply onlyTypeError_ret | apply onlyTypeError_warn
    | apply onlyTypeError_getTexture
    | apply onlyTypeError_set_encoding | apply onlyTypeError_set_mapping
    | apply onlyTypeError_bind; [|intros ?]
    | case_decide ].
Qed.

Lemma foldM_raises {S A B} (body : B → A → M S B) (xs : list A) (x : A) :
  x ∈ xs →
  (∀ acc y, onlyTypeError (body acc y)) →
  (∀ acc s, ∃ msg s', body acc x s = (Throw (TypeError msg), s')) →
  ∀ acc s, ∃ msg s', foldM body acc xs s = (Throw (TypeError msg), s').
Proof.
  intros Hin Honly Hraises.
  induction xs as [|y ys IH]; intros acc s; [by apply elem_of_nil in Hin|].
  cbn [foldM]. rewrite bind_run.
  destruct (body acc y s) as [[acc'|e] s1] eqn:Hrun.
  - apply elem_of_cons in Hin as [<-|Hin]; [|by apply IH].
    destruct (Hraises acc s) as (msg & s' & Hx). congruence.
  - destruct (Honly acc y _ _ _ Hrun) as [msg ->]. by eexists _, _.
Qed.

(** X27.  A colour map must exist.  When a child of a material is connected
    as a diffuse, emissive, reflection or specular colour map and names no
    registered texture (and no layered texture), the connection loop of
    [parseParameters] raises a [TypeError]: a property of [undefined] is
    assigned.  *)
Theorem mapTextures_missing_texture textureMap id parameters rel child
    (w : World TextureSettings) :
  connections !! id = Some rel →
  child ∈ children rel →
  encodedMap (relationship child) →
  (∀ layered, fbxTree_LayeredTexture = Some layered → ID child ∉ layered) →
  textureMap !! ID child = None →
  ∃ msg w', mapTextures textureMap id parameters w = (Throw (TypeError msg), w').
Proof.
  intros Hrel Hin Hencoded Hplain Hnone. unfold mapTextures. rewrite Hrel. mrun.
  apply (foldM_raises _ _ child Hin); [intros; apply onlyTypeError_mapTexture|].
  intros acc s. unfold mapTexture. cbn zeta.
  destruct Hencoded as [Htype|[Htype|[Htype|[Htype|Htype]]]]; rewrite Htype;
    repeat first
      [ rewrite decide_True by (first [reflexivity | by left | by right])
      | rewrite decide_False
          by (first [discriminate | (intros [Hd|Hd]; discriminate Hd)]) ];
    rewrite bind_run, (getTexture_plain _ _ _ Hplain), Hnone;
    cbn [fmap option_fmap option_map]; rewrite bind_run;
    by eexists _, _.
Qed.

(** X28.  A child of a material whose relationship is none of the supported
    maps (an unlabelled connection included) is skipped with one warning that
    names the relationship: when no child is a supported map, the loop leaves
    the parameters as they are, sets nothing on any texture and logs one
    warning per child, in connection order. *)
Theorem mapTextures_unsupported textureMap id parameters rel
    (w : World TextureSettings) :
  connections !! id = Some rel →
  (∀ child, child ∈ children rel → ¬ supportedMap (relationship child)) →
  mapTextures textureMap id parameters w
  = (Normal parameters,
     mkWorld (console w ++
              ((λ child, "THREE.FBXLoader: " +:+ default "undefined" (relationship child)
                         +:+ " map is not supported in three.js, skipping texture.")
               <$> children rel))
             (heap w)).
Proof.
  intros Hrel Hall. unfold mapTextures. rewrite Hrel. mrun. clear Hrel.
  revert w. induction (children rel) as [|child cs IH]; intros [log h].
  - cbn. by rewrite app_nil_r.
  - assert (Hchild : ¬ supportedMap (relationship child)) by (apply Hall; by left).
    cbn [foldM fmap list_fmap]. rewrite bind_run. unfold mapTexture at 1. cbn zeta.
    repeat (case_decide as Hd;
            [ exfalso; apply Hchild; unfold supportedMap;
              first [ rewrite Hd | destruct Hd as [Hd|Hd]; rewrite Hd ];
              by apply (bool_decide_unpack _) | clear Hd]).
    unfold warn, modify. mrun. cbn [console heap].
    rewrite IH by (intros c Hc; apply Hall; by right).
    cbn [console heap]. by rewrite <- app_assoc.
Qed.

(** ** Materials: the registry *)

Lemma bind_inv {S A B} (c : M S A) (k : A → M S B) (s s' : S) (b : B) :
  (c ≫= k) s = (Normal b, s') →
  ∃ a s1, c s = (Normal a, s1) ∧ k a s1 = (Normal b, s').
Proof.
  rewrite bind_run. destruct (c s) as [[a|e] s1]; [|discriminate]. by exists a, s1.
Qed.

Lemma parseMaterial_connected materialNode textureMap w material w' :
  parseMaterial materialNode textureMap w = (Normal material, w') →
  is_Some material ↔ is_Some (connections !! mn_id materialNode).
Proof.
  unfold parseMaterial. cbn zeta.
  destruct (connections !! mn_id materialNode) as [rel|].
  - intros Hrun.
    apply bind_inv in Hrun as (parameters & w1 & _ & Hrun).
    apply bind_inv in Hrun as (t & w2 & _ & Hrun).
    apply bind_inv in Hrun as (kind & w3 & _ & Hrun).
    apply bind_inv in Hrun as (m & w4 & _ & Hrun).
    inversion Hrun; subst. split; by eexists.
  - intros Hrun. inversion Hrun; subst. split; by intros [? ?].
Qed.

Lemma parseMaterials_loop_registry textureMap materialNodes :
  ∀ acc w materialMap w',
    foldM (registerMaterial textureMap) acc materialNodes w = (Normal materialMap, w') →
    ∀ k, is_Some (materialMap !! k)
         ↔ is_Some (acc !! k)
           ∨ ∃ node, (k, node) ∈ materialNodes ∧ is_Some (connections !! mn_id node).
Proof.
  induction materialNodes as [|[nodeID node] materialNodes IH];
    intros acc w materialMap w' Hrun k.
  - inversion Hrun; subst. split; [by left|].
    intros [Hacc|(node & Hin & _)]; [done | by apply elem_of_nil in Hin].
  - cbn [foldM] in Hrun. apply bind_inv in Hrun as (acc1 & w1 & Hstep & Hrun).
    rewrite (IH _ _ _ _ Hrun k). clear IH Hrun.
    unfold registerMaterial in Hstep.
    apply bind_inv in Hstep as (material & w2 & Hmaterial & Hstep).
    apply parseMaterial_connected in Hmaterial.
    inversion Hstep; subst; clear Hstep.
    destruct material as [m|].
    + assert (Hconn : is_Some (connections !! mn_id node)) by (apply Hmaterial; by eexists).
      rewrite lookup_insert. destruct (decide (nodeID = k)) as [->|Hne].
      * split; [|by intros; left; eexists].
        intros _. right. exists node. split; [by left | done].
      * split.
        -- intros [Hacc|(n & Hin & Hn)]; [by left|].
           right. exists n. split; [by right | done].
        -- intros [Hacc|(n & Hin & Hn)]; [by left|].
           apply elem_of_cons in Hin as [Heq|Hin]; [congruence|].
           right. by exists n.
    + assert (Hconn : ¬ is_Some (connections !! mn_id node)).
      { intros Hsome%Hmaterial. by destruct Hsome. }
      split.
      * intros [Hacc|(n & Hin & Hn)]; [by left|].
        right. exists n. split; [by right | done].
      * intros [Hacc|(n & Hin & Hn)]; [by left|].
        apply elem_of_cons in Hin as [Heq|Hin].
        -- inversion Heq; subst. done.
        -- right. by exists n.
Qed.

(** X29.  When [parseMaterials] returns, the material registry has an entry
    for a key exactly when a Material node stored under that key has an entry
    in the connection graph: a used material is never dropped, whatever its
    parameters are. *)
Theorem parseMaterials_registry textureMap materialNodes w materialMap w' :
  Material_nodes fbxTree_Objects = Some materialNodes →
  parseMaterials textureMap w = (Normal materialMap, w') →
  ∀ k, is_Some (materialMap !! k)
       ↔ ∃ node, (k, node) ∈ materialNodes ∧ is_Some (connections !! mn_id node).
Proof.
  intros Hnodes Hrun k. rewrite (parseMaterials_unfold _ _ Hnodes) in Hrun.
  rewrite (parseMaterials_loop_registry _ _ _ _ _ _ Hrun k), lookup_empty.
  split; [intros [[? ?]|?]; done | by right].
Qed.

(** ** The loader: when a scene is returned *)

(** X30.  [parse] returns a scene exactly when the tree parser returns it
    for the tree of a decoder: the binary decoder for a buffer recognised as
    binary, whatever its version is, and the text decoder for a text that is
    recognised as ASCII FBX and whose version is at least 7000. *)
Theorem FBXLoader_parse_returns (FBXBuffer : Buffer) (scene : Scene) :
  FBXLoader_parse FBXBuffer = Normal scene
  ↔ ∃ fbxTree,
      FBXTreeParser_parse fbxTree = Normal scene
      ∧ (isFbxFormatBinary FBXBuffer = true
         ∧ BinaryParser_parse FBXBuffer = Normal fbxTree
         ∨ isFbxFormatBinary FBXBuffer = false
           ∧ isFbxFormatASCII (convertArrayBufferToString FBXBuffer) = true
           ∧ (∃ version,
                getFbxVersion (convertArrayBufferToString FBXBuffer) = Normal version
                ∧ 7000 ≤ version)
           ∧ TextParser_parse (convertArrayBufferToString FBXBuffer) = Normal fbxTree).
Proof.
  unfold FBXLoader_parse. cbn zeta. split.
  - destruct (isFbxFormatBinary FBXBuffer).
    + destruct (BinaryParser_parse FBXBuffer) as [fbxTree|e]; [|discriminate].
      cbn [andThen]. intros Hscene. exists fbxTree. split; [done|]. by left.
    + destruct (isFbxFormatASCII (convertArrayBufferToString FBXBuffer));
        [|discriminate].
      cbn [negb].
      destruct (getFbxVersion (convertArrayBufferToString FBXBuffer)) as [version|e];
        [|discriminate].
      cbn [andThen]. case_decide as Hversion; [discriminate|].
      destruct (TextParser_parse (convertArrayBufferToString FBXBuffer))
        as [fbxTree|e]; [|discriminate].
      cbn [andThen]. intros Hscene. exists fbxTree. split; [done|]. right.
      split_and!; [done | done | exists version; split; [done | lia] | done].
  - intros (fbxTree & Hscene & [[-> ->]|(-> & -> & (version & -> & Hversion) & ->)]).
    + done.
    + cbn [negb andThen]. by rewrite decide_False by lia.
Qed.

End FBXTreeParser.

(* ================================================================== *)
(** * The properties on concrete scenes *)
(* ================================================================== *)

(** ** A connection graph *)

Lemma parseConnections_edges_witness :
  ∃ rf rt,
    parseConnections (Some demo_rawConnections) !! 1 = Some rf
    ∧ mkEdge 4 None ∈ parents rf
    ∧ parseConnections (Some demo_rawConnections) !! 4 = Some rt
    ∧ mkEdge 1 None ∈ children rt.
Proof.
  apply (proj1 (parseConnections_edges demo_rawConnections) (mkConn 1 4 None)).
  unfold demo_rawConnections. set_solver.
Defined.

Example parseConnections_absent : parseConnections None = ∅.
Proof. reflexivity. Qed.

(** Repeated triples are kept, in input order. *)
Example parseConnections_repeated :
  parseConnections (Some [mkConn 1 2 None; mkConn 1 2 None]) !! 1
  = Some (mkRel [mkEdge 2 None; mkEdge 2 None] []).
Proof. vm_compute. reflexivity. Qed.

(** ** A texture *)

Lemma parseTexture_wrap_witness :
  ∃ texture w',
    parseTexture demo_textureConnections false demo_textureNode demo_images
      (mkWorld [] (Some "textures/")) = (Normal texture, w')
    ∧ (wrapS texture, wrapT texture) = (ClampToEdgeWrapping, RepeatWrapping).
Proof.
  destruct (parseTexture_wrap demo_textureConnections false demo_textureNode demo_images
              (mkWorld [] (Some "textures/"))
              (mkRel [] [mkEdge 20 None]) "C:\textures\wood.png")
    as (texture & w' & Hrun & _ & _ & _ & _ & _ & _ & Hwrap).
  - vm_compute. reflexivity.
  - reflexivity.
  - exists texture, w'. split; [exact Hrun|]. apply Hwrap; reflexivity.
Defined.

Example parseTexture_demo :
  parseTexture demo_textureConnections false demo_textureNode demo_images
    (mkWorld [] (Some "textures/"))
  = (Normal {| tex_source := TextureLoader_load (Some "textures/") (Some "wood.png");
               tex_ID := Some 10; tex_name := Some "wood";
               wrapS := ClampToEdgeWrapping; wrapT := RepeatWrapping;
               tex_repeat := (Some 1%float, Some 1%float) |},
     mkWorld [] (Some "textures/")).
Proof. vm_compute. reflexivity. Qed.

(** A texture without a connection entry makes [loadTexture] raise. *)
Example parseTexture_unconnected :
  ∃ msg, parseTexture ∅ false demo_textureNode demo_images (mkWorld [] None)
         = (Throw (TypeError msg), mkWorld [] None).
Proof. eexists. vm_compute. reflexivity. Qed.

(** ** Materials *)

Lemma parseMaterials_unused_witness :
  parseMaterial demo_materialConnections demo_parseParameters
    {| mn_id := 31; mn_attrName := Some "unused";
       mn_ShadingModel := Some (ShadingProperty "lambert") |} ∅ (mkWorld [] [])
  = (Normal None, mkWorld [] [])
  ∧ ∀ materialMap w',
      parseMaterials demo_materialObjects demo_materialConnections demo_parseParameters ∅
        (mkWorld [] []) = (Normal materialMap, w') →
      materialMap !! 31 = None.
Proof.
  apply (parseMaterials_unused demo_materialObjects demo_materialConnections
           demo_parseParameters ∅ demo_materialNodes 31).
  - reflexivity.
  - intros k n Hin. unfold demo_materialNodes in Hin.
    repeat (apply elem_of_cons in Hin as [Hin|Hin]; [by inversion Hin|]).
    by apply elem_of_nil in Hin.
  - unfold demo_materialNodes. set_solver.
  - vm_compute. reflexivity.
Defined.

Example parseMaterials_demo :
  parseMaterials demo_materialObjects demo_materialConnections demo_parseParameters ∅
    (mkWorld [] [])
  = (Normal {[ 30 := 0%nat ]},
     mkWorld [] [ {| mat_kind := MeshPhongMaterial; mat_parameters := [];
                     mat_name := Some "red"; vertexColors := false; skinning := false |} ]).
Proof. vm_compute. reflexivity. Qed.

(** ** Skeletons and joints *)

Lemma skeleton_bones_witness :
  (∃ skeleton,
     parseSkeleton demo_skinRelationships demo_deformerNodes (mkWorld [] tt)
     = (Normal skeleton, mkWorld [] tt)
     ∧ rb_ID <$> rawBones skeleton = [101; 102]
     ∧ length (rawBones skeleton) = 2%nat)
  ∧ (∃ skeletons',
       buildSkeleton demo_sanitizeNodeName demo_boneRelationships demo_skeletons
         500 (Some "hip") []
       = (Some 1%nat,
          [ {| bone_name := "hip"; bone_ID := 500;
               matrixWorld := Matrix4_fromArray [1%float];
               bone_parent := Some 1%nat; bone_children := [] |};
            {| bone_name := "hip"; bone_ID := 500;
               matrixWorld := Matrix4_fromArray [1%float];
               bone_parent := None; bone_children := [0%nat] |} ],
          skeletons')).
Proof.
  split.
  - apply (proj1 (skeleton_bones demo_sanitizeNodeName)
             demo_skinRelationships demo_deformerNodes (mkWorld [] tt)).
    repeat (apply Forall_cons_2;
            [ eexists; split; [reflexivity|]; cbn; intros Htype;
              first [ discriminate
                    | split; [by eexists|]; intros [? Hindexes];
                      first [discriminate | by eexists] ] |]).
    apply Forall_nil_2.
  - apply (proj2 (skeleton_bones demo_sanitizeNodeName)
             demo_boneRelationships demo_skeletons 500 (Some "hip") []
             (demo_rawBone 101) (demo_rawBone 101)).
    vm_compute. reflexivity.
Defined.

Example buildSkeleton_demo :
  buildSkeleton demo_sanitizeNodeName demo_boneRelationships demo_skeletons
    500 (Some "hip") []
  = (Some 1%nat,
     [ {| bone_name := "hip"; bone_ID := 500; matrixWorld := Matrix4_fromArray [1%float];
          bone_parent := Some 1%nat; bone_children := [] |};
       {| bone_name := "hip"; bone_ID := 500; matrixWorld := Matrix4_fromArray [1%float];
          bone_parent := None; bone_children := [0%nat] |} ],
     [ (100, {| rawBones := [demo_rawBone 101; demo_rawBone 102]; bones := [Some 0%nat];
                sk_ID := Some 100; geometryID := Some 60 |});
       (110, {| rawBones := [demo_rawBone 104; demo_rawBone 101];
                bones := [None; Some 1%nat];
                sk_ID := Some 110; geometryID := Some 61 |}) ]).
Proof. vm_compute. reflexivity. Qed.

(** A child of a skin that is no deformer node makes [parseSkeleton] raise. *)
Example parseSkeleton_unresolved_child :
  ∃ msg,
    parseSkeleton {| parents := []; children := [mkEdge 999 None] |} demo_deformerNodes
      (mkWorld [] tt) = (Throw (TypeError msg), mkWorld [] tt).
Proof. eexists. vm_compute. reflexivity. Qed.

(** ** Morph targets *)

(** C9 as the specification states it fails: the only child of the BlendShape
    resolves to a deformer node that is no BlendShapeChannel, and
    [parseMorphTargets] does not return [undefined] but raises. *)
Lemma parseMorphTargets_other_child_raises :
  lookupNode 202 demo_morphNodes = Some (demo_subDeformer 202)
  ∧ dn_attrType (demo_subDeformer 202) ≠ Some "BlendShapeChannel"
  ∧ parseMorphTargets demo_morphConnections
      {| parents := [mkEdge 60 None]; children := [mkEdge 202 None] |}
      demo_morphNodes (mkWorld [] tt)
    = (Throw (TypeError "Cannot read property of undefined: a"), mkWorld [] tt)
  ∧ parseMorphTargets demo_morphConnections
      {| parents := [mkEdge 60 None]; children := [mkEdge 202 None] |}
      demo_morphNodes (mkWorld [] tt)
    ≠ (Normal None, mkWorld [] tt).
Proof.
  split; [reflexivity|]. split; [discriminate|].
  assert (Hrun : parseMorphTargets demo_morphConnections
                   {| parents := [mkEdge 60 None]; children := [mkEdge 202 None] |}
                   demo_morphNodes (mkWorld [] tt)
                 = (Throw (TypeError "Cannot read property of undefined: a"), mkWorld [] tt))
    by (vm_compute; reflexivity).
  split; [exact Hrun|]. rewrite Hrun. discriminate.
Qed.

Lemma parseMorphTargets_other_child_witness :
  parseMorphTargets demo_morphConnections
    {| parents := [mkEdge 60 None];
       children := [mkEdge 201 None; mkEdge 203 None; mkEdge 204 None] |}
    demo_morphNodes (mkWorld [] tt)
  = (Normal None, mkWorld [] tt).
Proof.
  apply (proj1 (parseMorphTargets_other_child demo_morphConnections
                  {| parents := [mkEdge 60 None];
                     children := [mkEdge 201 None; mkEdge 203 None; mkEdge 204 None] |}
                  demo_morphNodes [mkEdge 201 None] (mkEdge 203 None) [mkEdge 204 None]
                  (demo_weightedDeformer 203) (mkWorld [] tt)
                  eq_refl
                  ltac:(apply Forall_cons_2; [|apply Forall_nil_2];
                        exists (demo_channel 201), (mkRel [] [mkEdge 70 None]);
                        split_and!; [reflexivity | reflexivity | by eexists
                                    | vm_compute; reflexivity | by eexists])
                  eq_refl
                  ltac:(discriminate))).
  by eexists.
Defined.

(** With channels only, every channel is collected. *)
Example parseMorphTargets_channels :
  ∃ targets,
    parseMorphTargets demo_morphConnections
      {| parents := [mkEdge 60 None]; children := [mkEdge 201 None; mkEdge 204 None] |}
      demo_morphNodes (mkWorld [] tt)
    = (Normal (Some targets), mkWorld [] tt)
    ∧ geoID <$> targets = [Some 70; Some 71].
Proof. eexists. split; vm_compute; reflexivity. Qed.

(** ** The deformer registry *)

Lemma parseDeformers_skin_without_parent_witness :
  ∃ msg w',
    parseDeformers demo_deformerObjects demo_deformerConnections (mkWorld [] tt)
    = (Throw (TypeError msg), w').
Proof.
  apply (proj1 (parseDeformers_skin_without_parent demo_deformerObjects
                  demo_deformerConnections)
           demo_deformerNodes 100 (demo_skin 100)
           {| parents := []; children := [mkEdge 101 None; mkEdge 102 None] |}
           (mkWorld [] tt)).
  - reflexivity.
  - unfold demo_deformerNodes. set_solver.
  - reflexivity.
  - vm_compute. reflexivity.
  - reflexivity.
Defined.

Example parseDeformers_demo :
  parseDeformers demo_deformerObjects demo_deformerConnections (mkWorld [] tt)
  = (Throw (TypeError "Cannot read property of undefined: ID"), mkWorld [] tt).
Proof. vm_compute. reflexivity. Qed.

(** The skin 103 alone: two parents, the first one recorded, one warning. *)
Example parseDeformer_two_parents :
  parseDeformer demo_deformerConnections demo_deformerNodes
    {| skeletons := []; morphTargets := [] |} (103, demo_skin 103) (mkWorld [] tt)
  = (Normal {| skeletons := [(103, {| rawBones := []; bones := []; sk_ID := Some 103;
                                      geometryID := Some 60 |})];
               morphTargets := [] |},
     mkWorld ["THREE.FBXLoader: skeleton attached to more than one geometry is not supported."] tt).
Proof. vm_compute. reflexivity. Qed.

(** ** A camera *)

Lemma createCamera_clipping_plane_witness :
  createCamera demo_cameraObjects 1920%float 1080%float demo_cameraRelationships
    (mkWorld [] tt)
  = (Throw (TypeError "Assignment to constant variable."), mkWorld [] tt).
Proof.
  apply (createCamera_clipping_plane demo_cameraObjects 1920%float 1080%float
           demo_cameraRelationships [(81, demo_cameraAttribute)] demo_cameraAttribute).
  - reflexivity.
  - reflexivity.
  - left. by eexists.
Defined.

(** The same camera without the two fields is built with the default planes. *)
Example createCamera_without_planes :
  createCamera
    {| Texture_nodes := None; Material_nodes := None; Deformer_nodes := None;
       NodeAttribute_nodes :=
         Some [(81, {| CameraProjectionType := None; NearPlane := None; FarPlane := None;
                       AspectWidth := Some 16%float; AspectHeight := Some 8%float;
                       FieldOfView := Some 40%float; FocalLength := None |})];
       Model_nodes := None |}
    1920%float 1080%float demo_cameraRelationships (mkWorld [] tt)
  = (Normal (PerspectiveCamera 40%float 2%float 1%float 1000%float None), mkWorld [] tt).
Proof. vm_compute. reflexivity. Qed.

(** ** A mesh *)

Lemma createMesh_material_witness :
  ∃ m1 m2 w',
    demo_materialMap !! 31 = Some m1 ∧ demo_materialMap !! 30 = Some m2
    ∧ createMesh demo_meshRelationships demo_geometryMap demo_materialMap
        (mkWorld [] demo_materialHeap)
      = (Normal {| isSkinnedMesh := false; mesh_geometry := 40;
                   mesh_material := MaterialList [m1; m2] |}, w').
Proof.
  apply (proj1 (createMesh_material demo_meshRelationships demo_geometryMap
                  demo_materialMap (mkWorld [] demo_materialHeap) 40
                  {| geo_color := true; FBX_Deformer := false |}
                  ltac:(vm_compute; reflexivity))
           (mkEdge 31 None) (mkEdge 30 None)).
  vm_compute. reflexivity.
Defined.

Example createMesh_two_materials :
  createMesh demo_meshRelationships demo_geometryMap demo_materialMap
    (mkWorld [] demo_materialHeap)
  = (Normal {| isSkinnedMesh := false; mesh_geometry := 40;
               mesh_material := MaterialList [1%nat; 0%nat] |},
     mkWorld []
       [ {| mat_kind := MeshPhongMaterial; mat_parameters := []; mat_name := Some "red";
            vertexColors := true; skinning := false |};
         {| mat_kind := MeshLambertMaterial; mat_parameters := []; mat_name := Some "blue";
            vertexColors := true; skinning := false |} ]).
Proof. vm_compute. reflexivity. Qed.

Example createMesh_no_material :
  createMesh {| parents := []; children := [mkEdge 40 None] |} demo_geometryMap
    demo_materialMap (mkWorld [] demo_materialHeap)
  = (Normal {| isSkinnedMesh := false; mesh_geometry := 40;
               mesh_material := SingleMaterial 2%nat |},
     mkWorld []
       (demo_materialHeap ++
        [ {| mat_kind := MeshPhongMaterial; mat_parameters := [("color", PHex 0xcccccc)];
             mat_name := None; vertexColors := true; skinning := false |} ])).
Proof. vm_compute. reflexivity. Qed.

Example createMesh_one_material :
  (createMesh {| parents := []; children := [mkEdge 30 None; mkEdge 40 None] |}
     demo_geometryMap demo_materialMap (mkWorld [] demo_materialHeap)).1
  = Normal {| isSkinnedMesh := false; mesh_geometry := 40;
              mesh_material := SingleMaterial 0%nat |}.
Proof. vm_compute. reflexivity. Qed.

(** A mesh model without a geometry makes [createMesh] raise. *)
Example createMesh_without_geometry :
  ∃ msg w',
    createMesh {| parents := []; children := [mkEdge 30 None] |} demo_geometryMap
      demo_materialMap (mkWorld [] demo_materialHeap) = (Throw (TypeError msg), w').
Proof. eexists _, _. vm_compute. reflexivity. Qed.

(** ** The loader *)

Lemma FBXLoader_parse_rejects_witness :
  FBXLoader_parse string string unit spec_isFbxFormatBinary (λ buffer, buffer)
    spec_isFbxFormatASCII spec_getFbxVersion
    (λ buffer, Normal buffer) (λ text, Normal text) (λ tree, Normal tt)
    "; FBX 6.1.0 project file  FBXHeaderExtension: { FBXVersion: 6000 }"
  = Throw (Error "THREE.FBXLoader: FBX version not supported, FileVersion: 6000")
  ∧ FBXLoader_parse string string unit spec_isFbxFormatBinary (λ buffer, buffer)
        spec_isFbxFormatASCII spec_getFbxVersion
        (λ buffer, Normal buffer) (λ text, Normal text) (λ tree, Normal tt)
      "solid cube facet normal 0 0 1 endsolid"
    = Throw (Error "THREE.FBXLoader: Unknown format.").
Proof.
  split.
  - apply (proj1 (FBXLoader_parse_rejects string string unit spec_isFbxFormatBinary
                    (λ buffer, buffer) spec_isFbxFormatASCII spec_getFbxVersion
                    (λ buffer, Normal buffer) (λ text, Normal text) (λ tree, Normal tt)
                    "; FBX 6.1.0 project file  FBXHeaderExtension: { FBXVersion: 6000 }")
             6000).
    + reflexivity.
    + reflexivity.
    + reflexivity.
    + lia.
  - apply (proj2 (FBXLoader_parse_rejects string string unit spec_isFbxFormatBinary
                    (λ buffer, buffer) spec_isFbxFormatASCII spec_getFbxVersion
                    (λ buffer, Normal buffer) (λ text, Normal text) (λ tree, Normal tt)
                    "solid cube facet normal 0 0 1 endsolid")).
    + reflexivity.
    + reflexivity.
Defined.

Example FBXLoader_parse_accepts :
  FBXLoader_parse string string unit spec_isFbxFormatBinary (λ buffer, buffer)
    spec_isFbxFormatASCII spec_getFbxVersion
    (λ buffer, Normal buffer) (λ text, Normal text) (λ tree, Normal tt)
    "; FBX 7.4.0 project file  FBXHeaderExtension: { FBXVersion: 7400 }"
  = Normal tt.
Proof. vm_compute. reflexivity. Qed.

(** ** A hierarchy *)

(** C2 as the specification states it fails: the first parent of the mesh 3 that
    resolves to a constructed model is the group 1, and the assembly leaves
    the mesh under the group 2, the group 1 without children. *)
Lemma assembleHierarchy_first_parent_fails :
  ∃ w',
    assembleHierarchy demo_sceneObjects demo_sceneConnections demo_modelMap demo_emptyScene
    = (Normal tt, w')
    ∧ firstResolvedParent demo_modelMap [mkEdge 1 None; mkEdge 2 None] = Some 1
    ∧ parentOf (heap w') !! ModelObj 3 = Some (ModelObj 2)
    ∧ kids (heap w') (ModelObj 1) = []
    ∧ kids (heap w') (ModelObj 2) = [ModelObj 3].
Proof.
  eexists. split; [vm_compute; reflexivity|].
  split_and!; vm_compute; reflexivity.
Qed.

Lemma assembleHierarchy_parent_witness :
  ∃ w',
    assembleHierarchy demo_sceneObjects demo_sceneConnections demo_modelMap demo_emptyScene
    = (Normal tt, w')
    ∧ attached (heap w') (ModelObj 3) (ModelObj 2)
    ∧ attached (heap w') (ModelObj 1) SceneGraph.
Proof.
  destruct (assembleHierarchy_parent demo_sceneObjects demo_sceneConnections
              demo_modelMap demo_modelNodes demo_emptyScene) as (w' & Hrun & Hattached).
  - reflexivity.
  - apply (bool_decide_unpack _). vm_compute. exact I.
  - intros id kind Hin. unfold demo_modelMap in Hin.
    repeat (apply elem_of_cons in Hin as [Hin|Hin];
            [ inversion Hin; subst; split; [reflexivity|];
              split; [vm_compute; by eexists|];
              eexists; split; [reflexivity|]; intros Hlook;
              first [ discriminate
                    | eexists; split; [vm_compute; reflexivity|];
                      repeat (apply Forall_cons_2; [intros _; vm_compute; by eexists|]);
                      apply Forall_nil_2 ] |]).
    by apply elem_of_nil in Hin.
  - assert (Hlast3 : lastResolvedParent demo_modelMap 3 [mkEdge 1 None; mkEdge 2 None]
                     = Some 2) by (vm_compute; reflexivity).
    assert (Hlast1 : lastResolvedParent demo_modelMap 1 [mkEdge 0 None] = None)
      by (vm_compute; reflexivity).
    assert (Hin3 : (3, KMesh) ∈ demo_modelMap) by (unfold demo_modelMap; right; right; left).
    assert (Hin1 : (1, KGroup) ∈ demo_modelMap) by (unfold demo_modelMap; left).
    assert (Hrel3 : demo_sceneConnections !! 3
                    = Some {| parents := [mkEdge 1 None; mkEdge 2 None]; children := [] |})
      by (vm_compute; reflexivity).
    assert (Hrel1 : demo_sceneConnections !! 1
                    = Some {| parents := [mkEdge 0 None]; children := [mkEdge 3 None] |})
      by (vm_compute; reflexivity).
    pose proof (Hattached _ _ _ Hin3 Hrel3) as H3.
    pose proof (Hattached _ _ _ Hin1 Hrel1) as H1.
    cbn [parents] in H3, H1. rewrite Hlast3 in H3. rewrite Hlast1 in H1.
    exists w'. split; [exact Hrun|]. split; [exact H3 | exact H1].
Defined.

(** The scene that the assembly builds: the groups 1 and the light 4 under
    the root, the target of the light as well, the group 2 under the light 4. *)
Example assembleHierarchy_demo :
  ∃ w',
    assembleHierarchy demo_sceneObjects demo_sceneConnections demo_modelMap demo_emptyScene
    = (Normal tt, w')
    ∧ kids (heap w') SceneGraph = [ModelObj 1; TargetObj 4; ModelObj 4]
    ∧ kids (heap w') (ModelObj 4) = [ModelObj 2]
    ∧ parentOf (heap w') !! ModelObj 2 = Some (ModelObj 4)
    ∧ positionOf (heap w') !! TargetObj 4 = Some [0%float; 1%float; 0%float].
Proof.
  eexists. split; [vm_compute; reflexivity|].
  split_and!; vm_compute; reflexivity.
Qed.

(** A connection of a model to itself is refused by [Object3D.add]. *)
Example assembleHierarchy_self_parent :
  ∃ w',
    assembleHierarchy
      {| Texture_nodes := None; Material_nodes := None; Deformer_nodes := None;
         NodeAttribute_nodes := None; Model_nodes := Some [(1, demo_plainModel "Null")] |}
      (parseConnections (Some [mkConn 1 1 None])) [(1, KGroup)] demo_emptyScene
    = (Normal tt, w')
    ∧ parentOf (heap w') !! ModelObj 1 = Some SceneGraph.
Proof. eexists. split; vm_compute; reflexivity. Qed.

(** ** The further passes on concrete scenes *)

(** The image behind the texture 10 is embedded: [loadTexture] clears the
    path of the loader while it loads, and the path is back afterwards. *)
Lemma parseTexture_restores_path_witness :
  ∃ texture w',
    parseTexture demo_textureConnections false demo_textureNode demo_embeddedImages
      (mkWorld [] (Some "textures/")) = (Normal texture, w')
    ∧ tex_source texture
      = TextureLoader_load None (Some "data:image/png;base64,iVBORw0KGgo=")
    ∧ heap w' = Some "textures/".
Proof.
  eexists _, _. split; [vm_compute; reflexivity|]. split; [reflexivity|].
  apply (parseTexture_restores_path demo_textureConnections false demo_textureNode
           demo_embeddedImages (mkWorld [] (Some "textures/")) _ _
           ltac:(vm_compute; reflexivity)).
Defined.

Lemma loadTexture_loses_path_witness :
  ∃ msg,
    loadTexture demo_textureConnections false
      {| tn_id := 10; tn_attrName := Some "wood"; WrapModeU := None; WrapModeV := None;
         Scaling := None; FileName := None; RelativeFilename := None |}
      demo_embeddedImages (mkWorld [] (Some "textures/"))
    = (Throw (TypeError msg), mkWorld [] None).
Proof.
  apply (loadTexture_loses_path demo_textureConnections false
           {| tn_id := 10; tn_attrName := Some "wood"; WrapModeU := None; WrapModeV := None;
              Scaling := None; FileName := None; RelativeFilename := None |}
           demo_embeddedImages (mkWorld [] (Some "textures/"))
           (mkRel [] [mkEdge 20 None]) (mkEdge 20 None) []
           "data:image/png;base64,iVBORw0KGgo=").
  - vm_compute. reflexivity.
  - reflexivity.
  - reflexivity.
  - vm_compute. reflexivity.
  - reflexivity.
Defined.

Lemma parseTextures_unconnected_node_witness :
  ∃ msg w',
    parseTextures demo_textureObjects ∅ false demo_images (mkWorld [] None)
    = (Throw (TypeError msg), w').
Proof.
  apply (parseTextures_unconnected_node demo_textureObjects ∅ false demo_images
           [(10, demo_textureNode)] 10 demo_textureNode (mkWorld [] None)).
  - reflexivity.
  - left.
  - reflexivity.
Defined.

Lemma parseTextures_registry_witness :
  ∃ textureMap w' t,
    parseTextures demo_textureObjects demo_textureConnections false demo_images
      (mkWorld [] None) = (Normal textureMap, w')
    ∧ textureMap !! 10 = Some t
    ∧ tex_ID t = Some 10
    ∧ textureMap !! 11 = None.
Proof.
  destruct (parseTextures demo_textureObjects demo_textureConnections false demo_images
              (mkWorld [] None)) as [[textureMap|e] w'] eqn:Hrun;
    [|vm_compute in Hrun; discriminate].
  destruct (parseTextures_registry demo_textureObjects demo_textureConnections false
              demo_images [(10, demo_textureNode)] (mkWorld [] None) textureMap w'
              eq_refl Hrun) as [Hkeys Hfields].
  destruct (proj2 (Hkeys 10)) as [t Ht]; [left|].
  destruct (Hfields 10 t Ht) as (node & Hin & Hid & _).
  apply list_elem_of_singleton in Hin. inversion Hin; subst node.
  exists textureMap, w', t. split_and!; [reflexivity | exact Ht | exact Hid |].
  apply eq_None_not_Some. intros Hsome%Hkeys.
  apply list_elem_of_singleton in Hsome. discriminate.
Defined.


Lemma parseMorphTargets_all_channels_witness :
  ∃ targets,
    parseMorphTargets demo_morphConnections
      {| parents := [mkEdge 60 None]; children := [mkEdge 201 None; mkEdge 204 None] |}
      demo_morphNodes (mkWorld [] tt)
    = (Normal (Some targets), mkWorld [] tt)
    ∧ length targets = 2%nat.
Proof.
  destruct (parseMorphTargets_all_channels demo_morphConnections
              {| parents := [mkEdge 60 None];
                 children := [mkEdge 201 None; mkEdge 204 None] |}
              demo_morphNodes (mkWorld [] tt)) as (targets & Hrun & Hall).
  - apply Forall_cons_2;
      [ exists (demo_channel 201), (mkRel [] [mkEdge 70 None]);
        split_and!; [reflexivity | reflexivity | by eexists
                    | vm_compute; reflexivity | by eexists] |].
    apply Forall_cons_2; [|apply Forall_nil_2].
    exists (demo_channel 204), (mkRel [] [mkEdge 71 None]).
    split_and!; [reflexivity | reflexivity | by eexists
                | vm_compute; reflexivity | by eexists].
  - exists targets. split; [exact Hrun|].
    symmetry. apply (Forall2_length _ _ _ Hall).
Defined.

Lemma parseDeformers_registry_witness :
  ∃ deformers w',
    parseDeformers demo_skinObjects demo_deformerConnections (mkWorld [] tt)
    = (Normal deformers, w')
    ∧ (skeletons deformers).*1 = [103]
    ∧ (morphTargets deformers).*1 = [].
Proof.
  destruct (parseDeformers demo_skinObjects demo_deformerConnections (mkWorld [] tt))
    as [[deformers|e] w'] eqn:Hrun; [|vm_compute in Hrun; discriminate].
  destruct (parseDeformers_registry demo_skinObjects demo_deformerConnections
              [(103, demo_skin 103); (101, demo_cluster 101 true)] (mkWorld [] tt)
              deformers w' eq_refl) as (Hskins & Hmorphs & _).
  - apply (bool_decide_unpack _). vm_compute. exact I.
  - exact Hrun.
  - exists deformers, w'. split; [reflexivity|]. split; [exact Hskins | exact Hmorphs].
Defined.


(** Videos without content: each image is the file name without its folders. *)
Lemma parseImages_file_names_witness :
  ∃ images,
    parseImages false
      (Some [ (21, {| vn_RelativeFilename := Some "wood.png"; vn_Filename := None;
                      vn_Content := None |});
              (22, {| vn_RelativeFilename := None;
                      vn_Filename := Some "C:\textures\bark.jpg";
                      vn_Content := Some (ContentString "") |}) ])
      demo_createObjectURL (mkWorld [] tt)
    = (Normal images, mkWorld [] tt)
    ∧ images !! 22 = Some (ImageURL "bark.jpg").
Proof.
  destruct (parseImages_file_names false
              (Some [ (21, {| vn_RelativeFilename := Some "wood.png"; vn_Filename := None;
                              vn_Content := None |});
                      (22, {| vn_RelativeFilename := None;
                              vn_Filename := Some "C:\textures\bark.jpg";
                              vn_Content := Some (ContentString "") |}) ])
              demo_createObjectURL _ (mkWorld [] tt) eq_refl)
    as (images & Hrun & Hnames).
  - apply (bool_decide_unpack _). vm_compute. exact I.
  - apply Forall_cons_2;
      [split; [exact I|]; eexists; split; [reflexivity|];
       apply (bool_decide_unpack _); vm_compute; exact I|].
    apply Forall_cons_2;
      [split; [reflexivity|]; eexists; split; [reflexivity|];
       apply (bool_decide_unpack _); vm_compute; exact I|].
    apply Forall_nil_2.
  - exists images. split; [exact Hrun|].
    rewrite (Hnames 22 {| vn_RelativeFilename := None;
                          vn_Filename := Some "C:\textures\bark.jpg";
                          vn_Content := Some (ContentString "") |})
      by (right; left).
    vm_compute. reflexivity.
Defined.

(** The camera model names the attributes 81 and 82: the second one decides. *)
Lemma createCamera_last_attribute_witness :
  ∃ left right top bottom,
    createCamera demo_twoCameraObjects 1920%float 1080%float
      {| parents := []; children := [mkEdge 81 None; mkEdge 82 None] |} (mkWorld [] tt)
    = (Normal (OrthographicCamera left right top bottom 1%float 1000%float),
       mkWorld [] tt).
Proof.
  destruct (createCamera_last_attribute demo_twoCameraObjects 1920%float 1080%float
              {| parents := []; children := [mkEdge 81 None; mkEdge 82 None] |}
              [(81, demo_plainCamera None); (82, demo_plainCamera (Some 1))]
              [mkEdge 81 None] (mkEdge 82 None) [] (demo_plainCamera (Some 1))
              (mkWorld [] tt) eq_refl eq_refl eq_refl
              ltac:(by intros c Hc%elem_of_nil) eq_refl eq_refl)
    as (camera & Hrun & Hcamera).
  destruct camera as [|fov aspect near far focalLength|l r t b near far].
  - destruct Hcamera.
  - destruct Hcamera as [Hprojection _]. by destruct Hprojection.
  - destruct Hcamera as (_ & -> & ->). by exists l, r, t, b.
Defined.


(** The model names the geometries 40 and 41: the mesh gets the geometry 41,
    which carries a deformer. *)
Lemma createMesh_last_geometry_witness :
  ∃ material w',
    createMesh {| parents := [];
                  children := [mkEdge 40 None; mkEdge 30 None; mkEdge 41 None] |}
      demo_twoGeometries demo_materialMap (mkWorld [] demo_materialHeap)
    = (Normal {| isSkinnedMesh := true; mesh_geometry := 41; mesh_material := material |},
       w').
Proof.
  apply (createMesh_last_geometry
           {| parents := [];
              children := [mkEdge 40 None; mkEdge 30 None; mkEdge 41 None] |}
           demo_twoGeometries demo_materialMap (mkWorld [] demo_materialHeap)
           [mkEdge 40 None; mkEdge 30 None] (mkEdge 41 None) []
           {| geo_color := false; FBX_Deformer := true |}).
  - reflexivity.
  - vm_compute. reflexivity.
  - by intros c Hc%elem_of_nil.
Defined.

(** The geometry 40 has a colour attribute: the registered material 30 of the
    mesh is flagged in the heap. *)
Lemma createMesh_flags_materials_witness :
  ∃ mesh w',
    createMesh demo_meshRelationships demo_geometryMap demo_materialMap
      (mkWorld [] demo_materialHeap) = (Normal mesh, w')
    ∧ heap w' !! 0%nat
      = Some {| mat_kind := MeshPhongMaterial; mat_parameters := []; mat_name := Some "red";
                vertexColors := true; skinning := false |}.
Proof.
  destruct (createMesh_flags_materials demo_meshRelationships demo_geometryMap
              demo_materialMap (mkWorld [] demo_materialHeap) 40
              {| geo_color := true; FBX_Deformer := false |}
              ltac:(vm_compute; reflexivity))
    as (mesh & w' & Hrun & _ & Hflag & _).
  exists mesh, w'. split; [exact Hrun|].
  apply (Hflag (mkEdge 30 None) 0%nat
           {| mat_kind := MeshPhongMaterial; mat_parameters := []; mat_name := Some "red";
              vertexColors := false; skinning := false |}).
  - unfold demo_meshRelationships. cbn [children]. right. right. left.
  - vm_compute. reflexivity.
  - reflexivity.
Defined.

Lemma assembleHierarchy_consistent_witness :
  consistent
    (heap (assembleHierarchy demo_sceneObjects demo_sceneConnections demo_modelMap
             demo_emptyScene).2).
Proof.
  apply (assembleHierarchy_consistent demo_sceneObjects demo_sceneConnections
           demo_modelMap demo_emptyScene
           (assembleHierarchy demo_sceneObjects demo_sceneConnections demo_modelMap
              demo_emptyScene).1).
  - apply consistent_new_scene.
  - by destruct (assembleHierarchy _ _ _ _).
Defined.

Lemma assembleHierarchy_children_witness :
  ∃ w',
    assembleHierarchy demo_sceneObjects demo_sceneConnections demo_modelMap demo_emptyScene
    = (Normal tt, w')
    ∧ ModelObj 1 ∈ kids (heap w') SceneGraph
    ∧ (ModelObj 3 ∉ kids (heap w') SceneGraph)
    ∧ (ModelObj 3 ∉ kids (heap w') (ModelObj 1)).
Proof.
  destruct (assembleHierarchy_children demo_sceneObjects demo_sceneConnections
              demo_modelMap demo_modelNodes demo_emptyScene) as (w' & Hrun & _ & Hkids).
  - reflexivity.
  - apply (bool_decide_unpack _). vm_compute. exact I.
  - apply consistent_new_scene.
  - intros id kind Hin. unfold demo_modelMap in Hin.
    repeat (apply elem_of_cons in Hin as [Hin|Hin];
            [ inversion Hin; subst; split; [reflexivity|];
              split; [vm_compute; by eexists|];
              eexists; split; [reflexivity|]; intros Hlook;
              first [ discriminate
                    | eexists; split; [vm_compute; reflexivity|];
                      repeat (apply Forall_cons_2; [intros _; vm_compute; by eexists|]);
                      apply Forall_nil_2 ] |]).
    by apply elem_of_nil in Hin.
  - assert (Hlast3 : lastResolvedParent demo_modelMap 3 [mkEdge 1 None; mkEdge 2 None]
                     = Some 2) by (vm_compute; reflexivity).
    assert (Hlast1 : lastResolvedParent demo_modelMap 1 [mkEdge 0 None] = None)
      by (vm_compute; reflexivity).
    assert (Hin3 : (3, KMesh) ∈ demo_modelMap) by (unfold demo_modelMap; right; right; left).
    assert (Hin1 : (1, KGroup) ∈ demo_modelMap) by (unfold demo_modelMap; left).
    assert (Hrel3 : demo_sceneConnections !! 3
                    = Some {| parents := [mkEdge 1 None; mkEdge 2 None]; children := [] |})
      by (vm_compute; reflexivity).
    assert (Hrel1 : demo_sceneConnections !! 1
                    = Some {| parents := [mkEdge 0 None]; children := [mkEdge 3 None] |})
      by (vm_compute; reflexivity).
    destruct (Hkids _ _ _ Hin3 Hrel3) as [Hp3 Hroot3].
    destruct (Hkids _ _ _ Hin1 Hrel1) as [_ Hroot1].
    cbn [parents] in Hp3, Hroot3, Hroot1.
    rewrite Hlast3 in Hp3, Hroot3. rewrite Hlast1 in Hroot1.
    exists w'. split; [exact Hrun|]. split_and!.
    + by apply Hroot1.
    + intros Hin%Hroot3. discriminate.
    + intros Hin%Hp3. discriminate.
Defined.

(** The model 9 is constructed but the connection graph has no entry for it. *)
Lemma assembleHierarchy_missing_connections_witness :
  ∃ msg w',
    assembleHierarchy demo_sceneObjects demo_sceneConnections [(1, KGroup); (9, KMesh)]
      demo_emptyScene = (Throw (TypeError msg), w').
Proof.
  apply (assembleHierarchy_missing_connections demo_sceneObjects demo_sceneConnections
           [(1, KGroup); (9, KMesh)] demo_emptyScene 9 KMesh).
  - right. left.
  - vm_compute. reflexivity.
Defined.

(** ** Lights *)

Lemma createLight_disabled_witness :
  ∃ light w',
    createLight (Some demo_lightAttributes)
      {| parents := []; children := [mkEdge 91 None] |} (mkWorld [] tt)
    = (Normal light, w')
    ∧ light_intensity (light_object light) = Some 0%float.
Proof.
  apply (createLight_disabled (Some demo_lightAttributes)
           {| parents := []; children := [mkEdge 91 None] |}
           demo_lightAttributes demo_spotLight (mkWorld [] tt)
           eq_refl eq_refl eq_refl).
Defined.

Lemma createLight_unknown_type_witness :
  ∃ color intensity,
    createLight (Some demo_lightAttributes)
      {| parents := []; children := [mkEdge 92 None] |} (mkWorld [] tt)
    = (Normal {| light_object := PointLight color intensity None None;
                 castShadow := false |},
       mkWorld ["THREE.FBXLoader: Unknown light type 3, defaulting to a PointLight."] tt).
Proof.
  apply (createLight_unknown_type (Some demo_lightAttributes)
           {| parents := []; children := [mkEdge 92 None] |}
           demo_lightAttributes demo_areaLight 3 (mkWorld [] tt)
           eq_refl eq_refl eq_refl ltac:(lia) ltac:(lia) ltac:(lia)).
Defined.

Lemma createLight_spot_penumbra_witness :
  ∃ color intensity distance angle penumbra,
    createLight (Some demo_lightAttributes)
      {| parents := []; children := [mkEdge 91 None] |} (mkWorld [] tt)
    = (Normal {| light_object := SpotLight color intensity distance angle penumbra 1;
                 castShadow := true |}, mkWorld [] tt)
    ∧ (penumbra <? 1)%float = false.
Proof.
  destruct (createLight_spot_penumbra (Some demo_lightAttributes)
              {| parents := []; children := [mkEdge 91 None] |}
              demo_lightAttributes demo_spotLight (mkWorld [] tt)
              eq_refl eq_refl eq_refl)
    as (color & intensity & distance & angle & penumbra & Hrun & Hpenumbra).
  exists color, intensity, distance, angle, penumbra.
  split; [exact Hrun | exact (proj2 Hpenumbra)].
Defined.

(** ** Bind poses and skinning *)

Lemma parsePoseNodes_last_entry_witness :
  ∃ bindMatrices,
    parsePoseNodes (Some demo_poseNodes) (mkWorld [] tt)
    = (Normal bindMatrices, mkWorld [] tt)
    ∧ bindMatrices !! 3 = Some (Matrix4_fromArray [3%float])
    ∧ bindMatrices !! 4 = None.
Proof.
  destruct (parsePoseNodes_last_entry (Some demo_poseNodes) demo_poseNodes
              (mkWorld [] tt) eq_refl) as (bindMatrices & Hrun & Hlookup).
  - repeat (apply Forall_cons_2; [intros Htype; first [discriminate | by eexists]|]).
    apply Forall_nil_2.
  - repeat (apply Forall_cons_2; [by eexists|]). apply Forall_nil_2.
  - exists bindMatrices. split; [exact Hrun|]. rewrite !Hlookup.
    split; vm_compute; reflexivity.
Defined.

Lemma bindSkeleton_binds_witness :
  bindSkeleton demo_bindConnections (Some demo_poseNodes) demo_boundSkeletons
    demo_skinnedGeometries [(3, KSkinnedMesh)] (mkWorld [] [])
  = (Normal tt,
     mkWorld [] [ {| bound_model := 3; bound_bones := [Some 0%nat; None];
                     bound_matrix := Some (Matrix4_fromArray [3%float]) |} ]).
Proof.
  assert (Hreached : reachedModels demo_bindConnections demo_skinnedGeometries
                       [(3, KSkinnedMesh)]
                       {| rawBones := []; bones := [Some 0%nat; None]; sk_ID := Some 103;
                          geometryID := Some 60 |} = [3])
    by (vm_compute; reflexivity).
  rewrite (bindSkeleton_binds demo_bindConnections (Some demo_poseNodes)
             demo_boundSkeletons demo_skinnedGeometries [(3, KSkinnedMesh)]
             (<[3 := Matrix4_fromArray [3%float]]>
                (<[5 := Matrix4_fromArray [2%float]]>
                   (<[3 := Matrix4_fromArray [1%float]]> ∅)))
             (mkWorld [] [])).
  - vm_compute. reflexivity.
  - vm_compute. reflexivity.
  - apply Forall_cons_2; [|apply Forall_nil_2]. split.
    + exists 103, {| parents := [mkEdge 60 None]; children := [] |}.
      split; [reflexivity|]. split; [vm_compute; reflexivity|].
      intros parent Hin%list_elem_of_singleton _. subst parent.
      vm_compute. by eexists.
    + cbn [snd]. rewrite Hreached. by intros model ->%list_elem_of_singleton.
Defined.

(** The model 3 is a plain mesh: it cannot be bound. *)
Lemma bindSkeleton_unskinned_model_witness :
  ∃ msg w',
    bindSkeleton demo_bindConnections (Some demo_poseNodes) demo_boundSkeletons
      demo_skinnedGeometries [(3, KMesh)] (mkWorld [] [])
    = (Throw (TypeError msg), w').
Proof.
  apply (bindSkeleton_unskinned_model demo_bindConnections (Some demo_poseNodes)
           demo_boundSkeletons demo_skinnedGeometries [(3, KMesh)]
           (<[3 := Matrix4_fromArray [3%float]]>
              (<[5 := Matrix4_fromArray [2%float]]>
                 (<[3 := Matrix4_fromArray [1%float]]> ∅)))
           (mkWorld [] []) 103
           {| rawBones := []; bones := [Some 0%nat; None]; sk_ID := Some 103;
              geometryID := Some 60 |} 3 KMesh).
  - vm_compute. reflexivity.
  - left.
  - assert (Hreached : reachedModels demo_bindConnections demo_skinnedGeometries
                         [(3, KMesh)]
                         {| rawBones := []; bones := [Some 0%nat; None];
                            sk_ID := Some 103; geometryID := Some 60 |} = [3])
      by (vm_compute; reflexivity).
    rewrite Hreached. left.
  - reflexivity.
  - discriminate.
Defined.

(** ** The texture maps of a material *)

Lemma getTexture_layered_witness :
  getTexture demo_layerConnections (Some {[ 15 ]}) demo_textureMap 15 (mkWorld [] tt)
  = (Normal (Some (10, newTexture (TextureLoader_load None (Some "wood.png")))),
     mkWorld ["THREE.FBXLoader: layered textures are not supported in three.js. "
              +:+ "Discarding all but first layer."] tt).
Proof.
  pose proof (getTexture_layered demo_layerConnections (Some {[ 15 ]})
                demo_textureMap {[ 15 ]} 15 (mkWorld [] tt) eq_refl
                ltac:(by apply elem_of_singleton)) as Hrun.
  assert (Hfirst : demo_layerConnections !! 15 ≫= (λ rel, head (children rel))
                   = Some (mkEdge 10 None)) by (vm_compute; reflexivity).
  rewrite Hfirst in Hrun. rewrite Hrun. vm_compute. reflexivity.
Defined.

Lemma mapTextures_missing_texture_witness :
  ∃ msg w',
    mapTextures demo_diffuseConnections None demo_textureMap 30 []
      (mkWorld [] {| sRGB := ∅; equirectangular := ∅ |})
    = (Throw (TypeError msg), w').
Proof.
  apply (mapTextures_missing_texture demo_diffuseConnections None demo_textureMap 30 []
           {| parents := []; children := [mkEdge 12 (Some "DiffuseColor")] |}
           (mkEdge 12 (Some "DiffuseColor"))).
  - vm_compute. reflexivity.
  - left.
  - by left.
  - discriminate.
  - vm_compute. reflexivity.
Defined.

Lemma mapTextures_unsupported_witness :
  mapTextures demo_ambientConnections None demo_textureMap 30 []
    (mkWorld [] {| sRGB := ∅; equirectangular := ∅ |})
  = (Normal [],
     mkWorld [ "THREE.FBXLoader: undefined map is not supported in three.js, skipping texture.";
               "THREE.FBXLoader: AmbientColor map is not supported in three.js, skipping texture." ]
             {| sRGB := ∅; equirectangular := ∅ |}).
Proof.
  apply (mapTextures_unsupported demo_ambientConnections None demo_textureMap 30 []
           {| parents := [];
              children := [mkEdge 10 None; mkEdge 11 (Some "AmbientColor")] |}
           (mkWorld [] {| sRGB := ∅; equirectangular := ∅ |})).
  - vm_compute. reflexivity.
  - intros child Hin. cbn [children] in Hin.
    apply elem_of_cons in Hin as [->|Hin%list_elem_of_singleton]; [|subst child];
      unfold supportedMap; cbn [relationship];
      apply (bool_decide_unpack _); vm_compute; exact I.
Defined.

(** ** The material registry *)

Lemma parseMaterials_registry_witness :
  ∃ materialMap w',
    parseMaterials demo_materialObjects demo_materialConnections demo_parseParameters ∅
      (mkWorld [] []) = (Normal materialMap, w')
    ∧ is_Some (materialMap !! 30)
    ∧ materialMap !! 31 = None.
Proof.
  destruct (parseMaterials demo_materialObjects demo_materialConnections
              demo_parseParameters ∅ (mkWorld [] [])) as [[materialMap|e] w'] eqn:Hrun;
    [|vm_compute in Hrun; discriminate].
  pose proof (parseMaterials_registry demo_materialObjects demo_materialConnections
                demo_parseParameters ∅ demo_materialNodes (mkWorld [] []) materialMap w'
                eq_refl Hrun) as Hkeys.
  exists materialMap, w'. split; [reflexivity|]. split.
  - apply Hkeys. eexists. split; [left|]. vm_compute. by eexists.
  - apply eq_None_not_Some. intros (node & Hin & Hconn)%Hkeys.
    unfold demo_materialNodes in Hin.
    apply elem_of_cons in Hin as [Hin|Hin]; [discriminate|].
    apply list_elem_of_singleton in Hin. inversion Hin; subst node.
    vm_compute in Hconn. by destruct Hconn.
Defined.

(** A video named after a property that every object inherits resolves to
    that property, not to its name. *)
Example parseImages_inherited_name :
  ∃ images,
    parseImages false
      (Some [ (20, {| vn_RelativeFilename := Some "toString"; vn_Filename := None;
                      vn_Content := None |}) ])
      demo_createObjectURL (mkWorld [] tt)
    = (Normal images, mkWorld [] tt)
    ∧ images !! 20 = Some (InheritedProperty "toString").
Proof. eexists. split; vm_compute; reflexivity. Qed.
